(** * fetch-site-cli: the mirroring pipeline of [src/fetch.ts]

    A shallow embedding of [fetch.ts] and the properties of its
    specification.

    Conventions of the model.
    - A JavaScript string is a [string]: a sequence of code units, here
      restricted to the code units below 256.
    - A JavaScript [number] of the ledger is the integer it holds, a [Z];
      the sum of two numbers is rounded as IEEE 754 rounds it
      ([Number.add]); numbers that are not integers, or not below 2^1024,
      are not modelled.
    - The metadata file holds values of the type the program declares
      for them: what [JSON.parse] gives is an array whose elements are
      entries, with a string [url], or values whose [url] cannot be read,
      as [null] is.
    - [META_DB], a [Map<string, MetaData>], is a [JsMap.t MetaData], the
      entries in the order of their insertion; the attributes of a DOM
      element (the object [element.attribs]) are a [gmap string string].
    - The libraries the program calls are outside the repository.  The HTML
      parser and serialiser (cheerio), the URL class, axios, [fs],
      [path.dirname], the clock and the order in which the event loop
      resumes concurrent tasks are fields of a [Platform] record that the
      pipeline takes as an argument, so that a property proved for every
      platform holds whatever they answer; regular expressions and POSIX
      [path.join] are modelled concretely, because the properties compare
      their results. *)

From Stdlib Require Import ZArith Ascii String List Bool Lia.
From stdpp Require Import base option list gmap strings pretty relations.

Set Warnings "-register-all".
Local Open Scope Z_scope.

(** ** Strings *)

Module Str.

Definition char_code (c : ascii) : N := N_of_ascii c.

(** [String.prototype.startsWith]. *)
Fixpoint startsWith (s searchString : string) {struct searchString} : bool :=
  match searchString, s with
  | EmptyString, _ => true
  | String a p', String b s' => Ascii.eqb a b && startsWith s' p'
  | String _ _, EmptyString => false
  end.

Fixpoint endsWith (s searchString : string) : bool :=
  if String.eqb s searchString then true
  else match s with
       | EmptyString => false
       | String _ s' => endsWith s' searchString
       end.

(** [s.includes(c)] for a single character. *)
Fixpoint includes (s : string) (c : ascii) : bool :=
  match s with
  | EmptyString => false
  | String a s' => Ascii.eqb a c || includes s' c
  end.

Fixpoint forall_chars (p : ascii -> bool) (s : string) : bool :=
  match s with
  | EmptyString => true
  | String a s' => p a && forall_chars p s'
  end.

Fixpoint exists_chars (p : ascii -> bool) (s : string) : bool :=
  match s with
  | EmptyString => false
  | String a s' => p a || exists_chars p s'
  end.

(** [s.replace(/[...]/g, by)] for a character class and a one-character
    replacement. *)
Fixpoint replace_class (p : ascii -> bool) (by_ : ascii) (s : string) : string :=
  match s with
  | EmptyString => EmptyString
  | String a s' => String (if p a then by_ else a) (replace_class p by_ s')
  end.

(** The rest of [s] after the prefix [p], when [s] starts with [p]. *)
Fixpoint strip_prefix (p s : string) : option string :=
  match p, s with
  | EmptyString, _ => Some s
  | String a p', String b s' => if Ascii.eqb a b then strip_prefix p' s' else None
  | String _ _, EmptyString => None
  end.

Definition to_lower (c : ascii) : ascii :=
  let n := char_code c in
  if ((65 <=? n) && (n <=? 90))%N then ascii_of_N (n + 32) else c.

Fixpoint lower (s : string) : string :=
  match s with
  | EmptyString => EmptyString
  | String a s' => String (to_lower a) (lower s')
  end.

(** The class [\s] of ECMAScript regular expressions, on code units
    below 256: TAB, LF, VT, FF, CR, space and NBSP. *)
Definition is_space (c : ascii) : bool :=
  let n := char_code c in
  (((9 <=? n) && (n <=? 13)) || (n =? 32) || (n =? 160))%N.

(** Line terminators (LF, CR), the characters [.] does not match. *)
Definition is_line_terminator (c : ascii) : bool :=
  let n := char_code c in ((n =? 10) || (n =? 13))%N.

Definition one_of (set : string) (c : ascii) : bool := includes set c.

(** [String.prototype.toLowerCase] on code units below 256. *)
Definition toLowerCase_char (c : ascii) : ascii :=
  let n := char_code c in
  if (((65 <=? n) && (n <=? 90))
      || ((192 <=? n) && (n <=? 222) && negb (n =? 215)))%N
  then ascii_of_N (n + 32) else c.

Fixpoint toLowerCase (s : string) : string :=
  match s with
  | EmptyString => EmptyString
  | String a s' => String (toLowerCase_char a) (toLowerCase s')
  end.

End Str.

(** ** Regular expressions

    The fragment of ECMAScript regular expressions the program uses, with
    Brzozowski derivatives as the matcher and the usual inductive
    semantics as its specification. *)

Module RegExp.

Inductive regex : Type :=
| Void : regex
| Eps : regex
| Class (p : ascii -> bool) : regex
| Seq (r1 r2 : regex) : regex
| Alt (r1 r2 : regex) : regex
| Star (r : regex) : regex.

Definition Opt (r : regex) : regex := Alt r Eps.

(** A literal character under the [i] flag. *)
Definition chr_i (c : ascii) : regex :=
  Class (fun a => Ascii.eqb (Str.to_lower a) (Str.to_lower c)).

Definition chr (c : ascii) : regex := Class (Ascii.eqb c).

Fixpoint lit_i (s : string) : regex :=
  match s with
  | EmptyString => Eps
  | String c s' => Seq (chr_i c) (lit_i s')
  end.

Fixpoint lit (s : string) : regex :=
  match s with
  | EmptyString => Eps
  | String c s' => Seq (chr c) (lit s')
  end.

(** [.] without the [s] flag. *)
Definition Dot : regex := Class (fun a => negb (Str.is_line_terminator a)).

Fixpoint nullable (r : regex) : bool :=
  match r with
  | Void => false
  | Eps => true
  | Class _ => false
  | Seq r1 r2 => nullable r1 && nullable r2
  | Alt r1 r2 => nullable r1 || nullable r2
  | Star _ => true
  end.

Fixpoint deriv (c : ascii) (r : regex) : regex :=
  match r with
  | Void => Void
  | Eps => Void
  | Class p => if p c then Eps else Void
  | Seq r1 r2 =>
      if nullable r1 then Alt (Seq (deriv c r1) r2) (deriv c r2)
      else Seq (deriv c r1) r2
  | Alt r1 r2 => Alt (deriv c r1) (deriv c r2)
  | Star r1 => Seq (deriv c r1) (Star r1)
  end.

(** [/^r$/.test(s)]: the whole of [s] matches [r]. *)
Fixpoint test (r : regex) (s : string) : bool :=
  match s with
  | EmptyString => nullable r
  | String c s' => test (deriv c r) s'
  end.

Inductive Matches : regex -> string -> Prop :=
| MEps : Matches Eps EmptyString
| MClass p c : p c = true -> Matches (Class p) (String c EmptyString)
| MSeq r1 r2 s1 s2 :
    Matches r1 s1 -> Matches r2 s2 -> Matches (Seq r1 r2) (s1 +:+ s2)
| MAltL r1 r2 s : Matches r1 s -> Matches (Alt r1 r2) s
| MAltR r1 r2 s : Matches r2 s -> Matches (Alt r1 r2) s
| MStarNil r : Matches (Star r) EmptyString
| MStarApp r s1 s2 :
    Matches r s1 -> Matches (Star r) s2 -> Matches (Star r) (s1 +:+ s2).

End RegExp.

(** ** POSIX [path.join] *)

Module Path.

(** [s.split('/')]. *)
Fixpoint split_slash (s : string) : list string :=
  match s with
  | EmptyString => [EmptyString]
  | String c s' =>
      if Ascii.eqb c "/" then EmptyString :: split_slash s'
      else match split_slash s' with
           | seg :: segs => String c seg :: segs
           | [] => [String c EmptyString]
           end
  end.

(** One step of [normalizeString]: [stack] holds the segments kept so
    far, the last one first. *)
Definition normalize_step (allowAboveRoot : bool)
    (stack : list string) (seg : string) : list string :=
  if String.eqb seg "" || String.eqb seg "." then stack
  else if String.eqb seg ".." then
    match stack with
    | top :: below =>
        if String.eqb top ".." then
          (if allowAboveRoot then seg :: stack else stack)
        else below
    | [] => if allowAboveRoot then [seg] else []
    end
  else seg :: stack.

Fixpoint join_slash (segs : list string) : string :=
  match segs with
  | [] => EmptyString
  | [seg] => seg
  | seg :: segs' => seg +:+ "/" +:+ join_slash segs'
  end.

Definition normalizeString (path : string) (allowAboveRoot : bool) : string :=
  join_slash (rev (fold_left (normalize_step allowAboveRoot) (split_slash path) [])).

Definition normalize (path : string) : string :=
  if String.eqb path "" then "."
  else
    let isAbsolute := Str.startsWith path "/" in
    let trailingSeparator := Str.endsWith path "/" in
    let path' := normalizeString path (negb isAbsolute) in
    if String.eqb path' "" then
      (if isAbsolute then "/" else if trailingSeparator then "./" else ".")
    else
      let path'' := if trailingSeparator then path' +:+ "/" else path' in
      if isAbsolute then "/" +:+ path'' else path''.

(** [path.join(a, b)]. *)
Definition join (a b : string) : string :=
  match String.eqb a "", String.eqb b "" with
  | true, true => "."
  | true, false => normalize b
  | false, true => normalize a
  | false, false => normalize (a +:+ "/" +:+ b)
  end.

End Path.

(** ** URL normalisation and validation *)

(** [url.replace(/\/$/, '')]: without the [m] flag [$] is the end of the
    input, so the only possible match is a [/] that is the last character. *)
Fixpoint removeTrailingSlash (url : string) : string :=
  match url with
  | EmptyString => EmptyString
  | String c rest =>
      if Ascii.eqb c "/" && String.eqb rest "" then EmptyString
      else String c (removeTrailingSlash rest)
  end.

(** [/^(https?):\/\/[^\s/$.?#].[^\s]*$/i] *)
Definition urlPattern : RegExp.regex :=
  RegExp.Seq (RegExp.lit_i "http")
    (RegExp.Seq (RegExp.Opt (RegExp.chr_i "s"))
      (RegExp.Seq (RegExp.lit "://")
        (RegExp.Seq
          (RegExp.Class (fun a => negb (Str.is_space a || Str.one_of "/$.?#" a)))
          (RegExp.Seq RegExp.Dot
            (RegExp.Star (RegExp.Class (fun a => negb (Str.is_space a)))))))).

Definition isValidUrl (url : string) : bool := RegExp.test urlPattern url.

(** [url.replace(/^https?:\/\//, '')] *)
Definition strip_scheme (url : string) : string :=
  match Str.strip_prefix "https://" url with
  | Some rest => rest
  | None =>
      match Str.strip_prefix "http://" url with
      | Some rest => rest
      | None => url
      end
  end.

Definition urlToFilename (url : string) : string :=
  let filename := strip_scheme url in
  let filename := Str.replace_class (Str.one_of "/&?") "_" filename in
  filename +:+ ".html".

Definition urlToSiteBaseUrl (url : string) : string :=
  let dirname := strip_scheme url in
  Str.replace_class (Str.one_of "/&?.:=$") "_" dirname.

(** ** The DOM that cheerio builds *)

Module Dom.

(** A node is an element or a node without attributes and children (text,
    comment, doctype), kept as its text. *)
Inductive Node : Type :=
| Text (data : string) : Node
| Element (name : string) (attribs : gmap string string) (children : list Node) : Node.

(** The document that [cheerio.load] returns, as the list of the children
    of its root. *)
Abbreviation Document := (list Node).

(** The selectors of the program: ['img'] and ['a'] select by tag name,
    ['script[src]'] needs the attribute to be present and
    ['link[rel="stylesheet"]'] needs it to hold the value written in the
    selector. *)
Inductive Selector : Type :=
| Tag (name : string) : Selector
| TagHasAttr (name attr : string) : Selector
| TagAttrEquals (name attr value : string) : Selector.

(** The attributes whose values css-select compares without regard to
    letter case in an HTML document. *)
Definition caseInsensitiveAttributes : list string :=
  ["accept"; "accept-charset"; "align"; "alink"; "axis"; "bgcolor"; "charset";
   "checked"; "clear"; "codetype"; "color"; "compact"; "declare"; "defer"; "dir";
   "direction"; "disabled"; "enctype"; "face"; "frame"; "hreflang"; "http-equiv";
   "lang"; "language"; "link"; "media"; "method"; "multiple"; "nohref"; "noresize";
   "noshade"; "nowrap"; "readonly"; "rel"; "rev"; "rules"; "scope"; "scrolling";
   "selected"; "shape"; "target"; "text"; "type"; "valign"; "valuetype"; "vlink"].

Definition shouldIgnoreCase (attr : string) : bool :=
  existsb (String.eqb attr) caseInsensitiveAttributes.

(** The rule [equals] of css-select for [[attr="value"]]: for an attribute
    of the list above, [attr.length === value.length &&
    attr.toLowerCase() === value.toLowerCase()]. *)
Definition attribute_equals (attr value : string) (attribs : gmap string string) : bool :=
  match attribs !! attr with
  | Some x =>
      if shouldIgnoreCase attr then
        Nat.eqb (String.length x) (String.length value)
        && String.eqb (Str.toLowerCase x) (Str.toLowerCase value)
      else String.eqb x value
  | None => false
  end.

Definition matches (sel : Selector) (name : string) (attribs : gmap string string) : bool :=
  match sel with
  | Tag n => String.eqb name n
  | TagHasAttr n a => String.eqb name n && bool_decide (is_Some (attribs !! a))
  | TagAttrEquals n a v => String.eqb name n && attribute_equals a v attribs
  end.

(** [$(selector)]: the attributes of the matching elements, in document
    order. *)
Fixpoint select_node (sel : Selector) (n : Node) : list (gmap string string) :=
  match n with
  | Text _ => []
  | Element name attribs children =>
      (if matches sel name attribs then [attribs] else [])
        ++ flat_map (select_node sel) children
  end.

Definition select (sel : Selector) (doc : Document) : list (gmap string string) :=
  flat_map (select_node sel) doc.

(** [$(selector).each(f)] for an [f] that updates the attributes of the
    element it is given. *)
Fixpoint each_node (sel : Selector)
    (f : gmap string string -> gmap string string) (n : Node) : Node :=
  match n with
  | Text data => Text data
  | Element name attribs children =>
      Element name (if matches sel name attribs then f attribs else attribs)
        (map (each_node sel f) children)
  end.

Definition each (sel : Selector)
    (f : gmap string string -> gmap string string) (doc : Document) : Document :=
  map (each_node sel f) doc.

End Dom.

(** ** Scanner and rewriter *)

Definition IMAGE_SELECTOR : Dom.Selector := Dom.Tag "img".
Definition CSS_SELECTOR : Dom.Selector := Dom.TagAttrEquals "link" "rel" "stylesheet".
Definition JS_SELECTOR : Dom.Selector := Dom.TagHasAttr "script" "src".

Definition countTagsInHtml (doc : Dom.Document) (tagName : string) : Z :=
  Z.of_nat (length (Dom.select (Dom.Tag tagName) doc)).

(** cheerio's [map] leaves out the elements for which the callback returns
    [undefined], here the elements without the attribute. *)
Definition listImagesInHtml (doc : Dom.Document) : list string :=
  omap (fun attribs : gmap string string => attribs !! "src") (Dom.select IMAGE_SELECTOR doc).

Definition listCssFilesInHtml (doc : Dom.Document) : list string :=
  omap (fun attribs : gmap string string => attribs !! "href") (Dom.select CSS_SELECTOR doc).

Definition listJsFilesInHtml (doc : Dom.Document) : list string :=
  omap (fun attribs : gmap string string => attribs !! "src") (Dom.select JS_SELECTOR doc).

(** [file.length > 0 && !/[;:,]/.test(file)] *)
Definition validFilename (file : string) : bool :=
  negb (String.eqb file "") && negb (Str.exists_chars (Str.one_of ";:,") file).

(** The candidate references of [downloadFilesInHtml] and the ones it keeps. *)
Definition candidateFiles (doc : Dom.Document) : list string :=
  listImagesInHtml doc ++ listCssFilesInHtml doc ++ listJsFilesInHtml doc.

Definition validFiles (doc : Dom.Document) : list string :=
  List.filter validFilename (candidateFiles doc).

(** [modifyPath(element, attributeName)], on the attributes of the element. *)
Definition modifyPath (siteDir attributeName : string)
    (attribs : gmap string string) : gmap string string :=
  match attribs !! attributeName with
  | Some attributeValue =>
      if negb (String.eqb attributeValue "") && negb (Str.startsWith attributeValue "http")
      then <[attributeName := Path.join siteDir attributeValue]> attribs
      else attribs
  | None => attribs
  end.

(** The body of [modifyHtmlContent] between [cheerio.load] and [$.html()]. *)
Definition modifyDocument (siteDir : string) (doc : Dom.Document) : Dom.Document :=
  let doc := Dom.each IMAGE_SELECTOR (modifyPath siteDir "src") doc in
  let doc := Dom.each CSS_SELECTOR (modifyPath siteDir "href") doc in
  Dom.each JS_SELECTOR (modifyPath siteDir "src") doc.

(** What [modifyPath] does to one reference. *)
Definition modifyReference (siteDir reference : string) : string :=
  if negb (String.eqb reference "") && negb (Str.startsWith reference "http")
  then Path.join siteDir reference
  else reference.

(** The rewriting of one reference as the specification words it: a
    reference that starts with [http] stays, any other reference [r]
    becomes [join(d, r)]. *)
Definition spec_rewrite_reference (siteDir reference : string) : string :=
  if Str.startsWith reference "http" then reference
  else Path.join siteDir reference.

(** The URL pattern as the specification words it: scheme [http] or
    [https], a non-empty host, no embedded whitespace. *)
Definition spec_host (rest : string) : string :=
  (fix go (s : string) : string :=
     match s with
     | EmptyString => EmptyString
     | String c s' => if Str.one_of "/?#" c then EmptyString else String c (go s')
     end) rest.

Definition spec_valid_url (u : string) : bool :=
  let rest :=
    match Str.strip_prefix "https://" (Str.lower u) with
    | Some rest => Some rest
    | None => Str.strip_prefix "http://" (Str.lower u)
    end in
  match rest with
  | Some rest => negb (String.eqb (spec_host rest) "") && negb (Str.exists_chars Str.is_space u)
  | None => false
  end.

(** ** Numbers *)

Module Number.

(** The double nearest to an integer, ties to the even significand: the
    53 leading bits of the integer are kept. *)
Definition round (z : Z) : Z :=
  let a := Z.abs z in
  let e := Z.log2 a - 52 in
  if e <=? 0 then z
  else
    let q := Z.shiftr a e in
    let r := Z.land a (Z.ones e) in
    let half := Z.shiftl 1 (e - 1) in
    let q' :=
      if r <? half then q
      else if half <? r then q + 1
      else if Z.even q then q else q + 1 in
    Z.sgn z * Z.shiftl q' e.

(** [a + b] *)
Definition add (a b : Z) : Z := round (a + b).

(** [Number.isSafeInteger] *)
Definition isSafeInteger (z : Z) : Prop := - 2 ^ 53 < z < 2 ^ 53.

End Number.

(** ** JavaScript maps *)

Module JsMap.

(** A [Map<string, V>]: its entries in the order of their insertion. *)
Record t (V : Type) : Type := Map { entries : list (string * V) }.

Arguments Map {V}.
Arguments entries {V}.

Fixpoint get_entries {V : Type} (k : string) (l : list (string * V)) : option V :=
  match l with
  | [] => None
  | (k', v) :: l' => if String.eqb k' k then Some v else get_entries k l'
  end.

(** [map.set(k, v)]: the entry of a key the map holds keeps its place. *)
Fixpoint set_entries {V : Type} (k : string) (v : V) (l : list (string * V))
    : list (string * V) :=
  match l with
  | [] => [(k, v)]
  | (k', v') :: l' =>
      if String.eqb k' k then (k', v) :: l' else (k', v') :: set_entries k v l'
  end.

Definition get {V : Type} (k : string) (m : t V) : option V := get_entries k (entries m).
Definition set {V : Type} (k : string) (v : V) (m : t V) : t V :=
  Map (set_entries k v (entries m)).

(** [[...map.keys()]] and [[...map.values()]] *)
Definition keys {V : Type} (m : t V) : list string := (entries m).*1.
Definition values {V : Type} (m : t V) : list V := (entries m).*2.

#[global] Instance lookup {V : Type} : Lookup string V (t V) := get.
#[global] Instance insert {V : Type} : Insert string V (t V) := set.
#[global] Instance empty {V : Type} : Empty (t V) := Map [].

End JsMap.

(** ** The metadata ledger *)

Record MetaData : Type := {
  url : string;
  num_links : Z;
  num_images : Z;
  last_fetch : Z;   (* the time of the fetch, in milliseconds *)
  num_fetches : Z;
}.

Definition APP_ROOT_PATH : string := "fetch-site-cli".
Definition META_FILE : string := "meta.json".

(** The array that [writeMetaFile] serialises, [[...META_DB.values()]]: the
    entries in the order of their insertion. *)
Definition metaFileContents (META_DB : JsMap.t MetaData) : list MetaData :=
  JsMap.values META_DB.

(** No key occurs twice, and every entry is stored under its own URL. *)
Definition keyed (db : JsMap.t MetaData) : Prop :=
  NoDup (JsMap.keys db) /\ forall k m, db !! k = Some m -> url m = k.

(** ** Effects: errors, the trace of calls, and the world *)

Inductive Error : Type :=
| JsError (message : string) : Error
| AxiosError (response : option (Z * string)) (request : option string)
    (message : string) : Error.

Definition error_message (e : Error) : string :=
  match e with
  | JsError message => message
  | AxiosError _ _ message => message
  end.

Inductive Result (A : Type) : Type :=
| Ok (a : A) : Result A
| Throw (e : Error) : Result A.

Arguments Ok {A} a.
Arguments Throw {A} e.

Definition is_ok {A : Type} (r : Result A) : bool :=
  match r with Ok _ => true | Throw _ => false end.

(** The loop of [readMetaDataFile], [for (const meta of metaData)
    META_DB.set(meta.url, meta)], over the elements of the parsed array:
    [Ok meta] is an entry, [Throw e] an element for which reading
    [meta.url] throws [e], as [null] is.  It gives the map, and the error
    that stopped the loop if one did. *)
Fixpoint setAll (metaData : list (Result MetaData)) (META_DB : JsMap.t MetaData)
    : JsMap.t MetaData * option Error :=
  match metaData with
  | [] => (META_DB, None)
  | Ok meta :: metaData' => setAll metaData' (<[url meta := meta]> META_DB)
  | Throw e :: _ => (META_DB, Some e)
  end.

(** The [try] block of [readMetaDataFile], on what [JSON.parse] gives for
    the text of the file: it throws, or it gives an array.  The entries set
    before an error stay in the map. *)
Definition readMetaDataFile (json : Result (list (Result MetaData)))
    (META_DB : JsMap.t MetaData) : JsMap.t MetaData * option Error :=
  match json with
  | Ok metaData => setAll metaData META_DB
  | Throw e => (META_DB, Some e)
  end.

(** What is written to a file: a string or a buffer, or the JSON text of an
    array of entries. *)
Inductive Content : Type :=
| Data (s : string) : Content
| Json (entries : list MetaData) : Content.

Inductive Level : Type := info | error.

(** The calls the program makes to the outside, each with its outcome. *)
Inductive Event : Type :=
| Logged (level : Level) (message : string) : Event
| HttpGet (url : string) (ok : bool) : Event
| MkDir (path : string) (ok : bool) : Event
| FileWrite (path : string) (content : Content) (ok : bool) : Event.

Record World : Type := {
  META_DB : JsMap.t MetaData;
  trace : list Event;
}.

Definition add_event (e : Event) (w : World) : World :=
  {| META_DB := META_DB w; trace := trace w ++ [e] |}.

Definition set_META_DB (db : JsMap.t MetaData) (w : World) : World :=
  {| META_DB := db; trace := trace w |}.

(** The libraries and the environment.  What a call answers may depend on
    everything that happened before it, so the answers are functions of the
    world. *)
Record Platform : Type := {
  cheerio_load : string -> Dom.Document;
  cheerio_html : Dom.Document -> string;
  (** [new URL(url, base).href] and [new URL(url).pathname], which throw on
      an invalid URL *)
  URL_href : string -> string -> Result string;
  URL_pathname : string -> Result string;
  axios_get : World -> string -> Result string;
  fs_mkdir : World -> string -> Result unit;
  fs_writeFile : World -> string -> Content -> Result unit;
  Date_now : World -> Z;
  path_dirname : string -> string;
  (** the order in which the event loop resumes the waiting tasks of a
      [Promise.all]: the positions of the tasks to resume, one after the
      other *)
  schedule : World -> list nat;
}.

(** Computations that read and change the world and may throw. *)
Definition M (A : Type) : Type := World -> Result A * World.

Definition ret {A : Type} (a : A) : M A := fun w => (Ok a, w).

Definition bind {A B : Type} (m : M A) (k : A -> M B) : M B :=
  fun w =>
    match m w with
    | (Ok a, w') => k a w'
    | (Throw e, w') => (Throw e, w')
    end.

Definition throw {A : Type} (e : Error) : M A := fun w => (Throw e, w).

Definition try_catch {A : Type} (m : M A) (handler : Error -> M A) : M A :=
  fun w =>
    match m w with
    | (Ok a, w') => (Ok a, w')
    | (Throw e, w') => handler e w'
    end.

Definition lift {A : Type} (r : Result A) : M A := fun w => (r, w).

Declare Scope js_scope.
Delimit Scope js_scope with js.
Notation "x <- c1 ;; c2" := (bind c1 (fun x => c2))
  (at level 100, c1 at next level, right associativity) : js_scope.
Notation "c1 ;; c2" := (bind c1 (fun _ => c2))
  (at level 100, right associativity) : js_scope.

Fixpoint mapM {A B : Type} (f : A -> M B) (l : list A) : M (list B) :=
  match l with
  | [] => ret []
  | a :: l' => bind (f a) (fun b => bind (mapM f l') (fun bs => ret (b :: bs)))
  end.

(** ** Asynchronous functions and concurrent tasks

    An [async] function that the program only awaits in sequence is a
    computation in [M].  A function that runs inside the concurrent tasks
    of [downloadFiles] is an [Async]: called, it runs until its first
    [await] of an operation of the platform, and is then a [Thread] that
    waits; resumed, it sees the outcome of the operation and runs until its
    next [await].  Between two such awaits a task is not interrupted. *)

Inductive Thread (A : Type) : Type :=
| Finished (r : Result A) : Thread A
| Waiting (resume : World -> Thread A * World) : Thread A.

Arguments Finished {A} r.
Arguments Waiting {A} resume.

Definition Async (A : Type) : Type := World -> Thread A * World.

(** A synchronous step inside an asynchronous function. *)
Definition sync {A : Type} (m : M A) : Async A :=
  fun w => let '(r, w') := m w in (Finished r, w').

(** [await op(...)] for an operation of the platform: the function waits,
    and when it is resumed the operation has happened. *)
Definition await_op {A : Type} (m : M A) : Async A :=
  fun w => (Waiting (sync m), w).

Fixpoint thread_bind {A B : Type} (t : Thread A) (k : A -> Async B) : Async B :=
  match t with
  | Finished (Ok a) => k a
  | Finished (Throw e) => fun w => (Finished (Throw e), w)
  | Waiting resume =>
      fun w => (Waiting (fun w1 => let '(t', w2) := resume w1 in thread_bind t' k w2), w)
  end.

Definition async_bind {A B : Type} (a : Async A) (k : A -> Async B) : Async B :=
  fun w => let '(t, w') := a w in thread_bind t k w'.

Fixpoint thread_catch {A : Type} (t : Thread A) (handler : Error -> Async A) : Async A :=
  match t with
  | Finished (Ok a) => fun w => (Finished (Ok a), w)
  | Finished (Throw e) => handler e
  | Waiting resume =>
      fun w =>
        (Waiting (fun w1 => let '(t', w2) := resume w1 in thread_catch t' handler w2), w)
  end.

Definition async_try_catch {A : Type} (a : Async A) (handler : Error -> Async A) : Async A :=
  fun w => let '(t, w') := a w in thread_catch t handler w'.

Declare Scope async_scope.
Delimit Scope async_scope with async.
Notation "x <- c1 ;; c2" := (async_bind c1 (fun x => c2))
  (at level 100, c1 at next level, right associativity) : async_scope.
Notation "c1 ;; c2" := (async_bind c1 (fun _ => c2))
  (at level 100, right associativity) : async_scope.

(** A thread that nothing else interleaves with runs to its end. *)
Fixpoint finish {A : Type} (t : Thread A) (w : World) : Result A * World :=
  match t with
  | Finished r => (r, w)
  | Waiting resume => let '(t', w') := resume w in finish t' w'
  end.

(** [await f(...)] in sequential code, for an asynchronous function [f]. *)
Definition await {A : Type} (a : Async A) : M A :=
  fun w => let '(t, w') := a w in finish t w'.

(** The promises of [urls.map(async ...)]: each function is called in turn
    and runs until its first [await]. *)
Fixpoint start_all {A : Type} (tasks : list (Async A)) : M (list (Thread A)) :=
  match tasks with
  | [] => ret []
  | task :: tasks' =>
      fun w =>
        let '(t, w1) := task w in
        let '(ts, w2) := start_all tasks' w1 in
        (match ts with Ok ts' => Ok (t :: ts') | Throw e => Throw e end, w2)
  end.

(** The event loop resumes the task at position [i], if it is waiting. *)
Definition resume_at {A : Type} (i : nat) (threads : list (Thread A)) : M (list (Thread A)) :=
  fun w =>
    match threads !! i with
    | Some (Waiting resume) =>
        let '(t', w') := resume w in (Ok (<[i := t']> threads), w')
    | _ => (Ok threads, w)
    end.

Fixpoint run_schedule {A : Type} (order : list nat) (threads : list (Thread A))
    : M (list (Thread A)) :=
  match order with
  | [] => ret threads
  | i :: order' => bind (resume_at i threads) (run_schedule order')
  end.

(** The tasks that still wait after the schedule run to their ends. *)
Fixpoint finish_all {A : Type} (threads : list (Thread A)) : M (list (Result A)) :=
  match threads with
  | [] => ret []
  | t :: threads' =>
      fun w =>
        let '(r, w1) := finish t w in
        let '(rs, w2) := finish_all threads' w1 in
        (match rs with Ok rs' => Ok (r :: rs') | Throw e => Throw e end, w2)
  end.

(** [await Promise.all(promises)], once the promises are settled: it throws
    the error of the first rejected promise, if there is one. *)
Fixpoint Promise_all {A : Type} (settled : list (Result A)) : M (list A) :=
  match settled with
  | [] => ret []
  | Ok a :: settled' => bind (Promise_all settled') (fun l => ret (a :: l))
  | Throw e :: _ => throw e
  end.

(** ** The pipeline *)

Section Pipeline.

Context (P : Platform).
Local Open Scope js_scope.

Definition consoleLog (message : string) : M unit :=
  fun w => (Ok tt, add_event (Logged info message) w).

Definition consoleError (message : string) : M unit :=
  fun w => (Ok tt, add_event (Logged error message) w).

(** [await axios.get(url, ...)], giving [response.data]. *)
Definition axios_get_data (url : string) : M string :=
  fun w => let r := axios_get P w url in (r, add_event (HttpGet url (is_ok r)) w).

(** [await fs.mkdir(path, { recursive: true })] *)
Definition mkdir (path : string) : M unit :=
  fun w => let r := fs_mkdir P w path in (r, add_event (MkDir path (is_ok r)) w).

(** [await fs.writeFile(path, content)] *)
Definition fs_write (path : string) (content : Content) : M unit :=
  fun w =>
    let r := fs_writeFile P w path content in
    (r, add_event (FileWrite path content (is_ok r)) w).

Definition getAxiosErrorMessage (response : option (Z * string))
    (request : option string) (message : string) : string :=
  match response with
  | Some (status, data) =>
      if status =? 404 then
        "Server responded with status code: " +:+ pretty status
          +:+ ", and no content was found."
      else
        "Server responded with status code: " +:+ pretty status
          +:+ ", and data: " +:+ data
  | None =>
      match request with
      | Some currentUrl => currentUrl +:+ " is invalid URL."
      | None => "Error creating request:' " +:+ message
      end
  end.

Definition fetchData (url : string) : M string :=
  try_catch
    (if negb (isValidUrl url) then throw (JsError (url +:+ " is invalid URL."))
     else
       content <- axios_get_data url ;;
       consoleLog ("Content fetched from " +:+ url +:+ " successfully.") ;;
       ret content)
    (fun err =>
       match err with
       | AxiosError response request message =>
           throw (JsError (getAxiosErrorMessage response request message))
       | JsError _ => throw err
       end).

Definition safeWriteFile (filePath : string) (content : Content) : Async unit :=
  let directoryPath := path_dirname P filePath in
  (await_op (mkdir directoryPath) ;;
   await_op (fs_write filePath content))%async.

Definition writeFile (content : string) (filename : string) : M unit :=
  await (safeWriteFile filename (Data content)) ;;
  consoleLog ("Data written to " +:+ filename +:+ " successfully.").

Definition createSiteDirectory (appPath url : string) : M string :=
  let dirname := strip_scheme url in
  let dirname := Str.replace_class (Str.one_of "/&?.:=$") "_" dirname in
  let dirname := Path.join appPath dirname in
  mkdir dirname ;;
  ret dirname.

Definition writeMetaFile : M unit :=
  fun w =>
    let filePath := Path.join APP_ROOT_PATH META_FILE in
    fs_write filePath (Json (metaFileContents (META_DB w))) w.

Definition countFilesInHtml (htmlContent : string) : Z * Z :=
  let doc := cheerio_load P htmlContent in
  let linkCount := countTagsInHtml doc "a" in
  let imageCount := countTagsInHtml doc "img" in
  (linkCount, imageCount).

(** [createMetaData(url, contentHtml)]; the map it reads and the time
    [new Date()] gives are arguments. *)
Definition createMetaData (db : JsMap.t MetaData) (now : Z)
    (url contentHtml : string) : MetaData :=
  let '(linkCount, imageCount) := countFilesInHtml contentHtml in
  let prevFetches := from_option num_fetches 0 (db !! url) in
  {| url := url;
     num_links := linkCount;
     num_images := imageCount;
     last_fetch := now;
     num_fetches := Number.add prevFetches 1 |}.

Definition updateMetaData (url contentHtml : string) : M unit :=
  fun w =>
    let updatedMetaData := createMetaData (META_DB w) (Date_now P w) url contentHtml in
    writeMetaFile (set_META_DB (<[url := updatedMetaData]> (META_DB w)) w).

(** The task of [downloadFiles] for the URL at [index]. *)
Definition downloadTask (directoryPath : string) (index : nat) (url : string) : Async unit :=
  async_try_catch
    (sync (consoleLog ("Downloading: " +:+ url)) ;;
     filename <- sync (lift (URL_pathname P url)) ;;
     let filePath := Path.join directoryPath filename in
     data <- await_op (axios_get_data url) ;;
     safeWriteFile filePath (Data data) ;;
     sync (consoleLog ("File #" +:+ pretty (S index) +:+ " downloaded successfully.")))%async
    (fun err =>
       sync (consoleError ("Error downloading file " +:+ pretty (S index) +:+ ": " +:+ url)) ;;
       sync (consoleError ("  Details: " +:+ error_message err)))%async.

(** The tasks are started in the order of the list; the event loop then
    resumes them in the order the platform gives; [Promise.all] is settled
    when every task has run to its end. *)
Definition downloadFiles (urls : list string) (directoryPath : string) : M unit :=
  fun w =>
    (promises <- start_all (imap (downloadTask directoryPath) urls) ;;
     promises <- run_schedule (schedule P w) promises ;;
     settled <- finish_all promises ;;
     Promise_all settled ;;
     ret tt) w.

Definition downloadFilesInHtml (baseUrl contentHtml siteDir : string) : M unit :=
  let doc := cheerio_load P contentHtml in
  let validFiles := validFiles doc in
  files <- mapM (fun url => lift (URL_href P url baseUrl)) validFiles ;;
  downloadFiles files siteDir.

Definition modifyHtmlContent (htmlContent siteDir : string) : string :=
  cheerio_html P (modifyDocument siteDir (cheerio_load P htmlContent)).

Definition refetchDataFromUrl (appPath url : string) : M unit :=
  try_catch
    (consoleLog ("Fetching " +:+ url +:+ " ...") ;;
     contentHtml <- fetchData url ;;
     sitePath <- createSiteDirectory appPath url ;;
     let filename := urlToFilename url in
     let filePath := Path.join appPath filename in
     let siteBaseUrl := urlToSiteBaseUrl url in
     let modifiedContentHtml := modifyHtmlContent contentHtml siteBaseUrl in
     writeFile modifiedContentHtml filePath ;;
     downloadFilesInHtml url contentHtml sitePath ;;
     updateMetaData url contentHtml)
    (fun err => consoleError (error_message err)).

(** The steps of [refetchDataFromUrl] up to the writing of the page file:
    validation, the fetch of the page, the site directory, the page
    file.  It gives the page and the site directory. *)
Definition pageStage (appPath url : string) : M (string * string) :=
  consoleLog ("Fetching " +:+ url +:+ " ...") ;;
  contentHtml <- fetchData url ;;
  sitePath <- createSiteDirectory appPath url ;;
  let filename := urlToFilename url in
  let filePath := Path.join appPath filename in
  let siteBaseUrl := urlToSiteBaseUrl url in
  let modifiedContentHtml := modifyHtmlContent contentHtml siteBaseUrl in
  writeFile modifiedContentHtml filePath ;;
  ret (contentHtml, sitePath).

(** The body of the loop of [main] for a URL to mirror. *)
Definition mirror (appPath requestUrl : string) : M unit :=
  let url := removeTrailingSlash requestUrl in
  refetchDataFromUrl appPath url.

(** One successful mirror of [url], as the ledger sees it. *)
Definition recordFetch (db : JsMap.t MetaData) (now : Z)
    (url contentHtml : string) : JsMap.t MetaData :=
  <[url := createMetaData db now url contentHtml]> db.

(** The ledgers the program reaches: it starts without a metadata file,
    every successful mirror records a fetch, and a new run of the program
    loads the file the last run wrote. *)
Inductive reachable : JsMap.t MetaData -> Prop :=
| reach_fresh : reachable ∅
| reach_mirror db now url contentHtml :
    reachable db -> reachable (recordFetch db now url contentHtml)
| reach_restart db :
    reachable db -> reachable (readMetaDataFile (Ok (Ok <$> metaFileContents db)) ∅).1.

(** A sequence of successful mirrors, each with its time, URL and page. *)
Definition recordFetches (db : JsMap.t MetaData)
    (fetches : list (Z * string * string)) : JsMap.t MetaData :=
  foldl (fun db '(now, url, contentHtml) => recordFetch db now url contentHtml) db fetches.


End Pipeline.

(** Events that are not requests, and requests for the URLs in [allowed]. *)
Definition only_gets (allowed : string -> Prop) (e : Event) : Prop :=
  match e with
  | HttpGet u _ => allowed u
  | _ => True
  end.

(** [quiet Q m]: whatever [m] answers, it leaves [META_DB] as it is and
    only adds events that satisfy [Q] to the trace. *)
Definition quiet {A : Type} (Q : Event -> Prop) (m : M A) : Prop :=
  forall w r w', m w = (r, w') ->
    META_DB w' = META_DB w /\ exists new, trace w' = trace w ++ new /\ Forall Q new.

(** A step of a task: the world in which the task was resumed, and the
    events it added before its next [await] or its end. *)
Definition Step : Type := World * list Event.

Definition step_events (steps : list Step) : list Event := flat_map snd steps.

(** [thread_steps allowed Post t]: however the thread [t] is resumed, each
    of its steps leaves [META_DB] as it is and only adds events that
    satisfy [allowed]; and when it has finished with the result [r], having
    made the steps [steps], [Post r steps] holds. *)
Fixpoint thread_steps {A : Type} (allowed : Event -> Prop)
    (Post : Result A -> list Step -> Prop) (t : Thread A) : Prop :=
  match t with
  | Finished r => Post r []
  | Waiting resume =>
      forall w,
        let '(t', w') := resume w in
        META_DB w' = META_DB w
        /\ exists new,
            trace w' = trace w ++ new /\ Forall allowed new
            /\ thread_steps allowed (fun r rest => Post r ((w, new) :: rest)) t'
  end.

(** The same for an asynchronous function, from its call on. *)
Definition async_steps {A : Type} (allowed : Event -> Prop)
    (Post : Result A -> list Step -> Prop) (a : Async A) : Prop :=
  thread_steps allowed Post (Waiting a).

(** [run_steps db before new steps]: in a run that started with the ledger
    [db] and the trace [before] and that added the events [new], the task
    made the steps [steps], one after the other: the events of a step are
    a segment of [new], and the step was made in the world that holds the
    events before that segment. *)
Inductive run_steps (db : JsMap.t MetaData) (before : list Event)
    : list Event -> list Step -> Prop :=
| run_steps_nil new : run_steps db before new []
| run_steps_cons others own rest steps :
    run_steps db (before ++ others ++ own) rest steps ->
    run_steps db before (others ++ own ++ rest)
      (({| META_DB := db; trace := before ++ others |}, own) :: steps).

(** The tasks of a [Promise.all] in a run that started with the ledger
    [db] and the trace [before] and has added the events [new]: the task at
    position [i] has made some steps of the run, and when it has finished
    it has fulfilled its promise and [Post i] holds of all its steps. *)
Definition pool_steps (allowed : Event -> Prop) (Post : nat -> list Step -> Prop)
    (db : JsMap.t MetaData) (before new : list Event)
    (threads : list (Thread unit)) : Prop :=
  forall i t, threads !! i = Some t ->
    exists done,
      run_steps db before new done
      /\ thread_steps allowed (fun r rest => r = Ok tt /\ Post i (done ++ rest)) t.

(** ** Example documents *)

Module Examples.

(** The document cheerio builds around the nodes of a page body. *)
Definition page (body : list Dom.Node) : Dom.Document :=
  [Dom.Element "html" ∅ [Dom.Element "head" ∅ []; Dom.Element "body" ∅ body]].

(** [<img src="...">] *)
Definition img (src : string) : Dom.Node :=
  Dom.Element "img" {[ "src" := src ]} [].

(** [<link rel="stylesheet" href="...">] *)
Definition stylesheet (href : string) : Dom.Node :=
  Dom.Element "link" {[ "rel" := "stylesheet"; "href" := href ]} [].

(** [<script src="..."></script>] *)
Definition script (src : string) : Dom.Node :=
  Dom.Element "script" {[ "src" := src ]} [].

(** [<a href="...">text</a>] *)
Definition anchor (href text : string) : Dom.Node :=
  Dom.Element "a" {[ "href" := href ]} [Dom.Text text].

(** A site with the page [https://example.com] and its three resources;
    the requests for the URLs in [down] fail, everything else works. *)
Definition site (down : list string) : Platform := {|
  cheerio_load := fun _ => page [img "/a.png"; stylesheet "/b.css"; script "/c.js"];
  cheerio_html := fun doc =>
    String.concat "," (listImagesInHtml doc ++ listCssFilesInHtml doc ++ listJsFilesInHtml doc);
  URL_href := fun u base => Ok (base +:+ u);
  URL_pathname := fun u =>
    match Str.strip_prefix "https://example.com" u with
    | Some pathname => Ok pathname
    | None => Throw (JsError "Invalid URL")
    end;
  axios_get := fun _ u =>
    if existsb (String.eqb u) down
    then Throw (AxiosError None (Some u) "Network Error")
    else Ok "content";
  fs_mkdir := fun _ _ => Ok tt;
  fs_writeFile := fun _ _ _ => Ok tt;
  Date_now := fun w => 1000 * Z.of_nat (length (trace w));
  path_dirname := fun path => Path.join path "..";
  schedule := fun _ => [2; 0; 2; 1; 0]%nat;
|}.

Definition start : World := {| META_DB := ∅; trace := [] |}.

Definition all_up : Platform := site [].
Definition page_down : Platform := site ["https://example.com"].

Definition appPath : string := "/app/fetch-site-cli".
Definition siteDir : string := "/app/fetch-site-cli/example_com".

(** The world after the page stage of a mirror of [https://example.com]. *)
Definition page_written (P : Platform) : World :=
  (pageStage P appPath "https://example.com" start).2.

Definition empty_src : Dom.Document := page [img ""].
Definition relative_src : Dom.Document := page [img "a.png"].
Definition mixed_srcs : Dom.Document :=
  page [img "/a.png"; img "https://cdn.example/x.png"; img "data:image/png;base64,AAAA"].

(** The text of a page with one image, as cheerio serialises it; and a
    platform for such pages: [cheerio.load] gives the document with the
    image that the text names, [$.html()] the text of a document with one
    image. *)
Definition quote : string := String (ascii_of_nat 34) "".

Definition image_page (src : string) : string :=
  "<html><head></head><body><img src=" +:+ quote +:+ src +:+ quote +:+ "></body></html>".

Fixpoint until_quote (s : string) : string :=
  match s with
  | EmptyString => EmptyString
  | String c s' => if Ascii.eqb c (ascii_of_nat 34) then EmptyString
                   else String c (until_quote s')
  end.

Definition image_pages : Platform := {|
  cheerio_load := fun text =>
    match Str.strip_prefix ("<html><head></head><body><img src=" +:+ quote) text with
    | Some rest => page [img (until_quote rest)]
    | None => page []
    end;
  cheerio_html := fun doc =>
    match listImagesInHtml doc with
    | [src] => image_page src
    | _ => "<html><head></head><body></body></html>"
    end;
  URL_href := URL_href all_up;
  URL_pathname := URL_pathname all_up;
  axios_get := axios_get all_up;
  fs_mkdir := fs_mkdir all_up;
  fs_writeFile := fs_writeFile all_up;
  Date_now := Date_now all_up;
  path_dirname := path_dirname all_up;
  schedule := schedule all_up;
|}.

(** [<link rel="STYLESHEET" href="/b.css">] and an image. *)
Definition stylesheet_in_capitals : Dom.Document :=
  page [Dom.Element "link" {[ "rel" := "STYLESHEET"; "href" := "/b.css" ]} [];
        Dom.Element "link" {[ "rel" := "icon"; "href" := "/favicon.ico" ]} [];
        img "/a.png"].

(** The ledger after two mirrors of the page and a new run of the program. *)
Definition mirrored_twice : JsMap.t MetaData :=
  recordFetch all_up (recordFetch all_up ∅ 1000 "https://example.com" "content")
    2000 "https://example.com" "content".
Definition reloaded : JsMap.t MetaData :=
  (readMetaDataFile (Ok (Ok <$> metaFileContents mirrored_twice)) ∅).1.

End Examples.

(** ** The command line: bootstrap, query mode and the loop of [main] *)

(** What [main] reads from its host: the working directory, whether a file
    exists, the text of a file, [JSON.parse] (which throws on a text that
    has no JSON value or whose value cannot be iterated; an element of the
    array it gives is an entry, or a value whose [url] cannot be read) and
    the text of a date. *)
Record Host : Type := {
  process_cwd : string;
  fs_existsSync : World -> string -> bool;
  fs_readFile : World -> string -> Result string;
  JSON_parse : string -> Result (list (Result MetaData));
  Date_toString : Z -> string;
}.

Module Cli.

Definition toLowerCase (s : string) : string := Str.toLowerCase s.

(** [process.argv.filter(Boolean).slice(2)] *)
Definition arguments (argv : list string) : list string :=
  drop 2 (List.filter (fun arg => negb (String.eqb arg "")) argv).

(** [for (const x of l) { await f(x) }] *)
Fixpoint forEach {A : Type} (f : A -> M unit) (l : list A) : M unit :=
  match l with
  | [] => ret tt
  | a :: l' => bind (f a) (fun _ => forEach f l')
  end.

(** The [try] block of [readMetaDataFile], on the parsed text. *)
Abbreviation setEntries := readMetaDataFile.

Section Main.

Context (P : Platform) (H : Host).
Local Open Scope js_scope.

Definition displayMetaData (url : string) : M unit :=
  fun w =>
    match META_DB w !! url with
    | None => consoleError ("Metadata for " +:+ url +:+ " not found.") w
    | Some metaData =>
        (consoleLog ("Metadata for " +:+ url) ;;
         consoleLog ("  Number of links: " +:+ pretty (num_links metaData)) ;;
         consoleLog ("  Number of images: " +:+ pretty (num_images metaData)) ;;
         consoleLog ("  Number of fetches: " +:+ pretty (num_fetches metaData)) ;;
         consoleLog ("  Last fetch: " +:+ Date_toString H (last_fetch metaData))) w
    end.

Definition createAppDirectory (appRoot : string) : M string :=
  let appPath := Path.join (process_cwd H) appRoot in
  mkdir P appPath ;;
  ret appPath.

(** [readMetaDataFile()].  The write of the empty array for a missing file
    is not awaited: the program does not see its outcome, and what the
    read that follows finds is up to the host.  [JSON.parse] and the loop
    over the array are in one [try] block: the entries set before an error
    stay in the map, and the error is logged. *)
Definition readMetaDataFile : M unit :=
  fun w =>
    let filePath := Path.join APP_ROOT_PATH META_FILE in
    let w1 :=
      if fs_existsSync H w filePath then w
      else (fs_write P filePath (Json []) w).2 in
    match fs_readFile H w1 filePath with
    | Throw e => (Throw e, w1)
    | Ok json =>
        let '(db, stopped) := setEntries (JSON_parse H json) (META_DB w1) in
        match stopped with
        | None => (Ok tt, set_META_DB db w1)
        | Some e =>
            consoleLog ("Reading metadata file error: " +:+ error_message e)
              (set_META_DB db w1)
        end
    end.

(** The loop of [main] over the requested URLs. *)
Definition processUrls (queryMetaData : bool) (appPath : string)
    (requestUrls : list string) : M unit :=
  forEach
    (fun requestUrl =>
       let url := removeTrailingSlash requestUrl in
       if queryMetaData then displayMetaData url
       else refetchDataFromUrl P appPath url)
    requestUrls.

Definition main (args : list string) : M unit :=
  match args with
  | [] => consoleLog "Usage: node dist/fetch.js <url1> <url2> <url3> <and so on ...>"
  | arg0 :: _ =>
      appPath <- createAppDirectory APP_ROOT_PATH ;;
      readMetaDataFile ;;
      let queryMetaData :=
        existsb (String.eqb (toLowerCase arg0)) ["--metadata"; "-m"] in
      let argsOffset := if queryMetaData then 1%nat else 0%nat in
      let requestUrls := drop argsOffset args in
      processUrls queryMetaData appPath requestUrls
  end.

End Main.

End Cli.

(** ** What a run may touch *)

(** A path segment that names an entry of a directory: not empty, without
    [/], and neither [.] nor [..]. *)
Definition clean_segment (seg : string) : Prop :=
  seg <> "" /\ Str.includes seg "/" = false /\ seg <> "." /\ seg <> "..".

(** An absolute path in normal form below the root: [/s1/s2/.../sn] with
    clean segments and [n] at least one. *)
Definition clean_directory (path : string) : Prop :=
  exists segs, segs <> [] /\ Forall clean_segment segs
               /\ path = "/" +:+ Path.join_slash segs.

(** [u] is what a kept reference of the page resolves to. *)
Definition page_resource (P : Platform) (url contentHtml u : string) : Prop :=
  exists ref,
    In ref (validFiles (cheerio_load P contentHtml)) /\ URL_href P ref url = Ok u.

(** The events of a task that downloads [u] into [directoryPath]: lines of
    the log, the request for [u], the directory of its file and its
    file. *)
Definition task_event (P : Platform) (directoryPath u : string) (e : Event) : Prop :=
  match e with
  | Logged _ _ => True
  | HttpGet u' _ => u' = u
  | MkDir path _ =>
      exists filename, URL_pathname P u = Ok filename
                       /\ path = path_dirname P (Path.join directoryPath filename)
  | FileWrite path _ _ =>
      exists filename, URL_pathname P u = Ok filename
                       /\ path = Path.join directoryPath filename
  end.

(** The events of a mirror of [url] under [appPath], [contentHtml] being
    the page: lines of the log; the request for the page; the site
    directory and the directory of the page file; the page file, with the
    rewritten page; the metadata file; and the events of the downloads of
    what the kept references of the page resolve to, into the site
    directory. *)
Definition mirror_event (P : Platform) (appPath url contentHtml : string)
    (e : Event) : Prop :=
  let sitePath := Path.join appPath (urlToSiteBaseUrl url) in
  let filePath := Path.join appPath (urlToFilename url) in
  match e with
  | Logged _ _ => True
  | HttpGet u _ => u = url \/ page_resource P url contentHtml u
  | MkDir path _ =>
      path = sitePath \/ path = path_dirname P filePath
      \/ exists u, page_resource P url contentHtml u /\ task_event P sitePath u e
  | FileWrite path content _ =>
      (path = filePath
       /\ content = Data (modifyHtmlContent P contentHtml (urlToSiteBaseUrl url)))
      \/ (path = Path.join APP_ROOT_PATH META_FILE /\ exists entries, content = Json entries)
      \/ exists u, page_resource P url contentHtml u /\ task_event P sitePath u e
  end.

(** The steps of a task that downloads [u] into [directoryPath], from its
    call to its end.  The task logs that it downloads; when the pathname
    of [u] cannot be read it fails in the same step.  Resumed, it has
    requested [u], in the world [w1]; resumed again after a response, it
    has made the directory of its file, in the world [w2]; resumed again
    after that, it has written the data of the response to its file, in
    the world [w3], and logs its success.  The first of these calls that
    fails ends the task, with the two lines of the failure in the same
    step. *)
Definition task_steps (P : Platform) (directoryPath : string) (index : nat)
    (u : string) (steps : list Step) : Prop :=
  let downloading := Logged info ("Downloading: " +:+ u) in
  let failed e :=
    [Logged error ("Error downloading file " +:+ pretty (S index) +:+ ": " +:+ u);
     Logged error ("  Details: " +:+ error_message e)] in
  let succeeded :=
    Logged info ("File #" +:+ pretty (S index) +:+ " downloaded successfully.") in
  (exists w0 e, URL_pathname P u = Throw e /\ steps = [(w0, downloading :: failed e)])
  \/ exists w0 w1 filename,
       URL_pathname P u = Ok filename
       /\ let filePath := Path.join directoryPath filename in
          let directory := path_dirname P filePath in
          (exists e,
             axios_get P w1 u = Throw e
             /\ steps = [(w0, [downloading]); (w1, HttpGet u false :: failed e)])
          \/ exists data w2,
               axios_get P w1 u = Ok data
               /\ ((exists e,
                      fs_mkdir P w2 directory = Throw e
                      /\ steps = [(w0, [downloading]); (w1, [HttpGet u true]);
                                  (w2, MkDir directory false :: failed e)])
                   \/ exists w3,
                        fs_mkdir P w2 directory = Ok tt
                        /\ ((exists e,
                               fs_writeFile P w3 filePath (Data data) = Throw e
                               /\ steps = [(w0, [downloading]); (w1, [HttpGet u true]);
                                           (w2, [MkDir directory true]);
                                           (w3, FileWrite filePath (Data data) false
                                                  :: failed e)])
                            \/ (fs_writeFile P w3 filePath (Data data) = Ok tt
                                /\ steps = [(w0, [downloading]); (w1, [HttpGet u true]);
                                            (w2, [MkDir directory true]);
                                            (w3, [FileWrite filePath (Data data) true;
                                                  succeeded])]))).

(** A segment that is not the empty string. *)
Definition not_empty (s : string) : bool := negb (String.eqb s "").

(** Events that are lines of the log. *)
Definition log_event (e : Event) : Prop :=
  match e with
  | Logged _ _ => True
  | _ => False
  end.

Definition is_request (e : Event) : bool :=
  match e with
  | HttpGet _ _ => true
  | _ => false
  end.

Definition is_error_line (e : Event) : bool :=
  match e with
  | Logged error _ => true
  | _ => false
  end.

(** The events of the bootstrap of [main]: the application directory and
    the empty metadata file. *)
Definition bootstrap_event (H : Host) (e : Event) : Prop :=
  match e with
  | MkDir path _ => path = Path.join (process_cwd H) APP_ROOT_PATH
  | FileWrite path content _ =>
      path = Path.join APP_ROOT_PATH META_FILE /\ content = Json []
  | _ => False
  end.

(** [emits Q R m]: whatever [m] answers, it only adds events that satisfy
    [Q] to the trace, and a value it returns satisfies [R]. *)
Definition emits {A : Type} (Q : Event -> Prop) (R : A -> Prop) (m : M A) : Prop :=
  forall w r w', m w = (r, w') ->
    (exists new, trace w' = trace w ++ new /\ Forall Q new)
    /\ forall a, r = Ok a -> R a.

(** The message of the error that [fetchData] throws for the error of the
    request. *)
Definition fetchData_message (e : Error) : string :=
  match e with
  | AxiosError response request message => getAxiosErrorMessage response request message
  | JsError message => message
  end.

(** The steps of [refetchDataFromUrl] after the fetch of the page. *)
Definition pageSteps (P : Platform) (appPath url contentHtml : string) : M unit :=
  bind (createSiteDirectory P appPath url) (fun sitePath =>
    let filename := urlToFilename url in
    let filePath := Path.join appPath filename in
    let siteBaseUrl := urlToSiteBaseUrl url in
    let modifiedContentHtml := modifyHtmlContent P contentHtml siteBaseUrl in
    bind (writeFile P modifiedContentHtml filePath) (fun _ =>
      bind (downloadFilesInHtml P url contentHtml sitePath) (fun _ =>
        updateMetaData P url contentHtml))).

(** The number of fetches the ledger holds for a URL, none when it has no
    entry. *)
Definition fetches (db : JsMap.t MetaData) (k : string) : Z :=
  from_option num_fetches 0 (db !! k).

(** ** More examples *)

Module MoreExamples.

(** A host in the directory [/app] whose metadata file holds the entries
    [stored]. *)
Definition host (stored : list MetaData) : Host := {|
  process_cwd := "/app";
  fs_existsSync := fun _ _ => true;
  fs_readFile := fun _ _ => Ok "[...]";
  JSON_parse := fun _ => Ok (Ok <$> stored);
  Date_toString := fun t => pretty t;
|}.

Definition example_com : MetaData :=
  {| url := "https://example.com"; num_links := 3; num_images := 1;
     last_fetch := 1000; num_fetches := 2 |}.

Definition example_com_before : MetaData :=
  {| url := "https://example.com"; num_links := 2; num_images := 0;
     last_fetch := 500; num_fetches := 1 |}.

(** The example site on a disk where the metadata file cannot be written. *)
Definition read_only_ledger : Platform := {|
  cheerio_load := cheerio_load Examples.all_up;
  cheerio_html := cheerio_html Examples.all_up;
  URL_href := URL_href Examples.all_up;
  URL_pathname := URL_pathname Examples.all_up;
  axios_get := axios_get Examples.all_up;
  fs_mkdir := fs_mkdir Examples.all_up;
  fs_writeFile := fun _ path _ =>
    if String.eqb path (Path.join APP_ROOT_PATH META_FILE)
    then Throw (JsError "EACCES: permission denied") else Ok tt;
  Date_now := Date_now Examples.all_up;
  path_dirname := path_dirname Examples.all_up;
  schedule := schedule Examples.all_up;
|}.

(** The example site with a page whose second reference is kept by the
    filter and does not resolve: [new URL('//', 'https://example.com')]
    throws, the host being empty. *)
Definition unresolved_reference : Platform := {|
  cheerio_load := fun _ =>
    Examples.page [Examples.img "/a.png"; Examples.stylesheet "//"; Examples.script "/c.js"];
  cheerio_html := cheerio_html Examples.all_up;
  URL_href := fun u base =>
    if String.eqb u "//" then Throw (JsError "Invalid URL") else Ok (base +:+ u);
  URL_pathname := URL_pathname Examples.all_up;
  axios_get := axios_get Examples.all_up;
  fs_mkdir := fs_mkdir Examples.all_up;
  fs_writeFile := fs_writeFile Examples.all_up;
  Date_now := Date_now Examples.all_up;
  path_dirname := path_dirname Examples.all_up;
  schedule := schedule Examples.all_up;
|}.

(** A world whose ledger holds an entry with the first number of fetches
    that is not a safe integer, [2 ^ 53]. *)
Definition counted_out : World :=
  {| META_DB :=
       <["https://example.com" :=
           {| url := "https://example.com"; num_links := 3; num_images := 1;
              last_fetch := 1000; num_fetches := 9007199254740992 |}]> ∅;
     trace := [] |}.

(** A host on the first run of the program: there is no metadata file,
    and the read comes before the write of the empty array has made one. *)
Definition first_run : Host := {|
  process_cwd := "/app";
  fs_existsSync := fun _ _ => false;
  fs_readFile := fun _ _ => Throw (JsError "ENOENT: no such file or directory");
  JSON_parse := fun _ => Ok [];
  Date_toString := fun t => pretty t;
|}.

(** A query, with the flag in mixed case and one URL of the two in the
    ledger. *)
Definition queried : Result unit * World :=
  Cli.main Examples.all_up (host [example_com])
    ["--MetaData"; "https://example.com/"; "https://example.org"] Examples.start.

(** The first run of the program, for one URL. *)
Definition first_run_result : Result unit * World :=
  Cli.main Examples.all_up first_run ["https://example.com"] Examples.start.

End MoreExamples.

(** ** Facts about strings *)

Section StringFacts.

Lemma str_app_nil_l (s : string) : "" +:+ s = s.
Proof. reflexivity. Qed.

Lemma str_app_cons (c : ascii) (s1 s2 : string) :
  String c s1 +:+ s2 = String c (s1 +:+ s2).
Proof. reflexivity. Qed.

Lemma str_app_nil_r (s : string) : s +:+ "" = s.
Proof. induction s as [|c s IH]; [reflexivity|]. rewrite str_app_cons, IH. reflexivity. Qed.

Lemma str_app_assoc (s1 s2 s3 : string) : (s1 +:+ s2) +:+ s3 = s1 +:+ (s2 +:+ s3).
Proof.
  induction s1 as [|c s1 IH]; [reflexivity|].
  rewrite !str_app_cons, IH. reflexivity.
Qed.

Lemma str_app_eq_nil (s1 s2 : string) : s1 +:+ s2 = "" -> s1 = "" /\ s2 = "".
Proof. destruct s1; [intros H; rewrite str_app_nil_l in H; auto | discriminate]. Qed.

Lemma str_app_eq_cons (s1 s2 s : string) (c : ascii) :
  s1 +:+ s2 = String c s ->
  (s1 = "" /\ s2 = String c s) \/ (exists s1', s1 = String c s1' /\ s = s1' +:+ s2).
Proof.
  destruct s1 as [|a s1]; [left; auto|].
  rewrite str_app_cons. intros H. injection H as -> <-. right. eauto.
Qed.

Lemma lower_app (s1 s2 : string) :
  Str.lower (s1 +:+ s2) = Str.lower s1 +:+ Str.lower s2.
Proof.
  induction s1 as [|c s1 IH]; [reflexivity|].
  rewrite str_app_cons. simpl. rewrite IH. reflexivity.
Qed.

Lemma string_eqb_eq (s1 s2 : string) : String.eqb s1 s2 = true <-> s1 = s2.
Proof. apply String.eqb_eq. Qed.

Lemma ascii_eqb_eq (a b : ascii) : Ascii.eqb a b = true <-> a = b.
Proof. apply Ascii.eqb_eq. Qed.

Lemma includes_app (s1 s2 : string) (c : ascii) :
  Str.includes (s1 +:+ s2) c = Str.includes s1 c || Str.includes s2 c.
Proof.
  induction s1 as [|a s1 IH]; [reflexivity|].
  rewrite str_app_cons. simpl. rewrite IH, orb_assoc. reflexivity.
Qed.

Lemma startsWith_spec (s p : string) :
  Str.startsWith s p = true <-> exists rest, s = p +:+ rest.
Proof.
  revert s. induction p as [|a p IH]; intros s.
  - split; [exists s; reflexivity | reflexivity].
  - destruct s as [|b s]; simpl.
    + split; [discriminate | intros [rest H]; discriminate].
    + destruct (Ascii.eqb a b) eqn:E; simpl.
      * apply ascii_eqb_eq in E as ->.
        rewrite IH. split; intros [rest H]; exists rest.
        -- rewrite str_app_cons, H. reflexivity.
        -- rewrite str_app_cons in H. congruence.
      * split; [discriminate|]. intros [rest H]. rewrite str_app_cons in H.
        injection H as -> _. rewrite Ascii.eqb_refl in E. discriminate.
Qed.

Lemma endsWith_spec (s q : string) :
  Str.endsWith s q = true <-> exists front, s = front +:+ q.
Proof.
  induction s as [|a s IH].
  - destruct q as [|b q]; simpl.
    + split; [exists ""; reflexivity | reflexivity].
    + split; [discriminate|]. intros [front H]. symmetry in H.
      apply str_app_eq_nil in H as [_ H]. discriminate.
  - change (Str.endsWith (String a s) q)
      with (if String.eqb (String a s) q then true else Str.endsWith s q).
    destruct (String.eqb (String a s) q) eqn:E.
    + apply string_eqb_eq in E as <-. split; [exists ""; reflexivity | reflexivity].
    + rewrite IH. split.
      * intros [front ->]. exists (String a front). reflexivity.
      * intros [front H]. destruct front as [|b front].
        -- rewrite str_app_nil_l in H. subst q. rewrite String.eqb_refl in E. discriminate.
        -- rewrite str_app_cons in H. injection H as -> ->. eauto.
Qed.

End StringFacts.

(** ** The matcher agrees with the semantics *)

Module RegExpFacts.
Import RegExp.

Lemma nullable_spec (r : regex) : nullable r = true <-> Matches r "".
Proof.
  split.
  - induction r; simpl; intros H; try discriminate.
    + constructor.
    + apply andb_true_iff in H as [H1 H2].
      change ""%string with ("" +:+ "")%string. constructor; auto.
    + apply orb_true_iff in H as [H|H]; [apply MAltL | apply MAltR]; auto.
    + constructor.
  - intros H. remember ""%string as s eqn:Hs.
    induction H; simpl; try reflexivity; try discriminate.
    + apply str_app_eq_nil in Hs as [-> ->]. rewrite IHMatches1, IHMatches2; auto.
    + rewrite IHMatches; auto.
    + rewrite IHMatches; auto using orb_true_r.
Qed.

Lemma star_cons_inv (r : regex) (c : ascii) (s : string) :
  Matches (Star r) (String c s) ->
  exists s1 s2, s = s1 +:+ s2 /\ Matches r (String c s1) /\ Matches (Star r) s2.
Proof.
  intros H. remember (Star r) as r' eqn:Hr. remember (String c s) as w eqn:Hw.
  revert s Hw.
  induction H; intros w Hw; try discriminate.
  injection Hr as ->.
  apply str_app_eq_cons in Hw as [[-> ->]|(s1' & -> & ->)].
  - apply IHMatches2; reflexivity.
  - eauto.
Qed.

Lemma deriv_spec (c : ascii) (r : regex) (s : string) :
  Matches (deriv c r) s <-> Matches r (String c s).
Proof.
  revert s. induction r as [| |p|r1 IH1 r2 IH2|r1 IH1 r2 IH2|r IH]; intros s; simpl.
  - split; inversion 1.
  - split; inversion 1.
  - destruct (p c) eqn:Hp; split; intros H; inversion H; subst.
    + constructor; assumption.
    + constructor.
    + congruence.
  - assert (Hseq : forall w, Matches (Seq (deriv c r1) r2) w ->
                             Matches (Seq r1 r2) (String c w)).
    { intros w H. inversion H; subst.
      rewrite <- str_app_cons. constructor; [apply IH1|]; assumption. }
    split.
    + destruct (nullable r1) eqn:Hn; intros H.
      * inversion H; subst; [auto|].
        change (String c s) with ("" +:+ String c s).
        constructor; [apply nullable_spec; assumption | apply IH2; assumption].
      * auto.
    + intros H. inversion H as [| |? ? s1 s2 H1 H2 [E1 E2] E3| | | |]; subst.
      apply str_app_eq_cons in E3 as [[-> ->]|(s1' & -> & ->)].
      * apply nullable_spec in H1. rewrite H1. apply MAltR, IH2. assumption.
      * assert (Matches (Seq (deriv c r1) r2) (s1' +:+ s2))
          by (constructor; [apply IH1|]; assumption).
        destruct (nullable r1); [apply MAltL|]; assumption.
  - split; intros H; inversion H; subst.
    + apply MAltL, IH1; assumption.
    + apply MAltR, IH2; assumption.
    + apply MAltL, IH1; assumption.
    + apply MAltR, IH2; assumption.
  - split; intros H.
    + inversion H; subst. rewrite <- str_app_cons.
      constructor; [apply IH|]; assumption.
    + apply star_cons_inv in H as (s1 & s2 & -> & H1 & H2).
      constructor; [apply IH|]; assumption.
Qed.

Theorem test_spec (r : regex) (s : string) : test r s = true <-> Matches r s.
Proof.
  revert r. induction s as [|c s IH]; intros r; simpl.
  - apply nullable_spec.
  - rewrite IH. apply deriv_spec.
Qed.

Lemma seq_inv (r1 r2 : regex) (s : string) :
  Matches (Seq r1 r2) s <->
  exists s1 s2, s = s1 +:+ s2 /\ Matches r1 s1 /\ Matches r2 s2.
Proof.
  split.
  - inversion 1; subst; eauto.
  - intros (s1 & s2 & -> & H1 & H2). constructor; assumption.
Qed.

Lemma class_inv (p : ascii -> bool) (s : string) :
  Matches (Class p) s <-> exists c, s = String c "" /\ p c = true.
Proof.
  split.
  - inversion 1; subst; eauto.
  - intros (c & -> & H). constructor; assumption.
Qed.

Lemma star_class_inv (p : ascii -> bool) (s : string) :
  Matches (Star (Class p)) s <-> Str.forall_chars p s = true.
Proof.
  split.
  - induction s as [|c s IH]; [reflexivity|]. intros H.
    apply star_cons_inv in H as (s1 & s2 & -> & H1 & H2).
    apply class_inv in H1 as (c' & E & Hp). injection E as -> ->.
    rewrite str_app_nil_l in *. simpl. rewrite Hp, IH; auto.
  - induction s as [|c s IH]; simpl; [constructor|].
    intros [Hp Hs]%andb_true_iff.
    change (String c s) with (String c "" +:+ s).
    constructor; [constructor|]; auto.
Qed.

Lemma lit_inv (w s : string) : Matches (lit w) s <-> s = w.
Proof.
  revert s. induction w as [|c w IH]; intros s; simpl.
  - split; [inversion 1; reflexivity | intros ->; constructor].
  - rewrite seq_inv. split.
    + intros (s1 & s2 & -> & H1 & H2).
      apply class_inv in H1 as (a & -> & Ha). apply ascii_eqb_eq in Ha as ->.
      apply IH in H2 as ->. reflexivity.
    + intros ->. exists (String c ""), w. split; [reflexivity|].
      split; [constructor; apply Ascii.eqb_refl | apply IH; reflexivity].
Qed.

Lemma lit_i_inv (w s : string) : Matches (lit_i w) s <-> Str.lower s = Str.lower w.
Proof.
  revert s. induction w as [|c w IH]; intros s; simpl.
  - split.
    + inversion 1; reflexivity.
    + destruct s; [constructor | discriminate].
  - rewrite seq_inv. split.
    + intros (s1 & s2 & -> & H1 & H2).
      apply class_inv in H1 as (a & -> & Ha). apply ascii_eqb_eq in Ha.
      apply IH in H2. rewrite str_app_cons, str_app_nil_l. simpl. congruence.
    + destruct s as [|a s]; [discriminate|]. simpl. intros H. injection H as Ha Hs.
      exists (String a ""), s. split; [reflexivity|].
      split; [constructor; apply ascii_eqb_eq; assumption | apply IH; assumption].
Qed.

Lemma opt_inv (r : regex) (s : string) :
  Matches (Opt r) s <-> Matches r s \/ s = "".
Proof.
  unfold Opt. split.
  - inversion 1 as [| | | | ? ? ? H'| |]; subst; [left; assumption|].
    inversion H'; auto.
  - intros [H| ->]; [apply MAltL; assumption | apply MAltR; constructor].
Qed.

End RegExpFacts.

(** ** URL normalisation and validation: properties *)

Section Normalisation.

Lemma str_length_app (s1 s2 : string) :
  String.length (s1 +:+ s2) = (String.length s1 + String.length s2)%nat.
Proof.
  induction s1 as [|c s1 IH]; [reflexivity|].
  rewrite str_app_cons. simpl. rewrite IH. reflexivity.
Qed.

Lemma str_app_inj_tail (s1 s2 : string) (c1 c2 : ascii) :
  s1 +:+ String c1 "" = s2 +:+ String c2 "" -> s1 = s2 /\ c1 = c2.
Proof.
  revert s2. induction s1 as [|a s1 IH]; intros [|b s2] H.
  - injection H as ->. auto.
  - rewrite str_app_nil_l, str_app_cons in H. injection H as -> H.
    destruct s2; discriminate.
  - rewrite str_app_nil_l, str_app_cons in H. injection H as -> H.
    destruct s1; discriminate.
  - rewrite !str_app_cons in H. injection H as -> H.
    destruct (IH _ H) as [-> ->]. auto.
Qed.

Lemma removeTrailingSlash_slash (s : string) : removeTrailingSlash (s +:+ "/") = s.
Proof.
  induction s as [|c s IH]; [reflexivity|].
  rewrite str_app_cons. simpl. rewrite IH.
  destruct s; simpl; rewrite andb_false_r; reflexivity.
Qed.

Lemma removeTrailingSlash_other (s : string) :
  Str.endsWith s "/" = false -> removeTrailingSlash s = s.
Proof.
  induction s as [|c s IH]; [reflexivity|].
  change (Str.endsWith (String c s) "/")
    with (if String.eqb (String c s) "/" then true else Str.endsWith s "/").
  destruct (String.eqb (String c s) "/") eqn:E; [discriminate|].
  intros H. simpl.
  destruct (Ascii.eqb c "/" && String.eqb s "") eqn:E'.
  - apply andb_true_iff in E' as [->%ascii_eqb_eq ->%string_eqb_eq]. discriminate.
  - rewrite IH; auto.
Qed.

Lemma removeTrailingSlash_fixed (s : string) :
  removeTrailingSlash s = s <-> Str.endsWith s "/" = false.
Proof.
  split; [|apply removeTrailingSlash_other].
  intros H. destruct (Str.endsWith s "/") eqn:E; [|reflexivity].
  apply endsWith_spec in E as [front ->].
  rewrite removeTrailingSlash_slash in H.
  apply (f_equal String.length) in H. rewrite str_length_app in H. simpl in H. lia.
Qed.

Lemma endsWith_two_slashes (v : string) :
  Str.endsWith (v +:+ "/") "//" = Str.endsWith v "/".
Proof.
  apply eq_true_iff_eq. rewrite !endsWith_spec. split.
  - intros [front H]. exists front.
    change "//"%string with ("/" +:+ "/")%string in H.
    rewrite <- str_app_assoc in H. apply str_app_inj_tail in H as [-> _]. reflexivity.
  - intros [front ->]. exists front. rewrite str_app_assoc. reflexivity.
Qed.

Lemma endsWith_two_one (u : string) :
  Str.endsWith u "/" = false -> Str.endsWith u "//" = false.
Proof.
  intros H. destruct (Str.endsWith u "//") eqn:E; [|reflexivity].
  apply endsWith_spec in E as [front ->].
  assert (Str.endsWith (front +:+ "//") "/" = true); [|congruence].
  apply endsWith_spec. exists (front +:+ "/").
  rewrite str_app_assoc. reflexivity.
Qed.

Lemma lower_http (s : string) :
  Str.lower s = "http" \/ Str.lower s = "https" <->
  exists s1 s2, s = s1 +:+ s2 /\ Str.lower s1 = "http"
                /\ (s2 = "" \/ exists a, s2 = String a "" /\ Str.to_lower a = "s"%char).
Proof.
  split.
  - intros [H|H].
    + exists s, "". rewrite str_app_nil_r. auto.
    + destruct s as [|a1 [|a2 [|a3 [|a4 [|a5 [|a6 s]]]]]]; try discriminate.
      simpl in H. injection H as H1 H2 H3 H4 H5.
      exists (String a1 (String a2 (String a3 (String a4 ""))))%string, (String a5 "").
      split; [reflexivity|]. split; [simpl; congruence|]. right. eauto.
  - intros (s1 & s2 & -> & H1 & [-> | (a & -> & Ha)]).
    + rewrite str_app_nil_r. auto.
    + right. rewrite lower_app, H1. simpl. rewrite Ha. reflexivity.
Qed.

(** What [isValidUrl] accepts: the scheme [http] or [https] in any letter
    case, [://], a character that is neither whitespace nor one of
    [/ $ . ? #], one more character that is not a line terminator, then
    characters that are not whitespace. *)
Lemma isValidUrl_spec (u : string) :
  isValidUrl u = true <->
  exists scheme c1 c2 rest,
    u = scheme +:+ "://" +:+ String c1 (String c2 rest)
    /\ (Str.lower scheme = "http" \/ Str.lower scheme = "https")
    /\ Str.is_space c1 = false /\ Str.one_of "/$.?#" c1 = false
    /\ Str.is_line_terminator c2 = false
    /\ Str.forall_chars (fun a => negb (Str.is_space a)) rest = true.
Proof.
  unfold isValidUrl, urlPattern. rewrite RegExpFacts.test_spec. split.
  - intros H.
    apply RegExpFacts.seq_inv in H as (s1 & t1 & -> & H1 & H).
    apply RegExpFacts.seq_inv in H as (s2 & t2 & -> & H2 & H).
    apply RegExpFacts.seq_inv in H as (s3 & t3 & -> & H3 & H).
    apply RegExpFacts.seq_inv in H as (s4 & t4 & -> & H4 & H).
    apply RegExpFacts.seq_inv in H as (s5 & s6 & -> & H5 & H6).
    apply RegExpFacts.lit_i_inv in H1. apply RegExpFacts.opt_inv in H2.
    apply RegExpFacts.lit_inv in H3 as ->.
    apply RegExpFacts.class_inv in H4 as (c1 & -> & Hc1).
    apply RegExpFacts.class_inv in H5 as (c2 & -> & Hc2).
    apply RegExpFacts.star_class_inv in H6.
    apply negb_true_iff, orb_false_iff in Hc1 as [Hsp Hone].
    apply negb_true_iff in Hc2.
    exists (s1 +:+ s2), c1, c2, s6. rewrite str_app_assoc.
    split; [reflexivity|]. split; [|auto].
    apply lower_http. exists s1, s2. split; [reflexivity|]. split; [exact H1|].
    destruct H2 as [H2|H2]; [right|left; exact H2].
    apply RegExpFacts.class_inv in H2 as (a & -> & Ha).
    apply ascii_eqb_eq in Ha. eauto.
  - intros (scheme & c1 & c2 & rest & -> & Hs & Hsp & Hone & Hc2 & Hrest).
    apply lower_http in Hs as (s1 & s2 & -> & H1 & H2).
    rewrite str_app_assoc.
    apply RegExpFacts.seq_inv. exists s1, (s2 +:+ "://" +:+ String c1 (String c2 rest)).
    split; [reflexivity|]. split; [apply RegExpFacts.lit_i_inv; exact H1|].
    apply RegExpFacts.seq_inv. exists s2, ("://" +:+ String c1 (String c2 rest)).
    split; [reflexivity|]. split.
    { apply RegExpFacts.opt_inv. destruct H2 as [->|(a & -> & Ha)]; [right; reflexivity|].
      left. apply RegExpFacts.class_inv. exists a. split; [reflexivity|].
      apply ascii_eqb_eq. exact Ha. }
    apply RegExpFacts.seq_inv. exists "://"%string, (String c1 (String c2 rest)).
    split; [reflexivity|]. split; [apply RegExpFacts.lit_inv; reflexivity|].
    apply RegExpFacts.seq_inv. exists (String c1 ""), (String c2 rest).
    split; [reflexivity|]. split.
    { apply RegExpFacts.class_inv. exists c1. split; [reflexivity|].
      rewrite Hsp, Hone. reflexivity. }
    apply RegExpFacts.seq_inv. exists (String c2 ""), rest.
    split; [reflexivity|]. split.
    { apply RegExpFacts.class_inv. exists c2. split; [reflexivity|].
      rewrite Hc2. reflexivity. }
    apply RegExpFacts.star_class_inv. exact Hrest.
Qed.

End Normalisation.

(** C6, as the specification states it, fails: a valid URL that ends with
    two slashes loses one slash at each normalisation. *)
Lemma C6_normalize_twice_differs :
  isValidUrl "https://example.com//" = true
  /\ removeTrailingSlash "https://example.com//" = "https://example.com/"
  /\ removeTrailingSlash (removeTrailingSlash "https://example.com//")
     = "https://example.com"
  /\ removeTrailingSlash (removeTrailingSlash "https://example.com//")
     <> removeTrailingSlash "https://example.com//".
Proof. repeat split; [reflexivity .. | discriminate]. Qed.

(** C6, amended: [removeTrailingSlash] removes exactly one trailing slash:
    of a string that ends with a slash it gives what is before that slash,
    and it gives back any other string.  So normalising twice gives the
    same string as normalising once exactly for the strings that do not
    end with two slashes. *)
Theorem C6_removeTrailingSlash_idempotent_iff (u : string) :
  removeTrailingSlash (u +:+ "/") = u
  /\ (Str.endsWith u "/" = false -> removeTrailingSlash u = u)
  /\ (removeTrailingSlash (removeTrailingSlash u) = removeTrailingSlash u
      <-> Str.endsWith u "//" = false).
Proof.
  split; [apply removeTrailingSlash_slash|].
  split; [apply removeTrailingSlash_other|].
  destruct (Str.endsWith u "/") eqn:E.
  - apply endsWith_spec in E as [v ->].
    rewrite removeTrailingSlash_slash, endsWith_two_slashes.
    apply removeTrailingSlash_fixed.
  - rewrite (removeTrailingSlash_other u E), (removeTrailingSlash_other u E).
    split; [intros _; apply endsWith_two_one; exact E | reflexivity].
Qed.

(** ** Scanner and rewriter: properties *)

Module DomFacts.
Import Dom.

(** Induction on a node with the hypothesis for all its children. *)
Lemma Node_forall_ind (Q : Node -> Prop) :
  (forall data, Q (Text data)) ->
  (forall name attribs children,
      Forall Q children -> Q (Element name attribs children)) ->
  forall n, Q n.
Proof.
  intros HText HElement. fix IH 1. intros [data|name attribs children].
  - apply HText.
  - apply HElement. induction children as [|c cs IHcs]; constructor.
    + apply IH.
    + exact IHcs.
Qed.

Lemma flat_map_ext_Forall {A B : Type} (f g : A -> list B) (l : list A) :
  Forall (fun a => f a = g a) l -> flat_map f l = flat_map g l.
Proof. induction 1 as [|a l Ha _ IH]; simpl; [reflexivity | rewrite Ha, IH; reflexivity]. Qed.

Lemma flat_map_map {A B C : Type} (f : B -> list C) (g : A -> B) (l : list A) :
  flat_map f (map g l) = flat_map (fun a => f (g a)) l.
Proof. induction l as [|a l IH]; simpl; [reflexivity | rewrite IH; reflexivity]. Qed.

Lemma map_flat_map {A B C : Type} (f : A -> list B) (g : B -> C) (l : list A) :
  map g (flat_map f l) = flat_map (fun a => map g (f a)) l.
Proof.
  induction l as [|a l IH]; simpl; [reflexivity|].
  rewrite map_app, IH. reflexivity.
Qed.

Section Each.

Variables (sel sel' : Selector) (f : gmap string string -> gmap string string).

(** [f] does not change whether an element matches [sel]. *)
Hypothesis f_keeps_match :
  forall name attribs, matches sel name (f attribs) = matches sel name attribs.

(** Selecting with the selector of the update gives the updated
    elements. *)
Lemma select_each_same_node (n : Node) :
  select_node sel (each_node sel f n) = map f (select_node sel n).
Proof.
  induction n as [data|name attribs children IH] using Node_forall_ind; simpl.
  - reflexivity.
  - rewrite map_app, flat_map_map, map_flat_map.
    rewrite (flat_map_ext_Forall _ _ _ IH).
    destruct (matches sel name attribs) eqn:E.
    + rewrite f_keeps_match, E. reflexivity.
    + rewrite E. reflexivity.
Qed.

Lemma select_each_same (doc : Document) :
  select sel (each sel f doc) = map f (select sel doc).
Proof.
  unfold select, each. rewrite flat_map_map, map_flat_map.
  apply flat_map_ext_Forall, Forall_forall. intros n _.
  apply select_each_same_node.
Qed.

(** No element matches both [sel] and [sel']. *)
Hypothesis disjoint :
  forall name attribs, matches sel' name attribs = true -> matches sel name attribs = false.

Lemma select_each_other_node (n : Node) :
  select_node sel (each_node sel' f n) = select_node sel n.
Proof.
  induction n as [data|name attribs children IH] using Node_forall_ind; simpl.
  - reflexivity.
  - rewrite flat_map_map. rewrite (flat_map_ext_Forall _ _ _ IH).
    destruct (matches sel' name attribs) eqn:E; [|reflexivity].
    rewrite f_keeps_match, (disjoint _ _ E). reflexivity.
Qed.

Lemma select_each_other (doc : Document) :
  select sel (each sel' f doc) = select sel doc.
Proof.
  unfold select, each. rewrite flat_map_map.
  apply flat_map_ext_Forall, Forall_forall. intros n _.
  apply select_each_other_node.
Qed.

End Each.

(** An update that leaves the selected elements as they are leaves the
    document as it is. *)
Lemma each_node_fixed (sel : Selector) (f : gmap string string -> gmap string string)
    (n : Node) :
  Forall (fun attribs => f attribs = attribs) (select_node sel n) ->
  each_node sel f n = n.
Proof.
  induction n as [data|name attribs children IH] using Node_forall_ind; simpl.
  - reflexivity.
  - intros [H1 H2]%Forall_app. f_equal.
    + destruct (matches sel name attribs); [|reflexivity].
      apply Forall_inv in H1. exact H1.
    + clear H1. induction IH as [|c cs Hc _ IHcs]; simpl in *; [reflexivity|].
      apply Forall_app in H2 as [H2 H3]. rewrite Hc, IHcs; auto.
Qed.

Lemma each_fixed (sel : Selector) (f : gmap string string -> gmap string string)
    (doc : Document) :
  Forall (fun attribs => f attribs = attribs) (select sel doc) ->
  each sel f doc = doc.
Proof.
  unfold select, each. induction doc as [|n doc IH]; simpl; [reflexivity|].
  intros [H1 H2]%Forall_app. rewrite each_node_fixed, IH; auto.
Qed.

End DomFacts.

Section Rewriter.

Variable siteDir : string.

Lemma modifyPath_lookup (k : string) (attribs : gmap string string) :
  modifyPath siteDir k attribs !! k = modifyReference siteDir <$> attribs !! k.
Proof.
  unfold modifyPath.
  destruct (attribs !! k) as [v|] eqn:E; [|rewrite E; reflexivity].
  change (modifyReference siteDir <$> Some v) with (Some (modifyReference siteDir v)).
  unfold modifyReference.
  destruct (negb (String.eqb v "") && negb (Str.startsWith v "http")).
  - apply lookup_insert_eq.
  - exact E.
Qed.

Lemma modifyPath_lookup_ne (k k' : string) (attribs : gmap string string) :
  k <> k' -> modifyPath siteDir k attribs !! k' = attribs !! k'.
Proof.
  intros Hne. unfold modifyPath.
  destruct (attribs !! k) as [v|]; [|reflexivity].
  destruct (negb (String.eqb v "") && negb (Str.startsWith v "http")); [|reflexivity].
  rewrite lookup_insert_ne; auto.
Qed.

Lemma modifyPath_is_Some (k k' : string) (attribs : gmap string string) :
  is_Some (modifyPath siteDir k attribs !! k') <-> is_Some (attribs !! k').
Proof.
  destruct (decide (k = k')) as [->|Hne].
  - rewrite modifyPath_lookup, fmap_is_Some. reflexivity.
  - rewrite modifyPath_lookup_ne; auto.
Qed.

Lemma modifyPath_fixed (k : string) (attribs : gmap string string) :
  modifyPath siteDir k attribs = attribs
  <-> (forall v, attribs !! k = Some v -> modifyReference siteDir v = v).
Proof.
  split.
  - intros H v Hv. apply (f_equal (fun m : gmap string string => m !! k)) in H.
    rewrite modifyPath_lookup, Hv in H. simpl in H. congruence.
  - intros H. unfold modifyPath.
    destruct (attribs !! k) as [v|] eqn:E; [|reflexivity].
    specialize (H v eq_refl). unfold modifyReference in H.
    destruct (negb (String.eqb v "") && negb (Str.startsWith v "http")); [|reflexivity].
    apply insert_id. congruence.
Qed.

(** The three selectors, and what the updates keep. *)
Lemma keeps_IMAGE (k : string) name attribs :
  Dom.matches IMAGE_SELECTOR name (modifyPath siteDir k attribs)
  = Dom.matches IMAGE_SELECTOR name attribs.
Proof. reflexivity. Qed.

Lemma keeps_CSS (k : string) name attribs :
  k <> "rel" ->
  Dom.matches CSS_SELECTOR name (modifyPath siteDir k attribs)
  = Dom.matches CSS_SELECTOR name attribs.
Proof.
  intros Hk. unfold CSS_SELECTOR, Dom.matches, Dom.attribute_equals.
  rewrite modifyPath_lookup_ne; auto.
Qed.

Lemma keeps_JS (k : string) name attribs :
  Dom.matches JS_SELECTOR name (modifyPath siteDir k attribs)
  = Dom.matches JS_SELECTOR name attribs.
Proof.
  simpl. f_equal. apply bool_decide_ext, modifyPath_is_Some.
Qed.

Lemma tag_of_match_IMAGE name attribs :
  Dom.matches IMAGE_SELECTOR name attribs = true -> name = "img".
Proof. simpl. apply string_eqb_eq. Qed.

Lemma tag_of_match_CSS name attribs :
  Dom.matches CSS_SELECTOR name attribs = true -> name = "link".
Proof. simpl. intros [H _]%andb_true_iff. apply string_eqb_eq, H. Qed.

Lemma tag_of_match_JS name attribs :
  Dom.matches JS_SELECTOR name attribs = true -> name = "script".
Proof. simpl. intros [H _]%andb_true_iff. apply string_eqb_eq, H. Qed.

Lemma omap_modifyPath (k : string) (l : list (gmap string string)) :
  omap (fun attribs : gmap string string => attribs !! k) (map (modifyPath siteDir k) l)
  = map (modifyReference siteDir) (omap (fun attribs : gmap string string => attribs !! k) l).
Proof.
  induction l as [|a l IH]; simpl; [reflexivity|].
  rewrite modifyPath_lookup. destruct (a !! k); simpl; [f_equal|]; exact IH.
Qed.

Lemma select_IMAGE_modifyDocument (doc : Dom.Document) :
  Dom.select IMAGE_SELECTOR (modifyDocument siteDir doc)
  = map (modifyPath siteDir "src") (Dom.select IMAGE_SELECTOR doc).
Proof.
  unfold modifyDocument.
  rewrite DomFacts.select_each_other, DomFacts.select_each_other.
  - apply DomFacts.select_each_same. apply keeps_IMAGE.
  - apply keeps_IMAGE.
  - intros name attribs H%tag_of_match_CSS. subst name. reflexivity.
  - apply keeps_IMAGE.
  - intros name attribs H%tag_of_match_JS. subst name. reflexivity.
Qed.

Lemma select_CSS_modifyDocument (doc : Dom.Document) :
  Dom.select CSS_SELECTOR (modifyDocument siteDir doc)
  = map (modifyPath siteDir "href") (Dom.select CSS_SELECTOR doc).
Proof.
  unfold modifyDocument.
  rewrite DomFacts.select_each_other, DomFacts.select_each_same,
    DomFacts.select_each_other.
  - reflexivity.
  - intros; apply keeps_CSS; discriminate.
  - intros name attribs H%tag_of_match_IMAGE. subst name. reflexivity.
  - intros; apply keeps_CSS; discriminate.
  - intros; apply keeps_CSS; discriminate.
  - intros name attribs H%tag_of_match_JS. subst name. reflexivity.
Qed.

Lemma select_JS_modifyDocument (doc : Dom.Document) :
  Dom.select JS_SELECTOR (modifyDocument siteDir doc)
  = map (modifyPath siteDir "src") (Dom.select JS_SELECTOR doc).
Proof.
  unfold modifyDocument.
  rewrite DomFacts.select_each_same, DomFacts.select_each_other,
    DomFacts.select_each_other.
  - reflexivity.
  - intros; apply keeps_JS.
  - intros name attribs H%tag_of_match_IMAGE. subst name. reflexivity.
  - intros; apply keeps_JS.
  - intros name attribs H%tag_of_match_CSS. subst name. reflexivity.
  - intros; apply keeps_JS.
Qed.

Lemma listImagesInHtml_modifyDocument (doc : Dom.Document) :
  listImagesInHtml (modifyDocument siteDir doc)
  = map (modifyReference siteDir) (listImagesInHtml doc).
Proof.
  unfold listImagesInHtml. rewrite select_IMAGE_modifyDocument. apply omap_modifyPath.
Qed.

Lemma listCssFilesInHtml_modifyDocument (doc : Dom.Document) :
  listCssFilesInHtml (modifyDocument siteDir doc)
  = map (modifyReference siteDir) (listCssFilesInHtml doc).
Proof.
  unfold listCssFilesInHtml. rewrite select_CSS_modifyDocument. apply omap_modifyPath.
Qed.

Lemma listJsFilesInHtml_modifyDocument (doc : Dom.Document) :
  listJsFilesInHtml (modifyDocument siteDir doc)
  = map (modifyReference siteDir) (listJsFilesInHtml doc).
Proof.
  unfold listJsFilesInHtml. rewrite select_JS_modifyDocument. apply omap_modifyPath.
Qed.

Lemma candidateFiles_modifyDocument (doc : Dom.Document) :
  candidateFiles (modifyDocument siteDir doc)
  = map (modifyReference siteDir) (candidateFiles doc).
Proof.
  unfold candidateFiles.
  rewrite listImagesInHtml_modifyDocument, listCssFilesInHtml_modifyDocument,
    listJsFilesInHtml_modifyDocument, !map_app.
  reflexivity.
Qed.

Lemma Forall_omap_lookup (k : string) (Q : string -> Prop)
    (l : list (gmap string string)) :
  Forall Q (omap (fun attribs : gmap string string => attribs !! k) l)
  <-> Forall (fun attribs : gmap string string => forall v, attribs !! k = Some v -> Q v) l.
Proof.
  induction l as [|a l IH]; simpl.
  - split; constructor.
  - destruct (a !! k) as [v|] eqn:E.
    + rewrite !Forall_cons, IH. split.
      * intros [Hv Hl]. split; [|exact Hl]. intros v' Hv'. congruence.
      * intros [Hv Hl]. split; [apply Hv; exact E | exact Hl].
    + rewrite Forall_cons, IH. split.
      * intros Hl. split; [|exact Hl]. intros v' Hv'. congruence.
      * intros [_ Hl]. exact Hl.
Qed.

Lemma map_fixed {A : Type} (g : A -> A) (l : list A) :
  map g l = l <-> Forall (fun a => g a = a) l.
Proof.
  induction l as [|a l IH]; simpl.
  - split; [constructor | reflexivity].
  - rewrite Forall_cons, <- IH. split.
    + intros H. injection H as Ha Hl. auto.
    + intros [-> ->]. reflexivity.
Qed.

(** The rewriting leaves a document as it is exactly when it leaves each
    of its references as it is. *)
Lemma modifyDocument_fixed (doc : Dom.Document) :
  modifyDocument siteDir doc = doc
  <-> Forall (fun r => modifyReference siteDir r = r) (candidateFiles doc).
Proof.
  split.
  - intros H. apply map_fixed. rewrite <- candidateFiles_modifyDocument, H. reflexivity.
  - unfold candidateFiles, listImagesInHtml, listCssFilesInHtml, listJsFilesInHtml.
    rewrite !Forall_app, !Forall_omap_lookup.
    intros (Hi & Hc & Hj). unfold modifyDocument.
    rewrite (DomFacts.each_fixed IMAGE_SELECTOR).
    2:{ eapply Forall_impl; [exact Hi|]. intros a Ha. apply modifyPath_fixed, Ha. }
    rewrite (DomFacts.each_fixed CSS_SELECTOR).
    2:{ eapply Forall_impl; [exact Hc|]. intros a Ha. apply modifyPath_fixed, Ha. }
    apply DomFacts.each_fixed.
    eapply Forall_impl; [exact Hj|]. intros a Ha. apply modifyPath_fixed, Ha.
Qed.

End Rewriter.

(** C4, as the specification states it, fails: an image whose [src] is
    empty does not start with [http], and the rewriter leaves it empty
    instead of replacing it by [join(d, r)]. *)
Lemma C4_empty_reference_is_left :
  listImagesInHtml (modifyDocument "site" Examples.empty_src) = [""]
  /\ map (spec_rewrite_reference "site") (listImagesInHtml Examples.empty_src) = ["site"]
  /\ listImagesInHtml (modifyDocument "site" Examples.empty_src)
     <> map (spec_rewrite_reference "site") (listImagesInHtml Examples.empty_src).
Proof. repeat split; [vm_compute; reflexivity .. | vm_compute; discriminate]. Qed.

(** C4, amended: in document order, the image, stylesheet and script
    references of the rewritten document are those of the document with
    every reference that is empty or starts with [http] unchanged and every
    other reference [r] replaced by [path.join(siteDir, r)]. *)
Theorem C4_rewrite_references (siteDir : string) (doc : Dom.Document) :
  listImagesInHtml (modifyDocument siteDir doc)
    = map (modifyReference siteDir) (listImagesInHtml doc)
  /\ listCssFilesInHtml (modifyDocument siteDir doc)
    = map (modifyReference siteDir) (listCssFilesInHtml doc)
  /\ listJsFilesInHtml (modifyDocument siteDir doc)
    = map (modifyReference siteDir) (listJsFilesInHtml doc)
  /\ (forall r, r = "" \/ Str.startsWith r "http" = true ->
                modifyReference siteDir r = r)
  /\ (forall r, r <> "" -> Str.startsWith r "http" = false ->
                modifyReference siteDir r = Path.join siteDir r).
Proof.
  split; [apply listImagesInHtml_modifyDocument|].
  split; [apply listCssFilesInHtml_modifyDocument|].
  split; [apply listJsFilesInHtml_modifyDocument|].
  unfold modifyReference. split.
  - intros r [->|H]; [reflexivity|]. rewrite H, andb_false_r. reflexivity.
  - intros r Hr%String.eqb_neq H. rewrite Hr, H. reflexivity.
Qed.

Lemma C4_rewrite_references_witness :
  ("http://x/b.png" = "" \/ Str.startsWith "http://x/b.png" "http" = true)
  /\ "/a.png" <> "" /\ Str.startsWith "/a.png" "http" = false
  /\ modifyReference "site" "http://x/b.png" = "http://x/b.png"
  /\ modifyReference "site" "/a.png" = Path.join "site" "/a.png"
  /\ listImagesInHtml (modifyDocument "site" Examples.mixed_srcs)
     = map (modifyReference "site") (listImagesInHtml Examples.mixed_srcs).
Proof.
  destruct (C4_rewrite_references "site" Examples.mixed_srcs)
    as (Himg & _ & _ & Hkeep & Hjoin).
  assert (H1 : "http://x/b.png" = "" \/ Str.startsWith "http://x/b.png" "http" = true)
    by (right; reflexivity).
  assert (H2 : "/a.png" <> "") by discriminate.
  assert (H3 : Str.startsWith "/a.png" "http" = false) by reflexivity.
  split; [exact H1|]. split; [exact H2|]. split; [exact H3|].
  split; [exact (Hkeep _ H1)|]. split; [exact (Hjoin _ H2 H3) | exact Himg].
Defined.

(** C5, as the specification states it, fails: the second rewriting with
    the same directory prefixes the directory once more, in the document
    and in the text of the page. *)
Lemma C5_rewrite_twice_differs :
  listImagesInHtml (modifyDocument "site" Examples.relative_src) = ["site/a.png"]
  /\ listImagesInHtml (modifyDocument "site" (modifyDocument "site" Examples.relative_src))
     = ["site/site/a.png"]
  /\ modifyDocument "site" (modifyDocument "site" Examples.relative_src)
     <> modifyDocument "site" Examples.relative_src
  /\ modifyHtmlContent Examples.image_pages (Examples.image_page "a.png") "site"
     = Examples.image_page "site/a.png"
  /\ modifyHtmlContent Examples.image_pages
       (modifyHtmlContent Examples.image_pages (Examples.image_page "a.png") "site") "site"
     = Examples.image_page "site/site/a.png"
  /\ modifyHtmlContent Examples.image_pages
       (modifyHtmlContent Examples.image_pages (Examples.image_page "a.png") "site") "site"
     <> modifyHtmlContent Examples.image_pages (Examples.image_page "a.png") "site".
Proof.
  split; [vm_compute; reflexivity|]. split; [vm_compute; reflexivity|].
  split.
  { intros H. apply (f_equal listImagesInHtml) in H. vm_compute in H. discriminate. }
  split; [vm_compute; reflexivity|]. split; [vm_compute; reflexivity|].
  vm_compute. discriminate.
Qed.

(** C5, amended.  On documents: rewriting the rewritten document again
    with the same directory changes nothing exactly when every reference
    of the rewritten document is one that the rewriting of a reference
    leaves as it is (it is empty, it starts with [http], or joining the
    directory to it gives it back); any other reference is joined with the
    directory once more.  On the text of a page [h]: the second pass
    rewrites the document that [cheerio.load] builds from the output of the
    first; when that is the document the first pass serialised, the output
    of the second pass is the serialisation of the document rewritten
    twice, and when the document rewritten twice is also built back from
    its serialisation, [rewrite(rewrite(h, d), d) = rewrite(h, d)] exactly
    when every reference of the page rewritten once is one that the
    rewriting leaves as it is. *)
Theorem C5_rewrite_idempotent_iff (P : Platform) (siteDir h : string) :
  let once := modifyDocument siteDir (cheerio_load P h) in
  let twice := modifyDocument siteDir once in
  (forall doc : Dom.Document,
     (modifyDocument siteDir (modifyDocument siteDir doc) = modifyDocument siteDir doc
      <-> Forall (fun r => modifyReference siteDir r = r)
            (candidateFiles (modifyDocument siteDir doc)))
     /\ candidateFiles (modifyDocument siteDir (modifyDocument siteDir doc))
        = map (fun r => modifyReference siteDir (modifyReference siteDir r))
            (candidateFiles doc))
  /\ (cheerio_load P (cheerio_html P once) = once ->
      modifyHtmlContent P (modifyHtmlContent P h siteDir) siteDir = cheerio_html P twice)
  /\ (cheerio_load P (cheerio_html P once) = once ->
      cheerio_load P (cheerio_html P twice) = twice ->
      (modifyHtmlContent P (modifyHtmlContent P h siteDir) siteDir
       = modifyHtmlContent P h siteDir
       <-> Forall (fun r => modifyReference siteDir r = r) (candidateFiles once))).
Proof.
  intros once twice.
  assert (Htext : cheerio_load P (cheerio_html P once) = once ->
                  modifyHtmlContent P (modifyHtmlContent P h siteDir) siteDir
                  = cheerio_html P twice).
  { intros Hparse. unfold modifyHtmlContent. fold once. rewrite Hparse. reflexivity. }
  split.
  { intros doc. split; [apply modifyDocument_fixed|].
    rewrite !candidateFiles_modifyDocument, map_map. reflexivity. }
  split; [exact Htext|].
  intros Hparse1 Hparse2. rewrite (Htext Hparse1).
  change (modifyHtmlContent P h siteDir) with (cheerio_html P once).
  rewrite <- (modifyDocument_fixed siteDir once). fold twice. split.
  - intros H. apply (f_equal (cheerio_load P)) in H. congruence.
  - intros ->. reflexivity.
Qed.

(** A page with one image that starts with [http], and one with a
    relative image: the pages are built back from their serialisations,
    and the first is rewritten to the same text twice, the second is
    not. *)
Lemma C5_rewrite_idempotent_iff_witness :
  cheerio_load Examples.image_pages
    (cheerio_html Examples.image_pages
       (modifyDocument "site"
          (cheerio_load Examples.image_pages (Examples.image_page "a.png"))))
  = modifyDocument "site" (cheerio_load Examples.image_pages (Examples.image_page "a.png"))
  /\ cheerio_load Examples.image_pages
       (cheerio_html Examples.image_pages
          (modifyDocument "site"
             (modifyDocument "site"
                (cheerio_load Examples.image_pages (Examples.image_page "a.png")))))
     = modifyDocument "site"
         (modifyDocument "site"
            (cheerio_load Examples.image_pages (Examples.image_page "a.png")))
  /\ (modifyHtmlContent Examples.image_pages
        (modifyHtmlContent Examples.image_pages (Examples.image_page "a.png") "site") "site"
      = modifyHtmlContent Examples.image_pages (Examples.image_page "a.png") "site"
      <-> Forall (fun r => modifyReference "site" r = r)
            (candidateFiles
               (modifyDocument "site"
                  (cheerio_load Examples.image_pages (Examples.image_page "a.png"))))).
Proof.
  assert (H1 :
    cheerio_load Examples.image_pages
      (cheerio_html Examples.image_pages
         (modifyDocument "site"
            (cheerio_load Examples.image_pages (Examples.image_page "a.png"))))
    = modifyDocument "site" (cheerio_load Examples.image_pages (Examples.image_page "a.png")))
    by (vm_compute; reflexivity).
  assert (H2 :
    cheerio_load Examples.image_pages
      (cheerio_html Examples.image_pages
         (modifyDocument "site"
            (modifyDocument "site"
               (cheerio_load Examples.image_pages (Examples.image_page "a.png")))))
    = modifyDocument "site"
        (modifyDocument "site"
           (cheerio_load Examples.image_pages (Examples.image_page "a.png"))))
    by (vm_compute; reflexivity).
  split; [exact H1|]. split; [exact H2|].
  exact (proj2 (proj2 (C5_rewrite_idempotent_iff Examples.image_pages "site"
                         (Examples.image_page "a.png"))) H1 H2).
Defined.

Section Filter.

Lemma special_characters (file : string) :
  Str.exists_chars (Str.one_of ";:,") file
  = Str.includes file ";" || Str.includes file ":" || Str.includes file ",".
Proof.
  induction file as [|a file IH]; [reflexivity|].
  change (Str.exists_chars (Str.one_of ";:,") (String a file))
    with ((Ascii.eqb ";" a || (Ascii.eqb ":" a || (Ascii.eqb "," a || false)))
          || Str.exists_chars (Str.one_of ";:,") file).
  change (Str.includes (String a file) ";")
    with (Ascii.eqb a ";" || Str.includes file ";").
  change (Str.includes (String a file) ":")
    with (Ascii.eqb a ":" || Str.includes file ":").
  change (Str.includes (String a file) ",")
    with (Ascii.eqb a "," || Str.includes file ",").
  rewrite IH.
  rewrite (Ascii.eqb_sym ";" a), (Ascii.eqb_sym ":" a), (Ascii.eqb_sym "," a).
  destruct (Ascii.eqb a ";"), (Ascii.eqb a ":"), (Ascii.eqb a ","),
    (Str.includes file ";"), (Str.includes file ":"); reflexivity.
Qed.

Lemma validFilename_true (file : string) :
  validFilename file = true <->
  file <> "" /\ Str.includes file ";" = false
  /\ Str.includes file ":" = false /\ Str.includes file "," = false.
Proof.
  unfold validFilename. rewrite special_characters.
  rewrite andb_true_iff, !negb_true_iff, !orb_false_iff, String.eqb_neq.
  tauto.
Qed.

Lemma validFilename_false (file : string) :
  validFilename file = false <->
  file = "" \/ Str.includes file ";" = true
  \/ Str.includes file ":" = true \/ Str.includes file "," = true.
Proof.
  unfold validFilename. rewrite special_characters.
  rewrite andb_false_iff, !negb_false_iff, !orb_true_iff, string_eqb_eq.
  tauto.
Qed.

Lemma validFilename_no_colon (file : string) :
  validFilename file = true -> Str.includes file ":" = false.
Proof. intros H. apply validFilename_true in H. tauto. Qed.

End Filter.

(** C8: a candidate reference (image [src], stylesheet [href], script
    [src]) is rejected by the filter exactly when it is empty or contains
    [;], [:] or [,], and the references kept for download are exactly the
    candidates that are not rejected. *)
Theorem C8_validFilename_filter (doc : Dom.Document) (file : string) :
  (validFilename file = false <->
     file = "" \/ Str.includes file ";" = true
     \/ Str.includes file ":" = true \/ Str.includes file "," = true)
  /\ (validFilename file = true <->
        file <> "" /\ Str.includes file ";" = false
        /\ Str.includes file ":" = false /\ Str.includes file "," = false)
  /\ (In file (validFiles doc) <->
        In file (candidateFiles doc) /\ validFilename file = true).
Proof.
  split; [apply validFilename_false|].
  split; [apply validFilename_true|].
  unfold validFiles. apply filter_In.
Qed.

(** ** Numbers and maps: properties *)

Module NumberFacts.

Lemma round_safe (z : Z) : - 2 ^ 53 <= z <= 2 ^ 53 -> Number.round z = z.
Proof.
  intros Hz. change (2 ^ 53) with 9007199254740992 in Hz.
  destruct (Z.eq_dec (Z.abs z) 9007199254740992) as [E|Hne].
  - assert (z = 9007199254740992 \/ z = - 9007199254740992) as [-> | ->] by lia;
      reflexivity.
  - unfold Number.round. cbv zeta.
    assert (Hlog : Z.log2 (Z.abs z) - 52 <= 0).
    { destruct (Z.eq_dec (Z.abs z) 0) as [->|Hpos]; [change (Z.log2 0) with 0; lia|].
      assert (Z.log2 (Z.abs z) < 53); [|lia].
      apply Z.log2_lt_pow2; [lia|]. change (2 ^ 53) with 9007199254740992. lia. }
    apply Z.leb_le in Hlog. rewrite Hlog. reflexivity.
Qed.

(** Adding one to a safe integer is exact. *)
Lemma add_one_safe (z : Z) : Number.isSafeInteger z -> Number.add z 1 = z + 1.
Proof.
  unfold Number.isSafeInteger, Number.add. intros Hz. apply round_safe. lia.
Qed.

(** Adding one to the first integer that is not safe gives that integer. *)
Lemma add_one_2_53 : Number.add (2 ^ 53) 1 = 2 ^ 53.
Proof. reflexivity. Qed.

(** From one to [2 ^ 53], adding one does not lower a number and stays in
    that range. *)
Lemma add_one_counted (z : Z) :
  0 <= z <= 2 ^ 53 -> z <= Number.add z 1 /\ 1 <= Number.add z 1 <= 2 ^ 53.
Proof.
  intros Hz. destruct (Z.eq_dec z (2 ^ 53)) as [->|Hne].
  - rewrite add_one_2_53. change (2 ^ 53) with 9007199254740992. lia.
  - rewrite add_one_safe by (unfold Number.isSafeInteger; lia). lia.
Qed.

End NumberFacts.

Module JsMapFacts.

Section Entries.

Context {V : Type}.
Implicit Types (m : JsMap.t V) (l : list (string * V)) (k : string) (v : V).

Lemma eta m : JsMap.Map (JsMap.entries m) = m.
Proof. destruct m. reflexivity. Qed.

Lemma lookup_empty k : (∅ : JsMap.t V) !! k = None.
Proof. reflexivity. Qed.

Lemma get_set_eq k v l : JsMap.get_entries k (JsMap.set_entries k v l) = Some v.
Proof.
  induction l as [|[k' v'] l IH]; simpl.
  - rewrite String.eqb_refl. reflexivity.
  - destruct (String.eqb k' k) eqn:E; simpl; rewrite E; [reflexivity | exact IH].
Qed.

Lemma get_set_ne k k' v l :
  k <> k' -> JsMap.get_entries k' (JsMap.set_entries k v l) = JsMap.get_entries k' l.
Proof.
  intros Hne. induction l as [|[k0 v0] l IH]; simpl.
  - apply String.eqb_neq in Hne. rewrite Hne. reflexivity.
  - destruct (String.eqb k0 k) eqn:E; simpl.
    + apply String.eqb_eq in E as ->. apply String.eqb_neq in Hne. rewrite Hne. reflexivity.
    + rewrite IH. reflexivity.
Qed.

Lemma lookup_insert_eq k v m : <[k := v]> m !! k = Some v.
Proof. apply get_set_eq. Qed.

Lemma lookup_insert_ne k k' v m : k <> k' -> <[k := v]> m !! k' = m !! k'.
Proof. apply get_set_ne. Qed.

Lemma get_In k v l : JsMap.get_entries k l = Some v -> In (k, v) l.
Proof.
  induction l as [|[k0 v0] l IH]; simpl; [discriminate|].
  destruct (String.eqb k0 k) eqn:E.
  - apply String.eqb_eq in E as ->. intros [= ->]. auto.
  - auto.
Qed.

Lemma In_get k v l : NoDup l.*1 -> In (k, v) l -> JsMap.get_entries k l = Some v.
Proof.
  induction l as [|[k0 v0] l IH]; simpl; [intros _ []|].
  intros [Hfresh Hnodup]%NoDup_cons [[= -> ->]|Hin].
  - rewrite String.eqb_refl. reflexivity.
  - destruct (String.eqb k0 k) eqn:E; [|auto].
    apply String.eqb_eq in E as ->. exfalso. apply Hfresh.
    apply list_elem_of_fmap. exists (k, v). split; [reflexivity|].
    apply list_elem_of_In, Hin.
Qed.

Lemma get_None k l : JsMap.get_entries k l = None <-> k ∉ l.*1.
Proof.
  induction l as [|[k0 v0] l IH]; simpl.
  - split; [intros _ H; inversion H | reflexivity].
  - rewrite not_elem_of_cons. destruct (String.eqb k0 k) eqn:E.
    + apply String.eqb_eq in E as ->. split; [discriminate | intros [? _]; contradiction].
    + apply String.eqb_neq in E. rewrite IH. split; [auto | intros [_ ?]; assumption].
Qed.

(** Setting a key the map does not hold appends the entry. *)
Lemma set_fresh k v l : k ∉ l.*1 -> JsMap.set_entries k v l = l ++ [(k, v)].
Proof.
  induction l as [|[k0 v0] l IH]; simpl; [reflexivity|].
  intros [Hne Hl]%not_elem_of_cons.
  assert (E : String.eqb k0 k = false) by (apply String.eqb_neq; congruence).
  rewrite E, IH by exact Hl. reflexivity.
Qed.

(** Setting a key the map holds keeps the keys and their order. *)
Lemma keys_set_in k v l : k ∈ l.*1 -> (JsMap.set_entries k v l).*1 = l.*1.
Proof.
  induction l as [|[k0 v0] l IH]; [intros H; inversion H|].
  change (((k0, v0) :: l).*1) with (k0 :: l.*1). simpl JsMap.set_entries.
  destruct (String.eqb k0 k) eqn:E; [reflexivity|].
  apply String.eqb_neq in E. intros [?|Hin]%elem_of_cons; [congruence|].
  change (((k0, v0) :: JsMap.set_entries k v l).*1)
    with (k0 :: (JsMap.set_entries k v l).*1).
  rewrite IH by exact Hin. reflexivity.
Qed.

Lemma NoDup_keys_insert k v m : NoDup (JsMap.keys m) -> NoDup (JsMap.keys (<[k := v]> m)).
Proof.
  unfold JsMap.keys. change (JsMap.entries (<[k := v]> m))
    with (JsMap.set_entries k v (JsMap.entries m)).
  intros Hnodup. destruct (decide (k ∈ (JsMap.entries m).*1)) as [Hin|Hout].
  - rewrite keys_set_in by exact Hin. exact Hnodup.
  - rewrite set_fresh, fmap_app by exact Hout.
    apply NoDup_app. split; [exact Hnodup|]. split; [|apply NoDup_singleton].
    intros x Hx ->%list_elem_of_singleton. contradiction.
Qed.

Lemma lookup_values m k v : m !! k = Some v -> In v (JsMap.values m).
Proof.
  intros H%get_In. unfold JsMap.values. apply list_elem_of_In, list_elem_of_fmap.
  exists (k, v). split; [reflexivity|]. apply list_elem_of_In, H.
Qed.

Lemma values_lookup m v : In v (JsMap.values m) -> NoDup (JsMap.keys m) ->
  exists k, m !! k = Some v.
Proof.
  unfold JsMap.values. intros H%list_elem_of_In Hnodup.
  apply list_elem_of_fmap in H as ([k v'] & -> & Hin). exists k.
  apply In_get; [exact Hnodup | apply list_elem_of_In, Hin].
Qed.

End Entries.

End JsMapFacts.

(** ** The metadata ledger: properties *)

Section LedgerFacts.

Context (P : Platform).

Lemma createMetaData_fields (db : JsMap.t MetaData) (now : Z)
    (u contentHtml : string) :
  createMetaData P db now u contentHtml =
  {| url := u;
     num_links := countTagsInHtml (cheerio_load P contentHtml) "a";
     num_images := countTagsInHtml (cheerio_load P contentHtml) "img";
     last_fetch := now;
     num_fetches := Number.add (from_option num_fetches 0 (db !! u)) 1 |}.
Proof. reflexivity. Qed.

Lemma recordFetch_lookup (db : JsMap.t MetaData) (now : Z)
    (u contentHtml : string) :
  recordFetch P db now u contentHtml !! u = Some (createMetaData P db now u contentHtml).
Proof. apply JsMapFacts.lookup_insert_eq. Qed.

Lemma recordFetch_lookup_ne (db : JsMap.t MetaData) (now : Z)
    (u u' contentHtml : string) :
  u <> u' -> recordFetch P db now u contentHtml !! u' = db !! u'.
Proof. intros H. apply JsMapFacts.lookup_insert_ne, H. Qed.

(** What [updateMetaData] does to the map does not depend on whether the
    metadata file can be written. *)
Lemma updateMetaData_META_DB (u contentHtml : string) (w : World) :
  META_DB (updateMetaData P u contentHtml w).2
  = recordFetch P (META_DB w) (Date_now P w) u contentHtml.
Proof. reflexivity. Qed.

(** The counts the program reaches: from one to [2 ^ 53], where adding one
    is no longer exact. *)
Lemma counted_step (db : JsMap.t MetaData) (now : Z) (u contentHtml : string) :
  (forall k m, db !! k = Some m -> 1 <= num_fetches m <= 2 ^ 53) ->
  forall k m, recordFetch P db now u contentHtml !! k = Some m ->
              1 <= num_fetches m <= 2 ^ 53.
Proof.
  intros Hdb k m. destruct (decide (u = k)) as [<-|Hne].
  - rewrite recordFetch_lookup. intros [= <-]. simpl.
    apply NumberFacts.add_one_counted.
    destruct (db !! u) as [m0|] eqn:E; simpl.
    + specialize (Hdb _ _ E). lia.
    + change (2 ^ 53) with 9007199254740992. lia.
  - rewrite recordFetch_lookup_ne by exact Hne. apply Hdb.
Qed.

Lemma setAll_entries (metaData : list MetaData)
    (db : JsMap.t MetaData) (k : string) (m : MetaData) :
  (setAll (Ok <$> metaData) db).1 !! k = Some m ->
  In m metaData \/ db !! k = Some m.
Proof.
  revert db. induction metaData as [|meta metaData IH]; intros db; simpl.
  - auto.
  - intros H. apply IH in H as [H|H]; [auto|].
    destruct (decide (url meta = k)) as [<-|Hne].
    + rewrite JsMapFacts.lookup_insert_eq in H. injection H as ->. auto.
    + rewrite JsMapFacts.lookup_insert_ne in H by exact Hne. auto.
Qed.

Lemma keyed_insert (meta : MetaData) (db : JsMap.t MetaData) :
  keyed db -> keyed (<[url meta := meta]> db).
Proof.
  intros [Hnodup Hdb]. split; [apply JsMapFacts.NoDup_keys_insert, Hnodup|].
  intros k m. destruct (decide (url meta = k)) as [<-|Hne].
  - rewrite JsMapFacts.lookup_insert_eq. intros [= <-]. reflexivity.
  - rewrite JsMapFacts.lookup_insert_ne by exact Hne. apply Hdb.
Qed.

Lemma keyed_empty : keyed ∅.
Proof. split; [constructor | intros k m H; discriminate]. Qed.

(** Set one after the other, the entries of a map without a key twice,
    each under its own URL, make that map, in that order. *)
Lemma setAll_rebuilds (front entries : list (string * MetaData)) :
  NoDup (front ++ entries).*1 ->
  Forall (fun e => url e.2 = e.1) entries ->
  setAll (Ok <$> entries.*2) (JsMap.Map front) = (JsMap.Map (front ++ entries), None).
Proof.
  revert front. induction entries as [|[k m] entries IH]; intros front Hnodup Hurls.
  - rewrite app_nil_r. reflexivity.
  - apply Forall_cons in Hurls as [Hk Hurls]. simpl in Hk. subst k.
    change (setAll (Ok <$> ((url m, m) :: entries).*2) (JsMap.Map front))
      with (setAll (Ok <$> entries.*2) (JsMap.Map (JsMap.set_entries (url m) m front))).
    assert (Hfresh : url m ∉ front.*1).
    { rewrite fmap_app in Hnodup. apply NoDup_app in Hnodup as (_ & Hdisjoint & _).
      intros Hin. apply (Hdisjoint _ Hin). left. }
    rewrite JsMapFacts.set_fresh by exact Hfresh.
    rewrite (IH (front ++ [(url m, m)])).
    + rewrite <- app_assoc. reflexivity.
    + rewrite <- app_assoc. exact Hnodup.
    + exact Hurls.
Qed.

(** A new run of the program reads back the ledger the last run wrote,
    with the entries in the same order. *)
Lemma restart_restores (db : JsMap.t MetaData) :
  keyed db -> readMetaDataFile (Ok (Ok <$> metaFileContents db)) ∅ = (db, None).
Proof.
  intros [Hnodup Hkeyed]. unfold readMetaDataFile, metaFileContents, JsMap.values.
  change (∅ : JsMap.t MetaData) with (JsMap.Map (@nil (string * MetaData))).
  rewrite setAll_rebuilds; [rewrite app_nil_l, JsMapFacts.eta; reflexivity | exact Hnodup|].
  apply List.Forall_forall. intros [k m] Hin. simpl.
  apply Hkeyed, JsMapFacts.In_get; assumption.
Qed.

Lemma reachable_keyed (db : JsMap.t MetaData) : reachable P db -> keyed db.
Proof.
  induction 1 as [|db now u contentHtml _ IH|db _ IH].
  - apply keyed_empty.
  - unfold recordFetch.
    apply (keyed_insert (createMetaData P db now u contentHtml)), IH.
  - rewrite (restart_restores db IH). exact IH.
Qed.

Lemma reachable_counted (db : JsMap.t MetaData) :
  reachable P db -> forall k m, db !! k = Some m -> 1 <= num_fetches m <= 2 ^ 53.
Proof.
  induction 1 as [|db now u contentHtml Hreach IH|db Hreach IH].
  - intros k m H. discriminate.
  - apply counted_step, IH.
  - rewrite (restart_restores db (reachable_keyed db Hreach)). exact IH.
Qed.

Lemma reachable_num_fetches (db : JsMap.t MetaData) :
  reachable P db -> forall k m, db !! k = Some m -> 1 <= num_fetches m.
Proof. intros Hreach k m H. apply (reachable_counted db Hreach k m H). Qed.

Lemma recordFetch_monotone (db : JsMap.t MetaData) (now : Z)
    (u contentHtml k : string) (m : MetaData) :
  (forall k m, db !! k = Some m -> 1 <= num_fetches m <= 2 ^ 53) ->
  db !! k = Some m ->
  exists m', recordFetch P db now u contentHtml !! k = Some m'
             /\ num_fetches m <= num_fetches m'.
Proof.
  intros Hdb H. destruct (decide (u = k)) as [<-|Hne].
  - rewrite recordFetch_lookup. eexists. split; [reflexivity|].
    simpl. rewrite H. simpl. apply NumberFacts.add_one_counted.
    specialize (Hdb _ _ H). lia.
  - rewrite recordFetch_lookup_ne by exact Hne. exists m. split; [exact H | lia].
Qed.

Lemma recordFetches_monotone (fetches : list (Z * string * string))
    (db : JsMap.t MetaData) (k : string) (m : MetaData) :
  (forall k m, db !! k = Some m -> 1 <= num_fetches m <= 2 ^ 53) ->
  db !! k = Some m ->
  exists m', recordFetches P db fetches !! k = Some m'
             /\ num_fetches m <= num_fetches m'.
Proof.
  revert db m. induction fetches as [|[[now u] contentHtml] fetches IH]; intros db m Hdb H.
  - exists m. split; [exact H | lia].
  - destruct (recordFetch_monotone db now u contentHtml k m Hdb H) as (m1 & H1 & Hle1).
    destruct (IH _ _ (counted_step db now u contentHtml Hdb) H1) as (m2 & H2 & Hle2).
    exists m2. split; [exact H2 | lia].
Qed.

End LedgerFacts.

(** C3, as the specification states it, fails where numbers stop being
    exact: the program adds one as JavaScript adds, and for a stored
    [num_fetches] of [2 ^ 53] the sum is rounded to [2 ^ 53], so the mirror
    leaves the number as it was. *)
Lemma C3_a_stored_2_53_is_not_incremented :
  num_fetches <$> (META_DB MoreExamples.counted_out !! "https://example.com")
  = Some 9007199254740992
  /\ num_fetches
       <$> (META_DB (updateMetaData Examples.all_up "https://example.com" "content"
                       MoreExamples.counted_out).2 !! "https://example.com")
     = Some 9007199254740992
  /\ 9007199254740992 <> 9007199254740992 + 1.
Proof. split; [reflexivity|]. split; [reflexivity | discriminate]. Qed.

(** C3, amended: the update of the ledger after a mirror replaces the
    entry of the URL by one with [num_fetches] the sum, as JavaScript
    computes it, of the number before (zero when there was no entry) and
    one, which is one more than before whenever the number before is a
    safe integer; [last_fetch] is the current time and the numbers of [a]
    and [img] elements are those of the page just fetched; the other
    entries are left.  So two mirrors of a URL add two as long as the
    numbers are safe integers, and the counts are those of the last
    page. *)
Theorem C3_updateMetaData_entry (P : Platform) (u contentHtml : string) (w : World) :
  let w' := (updateMetaData P u contentHtml w).2 in
  let previous := from_option num_fetches 0 (META_DB w !! u) in
  META_DB w' !! u
  = Some {| url := u;
            num_links := countTagsInHtml (cheerio_load P contentHtml) "a";
            num_images := countTagsInHtml (cheerio_load P contentHtml) "img";
            last_fetch := Date_now P w;
            num_fetches := Number.add previous 1 |}
  /\ (Number.isSafeInteger previous -> Number.add previous 1 = previous + 1)
  /\ (forall u', u <> u' -> META_DB w' !! u' = META_DB w !! u')
  /\ (forall contentHtml2,
        let w'' := (updateMetaData P u contentHtml2 w').2 in
        META_DB w'' !! u
        = Some {| url := u;
                  num_links := countTagsInHtml (cheerio_load P contentHtml2) "a";
                  num_images := countTagsInHtml (cheerio_load P contentHtml2) "img";
                  last_fetch := Date_now P w';
                  num_fetches := Number.add (Number.add previous 1) 1 |}
        /\ (Number.isSafeInteger previous -> Number.isSafeInteger (previous + 1) ->
            Number.add (Number.add previous 1) 1 = previous + 1 + 1)).
Proof.
  intros w' previous. subst w'. split; [|split; [|split]].
  - rewrite updateMetaData_META_DB. apply recordFetch_lookup.
  - apply NumberFacts.add_one_safe.
  - intros u' Hne. rewrite updateMetaData_META_DB. apply recordFetch_lookup_ne, Hne.
  - intros contentHtml2 w''. subst w''. split.
    + rewrite !updateMetaData_META_DB, recordFetch_lookup, createMetaData_fields.
      rewrite recordFetch_lookup. reflexivity.
    + intros H1 H2. rewrite (NumberFacts.add_one_safe previous H1).
      apply NumberFacts.add_one_safe, H2.
Qed.

(** A first mirror of the page of the example site, with the entry of
    another URL left alone. *)
Lemma C3_updateMetaData_entry_witness :
  "https://example.com" <> "https://example.org"
  /\ META_DB (updateMetaData Examples.all_up "https://example.com" "content"
               Examples.start).2 !! "https://example.com"
     = Some {| url := "https://example.com";
               num_links := 0;
               num_images := 1;
               last_fetch := 0;
               num_fetches := 1 |}
  /\ META_DB (updateMetaData Examples.all_up "https://example.com" "content"
               Examples.start).2 !! "https://example.org"
     = META_DB Examples.start !! "https://example.org".
Proof.
  assert (Hne : "https://example.com" <> "https://example.org") by discriminate.
  destruct (C3_updateMetaData_entry Examples.all_up "https://example.com" "content"
              Examples.start) as (Hentry & _ & Hothers & _).
  split; [exact Hne|]. split; [exact Hentry | exact (Hothers _ Hne)].
Defined.

(** ** Computations that leave the ledger alone *)

Section Quiet.

Context {A B : Type} (Q : Event -> Prop).

Lemma quiet_ret (a : A) : quiet Q (ret a).
Proof.
  intros w r w' [= <- <-]. split; [reflexivity|].
  exists []. rewrite app_nil_r. auto.
Qed.

Lemma quiet_throw (e : Error) : quiet Q (@throw A e).
Proof.
  intros w r w' [= <- <-]. split; [reflexivity|].
  exists []. rewrite app_nil_r. auto.
Qed.

Lemma quiet_event (e : Event) (r : World -> Result A) :
  Q e -> forall w r' w', (r w, add_event e w) = (r', w') ->
  META_DB w' = META_DB w /\ exists new, trace w' = trace w ++ new /\ Forall Q new.
Proof.
  intros He w r' w' [= <- <-]. split; [reflexivity|].
  exists [e]. split; [reflexivity|]. constructor; auto.
Qed.

Lemma quiet_bind (m : M A) (k : A -> M B) :
  quiet Q m -> (forall a, quiet Q (k a)) -> quiet Q (bind m k).
Proof.
  intros Hm Hk w r w'. unfold bind.
  destruct (m w) as [[a|e] w1] eqn:E; intros H.
  - destruct (Hm _ _ _ E) as (Hdb1 & new1 & Ht1 & HQ1).
    destruct (Hk _ _ _ _ H) as (Hdb2 & new2 & Ht2 & HQ2).
    split; [congruence|]. exists (new1 ++ new2).
    rewrite Ht2, Ht1, <- app_assoc. split; [reflexivity|].
    apply Forall_app; auto.
  - injection H as <- <-. exact (Hm _ _ _ E).
Qed.

End Quiet.

Section QuietCatch.

Context {A : Type} (Q : Event -> Prop).

Lemma quiet_try_catch (m : M A) (handler : Error -> M A) :
  quiet Q m -> (forall e, quiet Q (handler e)) -> quiet Q (try_catch m handler).
Proof.
  intros Hm Hh w r w'. unfold try_catch.
  destruct (m w) as [[a|e] w1] eqn:E; intros H.
  - injection H as <- <-. exact (Hm _ _ _ E).
  - destruct (Hm _ _ _ E) as (Hdb1 & new1 & Ht1 & HQ1).
    destruct (Hh _ _ _ _ H) as (Hdb2 & new2 & Ht2 & HQ2).
    split; [congruence|]. exists (new1 ++ new2).
    rewrite Ht2, Ht1, <- app_assoc. split; [reflexivity|].
    apply Forall_app; auto.
Qed.

End QuietCatch.

Section PipelineQuiet.

Context (P : Platform) (Q : Event -> Prop).

Lemma quiet_consoleLog (message : string) :
  Q (Logged info message) -> quiet Q (consoleLog message).
Proof. intros HQ w r w'. apply (quiet_event Q _ (fun _ => Ok tt) HQ). Qed.

Lemma quiet_axios_get_data (u : string) :
  (forall ok, Q (HttpGet u ok)) -> quiet Q (axios_get_data P u).
Proof.
  intros HQ w r w'. unfold axios_get_data.
  apply (quiet_event Q _ (fun w => axios_get P w u) (HQ _)).
Qed.

Lemma quiet_mkdir (path : string) :
  (forall ok, Q (MkDir path ok)) -> quiet Q (mkdir P path).
Proof.
  intros HQ w r w'. unfold mkdir.
  apply (quiet_event Q _ (fun w => fs_mkdir P w path) (HQ _)).
Qed.

Lemma quiet_fs_write (path : string) (content : Content) :
  (forall ok, Q (FileWrite path content ok)) -> quiet Q (fs_write P path content).
Proof.
  intros HQ w r w'. unfold fs_write.
  apply (quiet_event Q _ (fun w => fs_writeFile P w path content) (HQ _)).
Qed.

End PipelineQuiet.

(** ** Threads and pools of tasks *)

Section ThreadFacts.

Context {A : Type}.

(** Induction on a thread with the hypothesis for what it becomes when it
    is resumed. *)
Lemma Thread_resume_ind (Q : Thread A -> Prop) :
  (forall r, Q (Finished r)) ->
  (forall resume, (forall w, Q (resume w).1) -> Q (Waiting resume)) ->
  forall t, Q t.
Proof.
  intros HFinished HWaiting. fix IH 1. intros [r|resume].
  - apply HFinished.
  - apply HWaiting. intros w. apply IH.
Qed.

Lemma thread_steps_weaken (allowed allowed' : Event -> Prop)
    (Post Post' : Result A -> list Step -> Prop) (t : Thread A) :
  (forall e, allowed e -> allowed' e) ->
  (forall r steps, Post r steps -> Post' r steps) ->
  thread_steps allowed Post t -> thread_steps allowed' Post' t.
Proof.
  intros Hallowed. revert Post Post'.
  induction t as [r|resume IH] using Thread_resume_ind; intros Post Post' HPost; simpl.
  - apply HPost.
  - intros H w. specialize (H w). specialize (IH w).
    destruct (resume w) as [t' w']. destruct H as (Hdb & new & Ht & Hnew & H).
    split; [exact Hdb|]. exists new. split; [exact Ht|].
    split; [eapply Forall_impl; eassumption|].
    eapply IH; [|exact H]. intros r rest. apply HPost.
Qed.

End ThreadFacts.

Section RunSteps.

Context (db : JsMap.t MetaData).

Lemma world_of (w : World) (before : list Event) :
  META_DB w = db -> trace w = before -> w = {| META_DB := db; trace := before |}.
Proof. destruct w. simpl. intros -> ->. reflexivity. Qed.

(** Steps of a run are steps of the run that goes on. *)
Lemma run_steps_more (before new more : list Event) (steps : list Step) :
  run_steps db before new steps -> run_steps db before (new ++ more) steps.
Proof.
  induction 1 as [before new|before others own rest steps _ IH].
  - constructor.
  - rewrite <- !app_assoc. constructor. exact IH.
Qed.

(** A step made at the end of the run so far. *)
Lemma run_steps_snoc (before new own : list Event) (steps : list Step) :
  run_steps db before new steps ->
  run_steps db before (new ++ own)
    (steps ++ [({| META_DB := db; trace := before ++ new |}, own)]).
Proof.
  induction 1 as [before new|before others own0 rest steps _ IH].
  - rewrite <- (app_nil_r own) at 1. constructor. constructor.
  - rewrite <- !app_assoc. simpl. constructor.
    rewrite <- !app_assoc in IH. exact IH.
Qed.


End RunSteps.

Section PoolSteps.

Context (allowed : Event -> Prop) (db : JsMap.t MetaData) (before : list Event).

Lemma pool_steps_more (Post : nat -> list Step -> Prop) (new more : list Event)
    (threads : list (Thread unit)) :
  pool_steps allowed Post db before new threads ->
  pool_steps allowed Post db before (new ++ more) threads.
Proof.
  intros Hpool i t Hi. destruct (Hpool i t Hi) as (done & Hdone & Ht).
  exists done. split; [apply run_steps_more, Hdone | exact Ht].
Qed.

(** One step of a thread of the pool, made at the end of the run so far. *)
Lemma thread_steps_step (Post : list Step -> Prop) (done : list Step)
    (new : list Event) (resume : World -> Thread unit * World) (w : World) :
  META_DB w = db -> trace w = before ++ new ->
  run_steps db before new done ->
  thread_steps allowed (fun r rest => r = Ok tt /\ Post (done ++ rest)) (Waiting resume) ->
  exists t' w' own done',
    resume w = (t', w')
    /\ META_DB w' = db
    /\ trace w' = trace w ++ own
    /\ Forall allowed own
    /\ run_steps db before (new ++ own) done'
    /\ thread_steps allowed (fun r rest => r = Ok tt /\ Post (done' ++ rest)) t'.
Proof.
  intros Hdb Htrace Hdone H. simpl in H. specialize (H w).
  destruct (resume w) as [t' w']. destruct H as (Hdb' & own & Ht & Hown & H).
  exists t', w', own, (done ++ [(w, own)]).
  split; [reflexivity|]. split; [congruence|]. split; [exact Ht|]. split; [exact Hown|].
  split.
  - rewrite (world_of db w (before ++ new) Hdb Htrace). apply run_steps_snoc, Hdone.
  - eapply thread_steps_weaken; [| |exact H]; [auto|].
    intros r rest [Hr HPost]. split; [exact Hr|]. rewrite <- app_assoc. exact HPost.
Qed.

Lemma start_all_steps (tasks : list (Async unit)) (Post : nat -> list Step -> Prop)
    (new : list Event) (w : World) :
  (forall i task, tasks !! i = Some task ->
     async_steps allowed (fun r steps => r = Ok tt /\ Post i steps) task) ->
  META_DB w = db -> trace w = before ++ new ->
  exists threads w' started,
    start_all tasks w = (Ok threads, w')
    /\ length threads = length tasks
    /\ META_DB w' = db
    /\ trace w' = trace w ++ started
    /\ Forall allowed started
    /\ pool_steps allowed Post db before (new ++ started) threads.
Proof.
  revert Post new w. induction tasks as [|task tasks IH]; intros Post new w Htasks Hdb Htrace.
  - exists [], w, []. simpl. rewrite !app_nil_r. repeat split; auto.
    intros i t Hi. discriminate.
  - destruct (thread_steps_step (Post 0%nat) [] new task w Hdb Htrace)
      as (t & w1 & own & done & E0 & Hdb1 & Ht1 & Hown & Hdone & Ht);
      [constructor | apply (Htasks 0%nat task eq_refl)|].
    assert (Htrace1 : trace w1 = before ++ new ++ own)
      by (rewrite Ht1, Htrace, <- app_assoc; reflexivity).
    destruct (IH (fun i => Post (S i)) (new ++ own) w1
                (fun i task' Hi => Htasks (S i) task' Hi) Hdb1 Htrace1)
      as (threads & w2 & started & E & Hlen & Hdb2 & Ht2 & Hstarted & Hpool).
    simpl. rewrite E0, E. exists (t :: threads), w2, (own ++ started).
    split; [reflexivity|]. split; [simpl; congruence|]. split; [exact Hdb2|].
    split; [rewrite Ht2, Ht1, <- app_assoc; reflexivity|].
    split; [apply Forall_app; auto|].
    rewrite app_assoc. intros [|i] t' Hi; simpl in Hi.
    + injection Hi as <-. exists done. split; [apply run_steps_more, Hdone | exact Ht].
    + apply (Hpool i t' Hi).
Qed.

Lemma resume_at_steps (Post : nat -> list Step -> Prop) (new : list Event)
    (threads : list (Thread unit)) (i : nat) (w : World) :
  META_DB w = db -> trace w = before ++ new ->
  pool_steps allowed Post db before new threads ->
  exists threads' w' own,
    resume_at i threads w = (Ok threads', w')
    /\ length threads' = length threads
    /\ META_DB w' = db
    /\ trace w' = trace w ++ own
    /\ Forall allowed own
    /\ pool_steps allowed Post db before (new ++ own) threads'.
Proof.
  intros Hdb Htrace Hpool. unfold resume_at.
  destruct (threads !! i) as [[r|resume]|] eqn:Ei.
  - exists threads, w, []. rewrite !app_nil_r. repeat split; auto.
  - destruct (Hpool i _ Ei) as (done & Hdone & Hthread).
    destruct (thread_steps_step (Post i) done new resume w Hdb Htrace Hdone Hthread)
      as (t' & w' & own & done' & E & Hdb' & Ht' & Hown & Hdone' & Hthread').
    rewrite E. exists (<[i := t']> threads), w', own.
    split; [reflexivity|]. split; [apply length_insert|].
    do 3 (split; [assumption|]).
    intros j t Hj. destruct (decide (i = j)) as [<-|Hne].
    + rewrite list_lookup_insert_eq in Hj by (eapply lookup_lt_Some; exact Ei).
      injection Hj as <-. exists done'. auto.
    + rewrite list_lookup_insert_ne in Hj by exact Hne.
      apply (pool_steps_more Post new own threads Hpool j t Hj).
  - exists threads, w, []. rewrite !app_nil_r. repeat split; auto.
Qed.

Lemma run_schedule_steps (Post : nat -> list Step -> Prop) (order : list nat)
    (new : list Event) (threads : list (Thread unit)) (w : World) :
  META_DB w = db -> trace w = before ++ new ->
  pool_steps allowed Post db before new threads ->
  exists threads' w' more,
    run_schedule order threads w = (Ok threads', w')
    /\ length threads' = length threads
    /\ META_DB w' = db
    /\ trace w' = trace w ++ more
    /\ Forall allowed more
    /\ pool_steps allowed Post db before (new ++ more) threads'.
Proof.
  revert new threads w.
  induction order as [|i order IH]; intros new threads w Hdb Htrace Hpool; simpl.
  - exists threads, w, []. rewrite !app_nil_r. repeat split; auto.
  - destruct (resume_at_steps Post new threads i w Hdb Htrace Hpool)
      as (threads1 & w1 & own & E1 & Hlen1 & Hdb1 & Ht1 & Hown & Hpool1).
    assert (Htrace1 : trace w1 = before ++ new ++ own)
      by (rewrite Ht1, Htrace, <- app_assoc; reflexivity).
    destruct (IH (new ++ own) threads1 w1 Hdb1 Htrace1 Hpool1)
      as (threads2 & w2 & more & E2 & Hlen2 & Hdb2 & Ht2 & Hmore & Hpool2).
    exists threads2, w2, (own ++ more). unfold bind. rewrite E1, E2.
    split; [reflexivity|]. split; [congruence|]. split; [exact Hdb2|].
    split; [rewrite Ht2, Ht1, <- app_assoc; reflexivity|].
    split; [apply Forall_app; auto|]. rewrite app_assoc. exact Hpool2.
Qed.

(** A thread of the pool that nothing else interleaves with any more runs
    to its end. *)
Lemma finish_steps (Post : list Step -> Prop) (t : Thread unit) (done : list Step)
    (new : list Event) (w : World) :
  META_DB w = db -> trace w = before ++ new ->
  run_steps db before new done ->
  thread_steps allowed (fun r rest => r = Ok tt /\ Post (done ++ rest)) t ->
  exists w' more steps,
    finish t w = (Ok tt, w')
    /\ META_DB w' = db
    /\ trace w' = trace w ++ more
    /\ Forall allowed more
    /\ run_steps db before (new ++ more) steps
    /\ Post steps.
Proof.
  revert done new w. induction t as [r|resume IH] using Thread_resume_ind;
    intros done new w Hdb Htrace Hdone Hthread.
  - simpl in Hthread. destruct Hthread as [-> HPost]. rewrite app_nil_r in HPost.
    exists w, [], done. rewrite !app_nil_r. auto 10.
  - destruct (thread_steps_step Post done new resume w Hdb Htrace Hdone Hthread)
      as (t' & w1 & own & done' & E & Hdb1 & Ht1 & Hown & Hdone' & Hthread').
    specialize (IH w). rewrite E in IH. simpl in IH.
    assert (Htrace1 : trace w1 = before ++ new ++ own)
      by (rewrite Ht1, Htrace, <- app_assoc; reflexivity).
    destruct (IH done' (new ++ own) w1 Hdb1 Htrace1 Hdone' Hthread')
      as (w' & more & steps & E' & Hdb' & Ht' & Hmore & Hsteps & HPost).
    simpl. rewrite E, E'. exists w', (own ++ more), steps.
    split; [reflexivity|]. split; [exact Hdb'|].
    split; [rewrite Ht', Ht1, <- app_assoc; reflexivity|].
    split; [apply Forall_app; auto|]. rewrite app_assoc. auto.
Qed.

Lemma finish_all_steps (Post : nat -> list Step -> Prop) (new : list Event)
    (threads : list (Thread unit)) (w : World) :
  META_DB w = db -> trace w = before ++ new ->
  pool_steps allowed Post db before new threads ->
  exists w' more,
    finish_all threads w = (Ok (map (fun _ => Ok tt) threads), w')
    /\ META_DB w' = db
    /\ trace w' = trace w ++ more
    /\ Forall allowed more
    /\ forall i, (i < length threads)%nat ->
         exists steps, run_steps db before (new ++ more) steps /\ Post i steps.
Proof.
  revert Post new w. induction threads as [|t threads IH];
    intros Post new w Hdb Htrace Hpool; simpl.
  - exists w, []. rewrite !app_nil_r. repeat split; auto. intros i Hi. lia.
  - destruct (Hpool 0%nat t eq_refl) as (done & Hdone & Hthread).
    destruct (finish_steps (Post 0%nat) t done new w Hdb Htrace Hdone Hthread)
      as (w1 & more1 & steps1 & E1 & Hdb1 & Ht1 & Hmore1 & Hsteps1 & HPost1).
    assert (Htrace1 : trace w1 = before ++ new ++ more1)
      by (rewrite Ht1, Htrace, <- app_assoc; reflexivity).
    assert (Hpool1 : pool_steps allowed (fun i => Post (S i)) db before (new ++ more1) threads).
    { intros i t' Hi. apply (pool_steps_more Post new more1 (t :: threads) Hpool (S i) t' Hi). }
    destruct (IH (fun i => Post (S i)) (new ++ more1) w1 Hdb1 Htrace1 Hpool1)
      as (w2 & more2 & E2 & Hdb2 & Ht2 & Hmore2 & HPost2).
    rewrite E1, E2. exists w2, (more1 ++ more2).
    split; [reflexivity|]. split; [exact Hdb2|].
    split; [rewrite Ht2, Ht1, <- app_assoc; reflexivity|].
    split; [apply Forall_app; auto|].
    rewrite app_assoc. intros [|i] Hi.
    + exists steps1. split; [apply run_steps_more, Hsteps1 | exact HPost1].
    + apply HPost2. lia.
Qed.

End PoolSteps.

(** ** The pipeline: properties *)

Section PipelineFacts.

Context (P : Platform).

Ltac step_events :=
  repeat (apply List.Forall_cons;
          [simpl; try (eexists; split; [eassumption | reflexivity]); auto|]);
  apply List.Forall_nil.

(** One step of a thread: the ledger is as it was, and the events it adds. *)
Ltac made_step :=
  split; [reflexivity|]; eexists;
  split; [simpl; rewrite <- ?app_assoc; reflexivity|]; split; [step_events|].
Ltac resumed w :=
  cbn [thread_steps]; intros w; unfold sync; cbv beta iota zeta.
Ltac ended := made_step; cbn [thread_steps]; split; [reflexivity|].

(** The steps of a task of [downloadFiles], however it is interleaved with
    the others: it never throws, its events are those of the download of
    its URL, and its calls and their outcomes are what the platform
    answered in the worlds in which it was resumed. *)
Lemma downloadTask_steps (directoryPath : string) (index : nat) (u : string) :
  async_steps (task_event P directoryPath u)
    (fun r steps => r = Ok tt /\ task_steps P directoryPath index u steps)
    (downloadTask P directoryPath index u).
Proof.
  intros w.
  unfold downloadTask, safeWriteFile, async_try_catch, async_bind, await_op,
    consoleLog, consoleError, lift, mkdir, fs_write, axios_get_data.
  unfold sync at 1 2; cbv beta iota zeta.
  destruct (URL_pathname P u) as [filename|e] eqn:Epath; cbn [thread_bind thread_catch].
  - made_step. resumed w1.
    destruct (axios_get P w1 u) as [data|e] eqn:Eget; cbn [thread_bind thread_catch].
    + made_step. resumed w2.
      destruct (fs_mkdir P w2 _) as [[]|e] eqn:Emk; cbn [thread_bind thread_catch].
      * made_step. resumed w3.
        destruct (fs_writeFile P w3 _ _) as [[]|e] eqn:Ewr; cbn [thread_bind thread_catch].
        -- ended. right. exists w, w1, filename. split; [exact Epath|]. cbv zeta.
           right. exists data, w2. split; [exact Eget|].
           right. exists w3. split; [exact Emk|]. right. split; [exact Ewr | reflexivity].
        -- ended. right. exists w, w1, filename. split; [exact Epath|]. cbv zeta.
           right. exists data, w2. split; [exact Eget|].
           right. exists w3. split; [exact Emk|]. left. exists e.
           split; [exact Ewr | reflexivity].
      * ended. right. exists w, w1, filename. split; [exact Epath|]. cbv zeta.
        right. exists data, w2. split; [exact Eget|]. left. exists e.
        split; [exact Emk | reflexivity].
    + ended. right. exists w, w1, filename. split; [exact Epath|]. cbv zeta.
      left. exists e. split; [exact Eget | reflexivity].
  - ended. left. exists w, e. split; [exact Epath | reflexivity].
Qed.


(** A task that has failed has logged the two lines of its failure, with
    its URL and the message of the error of the call that failed, in its
    last step. *)
Lemma task_steps_failed (directoryPath : string) (index : nat) (u : string)
    (steps : list Step) :
  task_steps P directoryPath index u steps ->
  In (Logged info ("File #" +:+ pretty (S index) +:+ " downloaded successfully."))
    (step_events steps)
  \/ exists e,
       In (Logged error ("Error downloading file " +:+ pretty (S index) +:+ ": " +:+ u))
         (step_events steps)
       /\ In (Logged error ("  Details: " +:+ error_message e)) (step_events steps)
       /\ forall path content, ~ In (FileWrite path content true) (step_events steps).
Proof.
  intros [(w0 & e & _ & ->)|(w0 & w1 & filename & _ & Hsteps)].
  { right. exists e. unfold step_events. simpl.
    split; [auto|]. split; [auto|]. intros path content H. intuition discriminate. }
  cbv zeta in Hsteps.
  destruct Hsteps as [(e & _ & ->)|(data & w2 & _ & [(e & _ & ->)|(w3 & _ & [(e & _ & ->)|(_ & ->)])])].
  - right. exists e. unfold step_events. simpl.
    split; [auto 10|]. split; [auto 10|]. intros path content H. intuition discriminate.
  - right. exists e. unfold step_events. simpl.
    split; [auto 10|]. split; [auto 10|]. intros path content H. intuition discriminate.
  - right. exists e. unfold step_events. simpl.
    split; [auto 10|]. split; [auto 10|]. intros path content H. intuition discriminate.
  - left. unfold step_events. simpl. auto 10.
Qed.

(** Awaited in sequence, [safeWriteFile] makes the directory and then
    writes the file. *)
Lemma await_safeWriteFile (filePath : string) (content : Content) (w : World) :
  await (safeWriteFile P filePath content) w
  = bind (mkdir P (path_dirname P filePath)) (fun _ => fs_write P filePath content) w.
Proof.
  unfold await, safeWriteFile, async_bind, await_op, bind, sync, mkdir.
  cbn [thread_bind finish].
  destruct (fs_mkdir P w _) as [[]|e]; cbn [thread_bind finish]; [|reflexivity].
  destruct (fs_write P filePath content _) as [r w']. reflexivity.
Qed.

Lemma quiet_safeWriteFile (Q : Event -> Prop) (filePath : string) (content : Content) :
  (forall e, (forall u ok, e <> HttpGet u ok) -> Q e) ->
  quiet Q (await (safeWriteFile P filePath content)).
Proof.
  intros HQ w r w'. rewrite await_safeWriteFile. revert w r w'. apply quiet_bind.
  - apply quiet_mkdir. intros ok. apply HQ. discriminate.
  - intros _. apply quiet_fs_write. intros ok. apply HQ. discriminate.
Qed.

Lemma Promise_all_fulfilled {T : Type} (tasks : list T) (w : World) :
  Promise_all (map (fun _ : T => Ok tt) tasks) w = (Ok (map (fun _ => tt) tasks), w).
Proof.
  induction tasks as [|task tasks IH]; [reflexivity|].
  simpl. unfold bind. rewrite IH. reflexivity.
Qed.

(** [downloadFiles] returns normally for every list of URLs and every
    order in which the tasks are resumed, with the ledger as it was; its
    events are events of the downloads of its URLs, and every task has
    made its steps, from its call to its end, in the run. *)
Lemma downloadFiles_steps (urls : list string) (directoryPath : string) (w : World) :
  exists w' new,
    downloadFiles P urls directoryPath w = (Ok tt, w')
    /\ META_DB w' = META_DB w
    /\ trace w' = trace w ++ new
    /\ Forall (fun e => exists u, In u urls /\ task_event P directoryPath u e) new
    /\ forall i u, urls !! i = Some u ->
         exists steps,
           task_steps P directoryPath i u steps
           /\ run_steps (META_DB w) (trace w) new steps.
Proof.
  set (allowed := fun e => exists u, In u urls /\ task_event P directoryPath u e).
  set (Post := fun (i : nat) (steps : list Step) =>
         forall u, urls !! i = Some u -> task_steps P directoryPath i u steps).
  assert (Htrace : trace w = trace w ++ []) by (rewrite app_nil_r; reflexivity).
  destruct (start_all_steps allowed (META_DB w) (trace w)
              (imap (downloadTask P directoryPath) urls) Post [] w)
    as (threads1 & w1 & new1 & E1 & Hlen1 & Hdb1 & Ht1 & Hnew1 & Hpool1);
    [|reflexivity | exact Htrace|].
  { intros i task Htask. rewrite list_lookup_imap in Htask.
    destruct (urls !! i) as [u|] eqn:Eu; [|discriminate]. injection Htask as <-.
    eapply thread_steps_weaken; [| |apply (downloadTask_steps directoryPath i u)].
    - intros e He. exists u. split; [|exact He].
      apply list_elem_of_In, list_elem_of_lookup. eauto.
    - intros r steps [Hr Hsteps]. split; [exact Hr|].
      intros u0 Hu0. unfold Post in *. rewrite Eu in Hu0. injection Hu0 as <-. exact Hsteps. }
  simpl in Hpool1.
  destruct (run_schedule_steps allowed (META_DB w) (trace w) Post (schedule P w)
              new1 threads1 w1 Hdb1 Ht1 Hpool1)
    as (threads2 & w2 & new2 & E2 & Hlen2 & Hdb2 & Ht2 & Hnew2 & Hpool2).
  assert (Htrace2 : trace w2 = trace w ++ new1 ++ new2)
    by (rewrite Ht2, Ht1, <- app_assoc; reflexivity).
  destruct (finish_all_steps allowed (META_DB w) (trace w) Post (new1 ++ new2)
              threads2 w2 Hdb2 Htrace2 Hpool2)
    as (w3 & new3 & E3 & Hdb3 & Ht3 & Hnew3 & HPost).
  exists w3, ((new1 ++ new2) ++ new3).
  unfold downloadFiles, bind. rewrite E1, E2, E3, Promise_all_fulfilled.
  split; [reflexivity|]. split; [exact Hdb3|].
  split; [rewrite Ht3, Htrace2, <- !app_assoc; reflexivity|].
  split; [rewrite !Forall_app; auto|].
  intros i u Hu. destruct (HPost i) as (steps & Hsteps & Htask).
  { rewrite Hlen2, Hlen1, length_imap. eapply lookup_lt_Some. exact Hu. }
  exists steps. split; [apply Htask, Hu | exact Hsteps].
Qed.

(** [downloadFiles] only requests the URLs it is given. *)
Lemma quiet_downloadFiles (urls : list string) (directoryPath : string) :
  quiet (only_gets (fun u => In u urls)) (downloadFiles P urls directoryPath).
Proof.
  intros w r w' Hrun.
  destruct (downloadFiles_steps urls directoryPath w) as (w1 & new & E & Hdb & Ht & Hnew & _).
  rewrite E in Hrun. injection Hrun as <- <-. split; [exact Hdb|].
  exists new. split; [exact Ht|].
  eapply Forall_impl; [exact Hnew|].
  intros [| u' ok | |] (u & Hu & He); simpl in *; [exact I | subst u'; exact Hu | exact I | exact I].
Qed.

Lemma mapM_lift_inv {A B : Type} (f : A -> Result B) (l : list A) (w w' : World)
    (r : Result (list B)) :
  mapM (fun a => lift (f a)) l w = (r, w') ->
  w' = w /\ forall bs, r = Ok bs -> Forall2 (fun a b => f a = Ok b) l bs.
Proof.
  revert r w'. induction l as [|a l IH]; intros r w'; simpl.
  - intros [= <- <-]. split; [reflexivity|]. intros bs [= <-]. constructor.
  - unfold bind. change (lift (f a) w) with (f a, w).
    destruct (f a) as [b|e] eqn:Ea.
    + destruct (mapM (fun a => lift (f a)) l w) as [rl w1].
      destruct (IH _ _ eq_refl) as [-> Hbs].
      destruct rl as [bs|e]; unfold ret; intros [= <- <-]; (split; [reflexivity|]).
      * intros bs' [= <-]. constructor; auto.
      * discriminate.
    + intros [= <- <-]. split; [reflexivity|]. discriminate.
Qed.


(** The first reference that does not resolve stops the resolution of
    the references. *)
Lemma mapM_lift_stops {A B : Type} (f : A -> Result B) (before : list A) (a : A)
    (after : list A) (e : Error) (w : World) :
  Forall (fun x => is_ok (f x) = true) before ->
  f a = Throw e ->
  mapM (fun a => lift (f a)) (before ++ a :: after) w = (Throw e, w).
Proof.
  intros Hbefore Ha. induction Hbefore as [|x before Hx _ IH]; simpl; unfold bind.
  - change (lift (f a) w) with (f a, w). rewrite Ha. reflexivity.
  - change (lift (f x) w) with (f x, w). destruct (f x) as [b|e0]; [|discriminate].
    simpl in IH. rewrite IH. reflexivity.
Qed.

Lemma quiet_fetchData (u : string) : quiet (fun _ => True) (fetchData P u).
Proof.
  unfold fetchData. apply quiet_try_catch.
  - destruct (negb (isValidUrl u)); [apply quiet_throw|].
    apply quiet_bind; [apply quiet_axios_get_data; auto|]. intros content.
    apply quiet_bind; [apply quiet_consoleLog; auto|]. intros _. apply quiet_ret.
  - intros [message|response request message]; apply quiet_throw.
Qed.

Lemma quiet_pageStage (appPath u : string) :
  quiet (fun _ => True) (pageStage P appPath u).
Proof.
  unfold pageStage, createSiteDirectory, writeFile.
  apply quiet_bind; [apply quiet_consoleLog; auto|]. intros _.
  apply quiet_bind; [apply quiet_fetchData|]. intros contentHtml.
  apply quiet_bind.
  { apply quiet_bind; [apply quiet_mkdir; auto|]. intros _. apply quiet_ret. }
  intros sitePath. apply quiet_bind; [|intros _; apply quiet_ret].
  apply quiet_bind; [apply quiet_safeWriteFile; auto|].
  intros _. apply quiet_consoleLog. auto.
Qed.

(** [refetchDataFromUrl] is the page stage, then the downloads, then the
    update of the ledger, inside one handler. *)
Lemma refetchDataFromUrl_staged (appPath u : string) (w : World) :
  refetchDataFromUrl P appPath u w =
  try_catch
    (bind (pageStage P appPath u) (fun page =>
       bind (downloadFilesInHtml P u page.1 page.2) (fun _ =>
         updateMetaData P u page.1)))
    (fun err => consoleError (error_message err)) w.
Proof.
  unfold refetchDataFromUrl, pageStage, try_catch, bind.
  destruct (consoleLog _ w) as [[[]|e0] w0]; [|reflexivity].
  destruct (fetchData P u w0) as [[contentHtml|e1] w1]; [|reflexivity].
  destruct (createSiteDirectory P appPath u w1) as [[sitePath|e2] w2]; [|reflexivity].
  destruct (writeFile P _ _ w2) as [[[]|e3] w3]; reflexivity.
Qed.

Lemma fetchData_invalid (u : string) (w : World) :
  isValidUrl u = false ->
  fetchData P u w = (Throw (JsError (u +:+ " is invalid URL.")), w).
Proof. intros H. unfold fetchData, try_catch. rewrite H. reflexivity. Qed.



(** When a kept reference does not resolve against the page URL,
    [new URL] throws before any task is started: the run logs the error of
    the first such reference and the ledger stays as it was. *)
Lemma refetchDataFromUrl_unresolved (appPath u : string) (w w1 : World)
    (contentHtml sitePath : string) (before : list string) (ref : string)
    (after : list string) (e : Error) :
  pageStage P appPath u w = (Ok (contentHtml, sitePath), w1) ->
  validFiles (cheerio_load P contentHtml) = before ++ ref :: after ->
  Forall (fun r => is_ok (URL_href P r u) = true) before ->
  URL_href P ref u = Throw e ->
  refetchDataFromUrl P appPath u w
  = (Ok tt, add_event (Logged error (error_message e)) w1)
  /\ META_DB w1 = META_DB w.
Proof.
  intros Hpage Hrefs Hbefore Href.
  destruct (quiet_pageStage appPath u _ _ _ Hpage) as [Hdb1 _].
  split; [|exact Hdb1].
  rewrite refetchDataFromUrl_staged. unfold try_catch, bind at 1. rewrite Hpage.
  unfold bind, downloadFilesInHtml. cbv beta iota zeta. simpl fst. simpl snd.
  unfold bind. rewrite Hrefs.
  rewrite (mapM_lift_stops (fun r => URL_href P r u) before ref after e w1 Hbefore Href).
  reflexivity.
Qed.

Lemma startsWith_includes (r p : string) (c : ascii) :
  Str.includes r c = false -> Str.includes p c = true -> Str.startsWith r p = false.
Proof.
  intros Hr Hp. destruct (Str.startsWith r p) eqn:E; [|reflexivity].
  apply startsWith_spec in E as [rest ->].
  rewrite includes_app, Hp in Hr. discriminate.
Qed.

(** The requests of [downloadFilesInHtml] are for resolutions of kept
    references. *)
Lemma downloadFilesInHtml_requests (baseUrl contentHtml siteDir : string)
    (w w' : World) (r : Result unit) :
  downloadFilesInHtml P baseUrl contentHtml siteDir w = (r, w') ->
  exists new,
    trace w' = trace w ++ new
    /\ forall u ok, In (HttpGet u ok) new ->
         exists ref, In ref (validFiles (cheerio_load P contentHtml))
                     /\ URL_href P ref baseUrl = Ok u.
Proof.
  unfold downloadFilesInHtml, bind.
  destruct (mapM _ _ w) as [[files|e] w1] eqn:Efiles;
    destruct (mapM_lift_inv _ _ _ _ _ Efiles) as [-> Hfiles].
  - intros Hrun. destruct (quiet_downloadFiles files siteDir _ _ _ Hrun)
      as (_ & new & Ht & Hnew).
    exists new. split; [exact Ht|]. intros u ok Hin.
    rewrite List.Forall_forall in Hnew. specialize (Hnew _ Hin). simpl in Hnew.
    specialize (Hfiles files eq_refl).
    clear -Hfiles Hnew. induction Hfiles as [|ref file refs files Href _ IH].
    + destruct Hnew.
    + destruct Hnew as [<-|Hnew].
      * exists ref. split; [left; reflexivity | exact Href].
      * destruct (IH Hnew) as (ref' & Hin' & Href'). exists ref'. split; [right|]; assumption.
  - intros [= <- <-]. exists []. rewrite app_nil_r. split; [reflexivity|].
    intros u ok [].
Qed.

End PipelineFacts.




(** C2: when validation, the fetch of the page, the creation of the site
    directory or the writing of the page file throws, the run stops there,
    logs the message of the error and returns with the ledger exactly as it
    was. *)
Theorem C2_page_failure_leaves_ledger (P : Platform) (appPath u : string)
    (w w1 : World) (e : Error) :
  pageStage P appPath u w = (Throw e, w1) ->
  exists w',
    refetchDataFromUrl P appPath u w = (Ok tt, w')
    /\ trace w' = trace w1 ++ [Logged error (error_message e)]
    /\ META_DB w' = META_DB w.
Proof.
  intros Hpage. exists (add_event (Logged error (error_message e)) w1).
  rewrite refetchDataFromUrl_staged. unfold try_catch, bind at 1. rewrite Hpage.
  split; [reflexivity|]. split; [reflexivity|].
  destruct (quiet_pageStage P appPath u _ _ _ Hpage) as [Hdb _]. exact Hdb.
Qed.

(** The page of the example site cannot be fetched. *)
Lemma C2_page_failure_leaves_ledger_witness :
  pageStage Examples.page_down Examples.appPath "https://example.com" Examples.start
  = (Throw (JsError "https://example.com is invalid URL."),
     Examples.page_written Examples.page_down)
  /\ exists w',
      refetchDataFromUrl Examples.page_down Examples.appPath "https://example.com"
        Examples.start
      = (Ok tt, w')
      /\ trace w'
         = trace (Examples.page_written Examples.page_down)
             ++ [Logged error "https://example.com is invalid URL."]
      /\ META_DB w' = META_DB Examples.start.
Proof.
  assert (Hpage :
    pageStage Examples.page_down Examples.appPath "https://example.com" Examples.start
    = (Throw (JsError "https://example.com is invalid URL."),
       Examples.page_written Examples.page_down))
    by (vm_compute; reflexivity).
  split; [exact Hpage|].
  exact (C2_page_failure_leaves_ledger Examples.page_down _ _ _ _ _ Hpage).
Defined.

(** C7, as the specification states it, fails in both directions: a URL
    with a space after the first character of the host is accepted, and a
    URL whose host is a single character is rejected. *)
Lemma C7_validation_is_not_the_stated_set :
  (isValidUrl "http://a b" = true /\ spec_valid_url "http://a b" = false)
  /\ (isValidUrl "http://a" = false /\ spec_valid_url "http://a" = true).
Proof. repeat split; vm_compute; reflexivity. Qed.

(** C7, amended: validation accepts exactly the strings made of the scheme
    [http] or [https] in any letter case, [://], one character that is
    neither whitespace nor one of [/ $ . ? #], one more character of any
    kind but a line terminator, and then characters that are not
    whitespace; for a string that validation rejects the run logs the
    error, makes no request and touches no file, and leaves the ledger as
    it was. *)
Theorem C7_validation_and_rejection (P : Platform) :
  (forall u : string,
     isValidUrl u = true <->
     exists scheme c1 c2 rest,
       u = scheme +:+ "://" +:+ String c1 (String c2 rest)
       /\ (Str.lower scheme = "http" \/ Str.lower scheme = "https")
       /\ Str.is_space c1 = false /\ Str.one_of "/$.?#" c1 = false
       /\ Str.is_line_terminator c2 = false
       /\ Str.forall_chars (fun a => negb (Str.is_space a)) rest = true)
  /\ (forall (appPath u : string) (w : World),
        isValidUrl u = false ->
        refetchDataFromUrl P appPath u w
        = (Ok tt,
           {| META_DB := META_DB w;
              trace := trace w ++ [Logged info ("Fetching " +:+ u +:+ " ...");
                                   Logged error (u +:+ " is invalid URL.")] |})).
Proof.
  split; [apply isValidUrl_spec|].
  intros appPath u w Hu.
  unfold refetchDataFromUrl, try_catch, bind, consoleLog, consoleError.
  cbv beta iota zeta. rewrite (fetchData_invalid P u _ Hu).
  unfold add_event. simpl. rewrite <- app_assoc. reflexivity.
Qed.

Lemma C7_validation_and_rejection_witness :
  isValidUrl "ftp://example.com" = false
  /\ refetchDataFromUrl Examples.all_up Examples.appPath "ftp://example.com" Examples.start
     = (Ok tt,
        {| META_DB := META_DB Examples.start;
           trace := trace Examples.start
                      ++ [Logged info ("Fetching " +:+ "ftp://example.com" +:+ " ...");
                          Logged error ("ftp://example.com" +:+ " is invalid URL.")] |}).
Proof.
  assert (Hinvalid : isValidUrl "ftp://example.com" = false) by reflexivity.
  split; [exact Hinvalid|].
  exact (proj2 (C7_validation_and_rejection Examples.all_up) _ _ _ Hinvalid).
Defined.

(** C9: in every ledger the program reaches, every entry has
    [num_fetches] at least one, and no sequence of further mirrors lowers
    the [num_fetches] of an entry; a new run of the program that loads the
    metadata file reads back the same ledger, without an error. *)
Theorem C9_num_fetches_positive_and_monotone (P : Platform)
    (db : JsMap.t MetaData) :
  reachable P db ->
  (forall u m, db !! u = Some m -> 1 <= num_fetches m)
  /\ (forall fetches u m,
        db !! u = Some m ->
        exists m', recordFetches P db fetches !! u = Some m'
                   /\ num_fetches m <= num_fetches m')
  /\ readMetaDataFile (Ok (Ok <$> metaFileContents db)) ∅ = (db, None).
Proof.
  intros Hreach. split; [|split].
  - exact (reachable_num_fetches P db Hreach).
  - intros fetches u m. apply recordFetches_monotone.
    exact (reachable_counted P db Hreach).
  - apply restart_restores. exact (reachable_keyed P db Hreach).
Qed.

Lemma C9_num_fetches_positive_and_monotone_witness :
  reachable Examples.all_up Examples.reloaded
  /\ (forall u m, Examples.reloaded !! u = Some m -> 1 <= num_fetches m)
  /\ (forall fetches u m,
        Examples.reloaded !! u = Some m ->
        exists m', recordFetches Examples.all_up Examples.reloaded fetches !! u = Some m'
                   /\ num_fetches m <= num_fetches m')
  /\ readMetaDataFile (Ok (Ok <$> metaFileContents Examples.reloaded)) ∅
     = (Examples.reloaded, None).
Proof.
  assert (Hreach : reachable Examples.all_up Examples.reloaded).
  { apply (reach_restart Examples.all_up), (reach_mirror Examples.all_up),
      (reach_mirror Examples.all_up), (reach_fresh Examples.all_up). }
  split; [exact Hreach|].
  exact (C9_num_fetches_positive_and_monotone Examples.all_up Examples.reloaded Hreach).
Defined.

(** C10: a reference that is kept for download contains no [:], so it
    starts with no scheme ([http://], [https://], [data:] or any other text
    with a colon), and every request [downloadFilesInHtml] makes is for the
    resolution against the page URL of such a reference. *)
Theorem C10_no_reference_with_scheme_is_downloaded (P : Platform) :
  (forall (doc : Dom.Document) (ref : string),
     In ref (validFiles doc) ->
     Str.includes ref ":" = false
     /\ Str.startsWith ref "http://" = false
     /\ Str.startsWith ref "https://" = false
     /\ Str.startsWith ref "data:" = false
     /\ forall scheme, Str.startsWith ref (scheme +:+ ":") = false)
  /\ (forall (baseUrl contentHtml siteDir : string) (w w' : World) (r : Result unit),
        downloadFilesInHtml P baseUrl contentHtml siteDir w = (r, w') ->
        exists new,
          trace w' = trace w ++ new
          /\ forall u ok, In (HttpGet u ok) new ->
               exists ref, In ref (candidateFiles (cheerio_load P contentHtml))
                           /\ Str.includes ref ":" = false
                           /\ URL_href P ref baseUrl = Ok u).
Proof.
  split.
  - intros doc ref Hin. apply filter_In in Hin as [_ Hvalid].
    apply validFilename_no_colon in Hvalid.
    split; [exact Hvalid|].
    repeat split; try (apply (startsWith_includes _ _ _ Hvalid); reflexivity).
    intros scheme. apply (startsWith_includes _ _ _ Hvalid).
    rewrite includes_app. apply orb_true_r.
  - intros baseUrl contentHtml siteDir w w' r Hrun.
    destruct (downloadFilesInHtml_requests P _ _ _ _ _ _ Hrun) as (new & Ht & Hnew).
    exists new. split; [exact Ht|]. intros u ok Hin.
    destruct (Hnew u ok Hin) as (ref & Href & Hres).
    apply filter_In in Href as [Hcand Hvalid].
    exists ref. auto using validFilename_no_colon.
Qed.

Lemma C10_no_reference_with_scheme_is_downloaded_witness :
  In "/a.png" (validFiles Examples.mixed_srcs)
  /\ Str.includes "/a.png" ":" = false
  /\ Str.startsWith "/a.png" "http://" = false
  /\ Str.startsWith "/a.png" "https://" = false
  /\ Str.startsWith "/a.png" "data:" = false
  /\ forall scheme, Str.startsWith "/a.png" (scheme +:+ ":") = false.
Proof.
  assert (Hin : In "/a.png" (validFiles Examples.mixed_srcs))
    by (vm_compute; left; reflexivity).
  split; [exact Hin|].
  exact (proj1 (C10_no_reference_with_scheme_is_downloaded Examples.all_up) _ _ Hin).
Defined.

Example path_join_1 : Path.join "site" "a.png" = "site/a.png".
Proof. reflexivity. Qed.
Example path_join_2 : Path.join "site" "/a/../b//c.css" = "site/b/c.css".
Proof. reflexivity. Qed.
Example path_join_3 : Path.join "site" "" = "site".
Proof. reflexivity. Qed.
Example path_join_4 : Path.join "site" "../../x/" = "../x/".
Proof. reflexivity. Qed.
Example valid_1 : isValidUrl "https://example.com" = true.
Proof. reflexivity. Qed.
Example valid_2 : isValidUrl "http://a b" = true.
Proof. reflexivity. Qed.
Example valid_3 : isValidUrl "http://a" = false.
Proof. reflexivity. Qed.
Example valid_4 : isValidUrl "ftp://example.com" = false.
Proof. reflexivity. Qed.
Example valid_5 : isValidUrl "HTTPS://Example.com/x y" = false.
Proof. reflexivity. Qed.
Example names_1 : urlToFilename "https://example.com/a?b=1&c" = "example.com_a_b=1_c.html".
Proof. reflexivity. Qed.
Example names_2 : urlToSiteBaseUrl "https://example.com/a?b=1&c" = "example_com_a_b_1_c".
Proof. reflexivity. Qed.
Example slash_1 : removeTrailingSlash "https://example.com//" = "https://example.com/".
Proof. reflexivity. Qed.
Example stylesheet_1 :
  validFiles Examples.stylesheet_in_capitals = ["/a.png"; "/b.css"]
  /\ listCssFilesInHtml (modifyDocument "site" Examples.stylesheet_in_capitals)
     = ["site/b.css"].
Proof. split; vm_compute; reflexivity. Qed.

Example counts_1 :
  let doc := Examples.page [Examples.anchor "/x" "x"; Examples.img "/a.png";
                            Examples.anchor "mailto:a@b" "mail"; Examples.img "data:,"] in
  (countTagsInHtml doc "a", countTagsInHtml doc "img") = (2, 2)
  /\ validFiles doc = ["/a.png"].
Proof. split; vm_compute; reflexivity. Qed.

(** The second of the three resources of the example site cannot be
    fetched: the two others are written, the error is logged, and the
    ledger has the entry of the page. *)
Example one_of_three_downloads_fails :
  let P := Examples.site ["https://example.com/b.css"] in
  let w' := (mirror P "/app/fetch-site-cli" "https://example.com/" Examples.start).2 in
  In (FileWrite "/app/fetch-site-cli/example_com/a.png" (Data "content") true) (trace w')
  /\ In (Logged error "Error downloading file 2: https://example.com/b.css") (trace w')
  /\ In (FileWrite "/app/fetch-site-cli/example_com/c.js" (Data "content") true) (trace w')
  /\ META_DB w' !! "https://example.com"
     = Some {| url := "https://example.com"; num_links := 0; num_images := 1;
               last_fetch := 21000; num_fetches := 1 |}.
Proof.
  repeat split; vm_compute; repeat (first [left; reflexivity | right]); reflexivity.
Qed.

(** * More of the program *)

(** ** The names of the page file and of the site directory *)

Section Names.

Lemma includes_replace_class (p : ascii -> bool) (by_ c : ascii) (s : string) :
  p c = true -> p by_ = false -> Str.includes (Str.replace_class p by_ s) c = false.
Proof.
  intros Hc Hby. induction s as [|a s IH]; [reflexivity|].
  simpl. rewrite IH, orb_false_r.
  destruct (p a) eqn:Ea; apply not_true_iff_false; intros E%ascii_eqb_eq; congruence.
Qed.

Lemma includes_replace_class_other (p : ascii -> bool) (by_ c : ascii) (s : string) :
  p c = false -> c <> by_ ->
  Str.includes (Str.replace_class p by_ s) c = Str.includes s c.
Proof.
  intros Hc Hby. induction s as [|a s IH]; [reflexivity|].
  simpl. rewrite IH. f_equal.
  destruct (p a) eqn:Ea; [|reflexivity].
  transitivity false; [|symmetry]; apply not_true_iff_false; intros E%ascii_eqb_eq; congruence.
Qed.

Lemma length_replace_class (p : ascii -> bool) (by_ : ascii) (s : string) :
  String.length (Str.replace_class p by_ s) = String.length s.
Proof. induction s as [|a s IH]; simpl; congruence. Qed.

Lemma strip_prefix_spec (p s rest : string) :
  Str.strip_prefix p s = Some rest <-> s = p +:+ rest.
Proof.
  revert s. induction p as [|a p IH]; intros s.
  - simpl. rewrite str_app_nil_l. split; congruence.
  - rewrite str_app_cons. destruct s as [|b s]; simpl; [split; discriminate|].
    destruct (Ascii.eqb a b) eqn:E.
    + apply ascii_eqb_eq in E as ->. rewrite IH. split; congruence.
    + split; [discriminate|]. intros [= -> _]. rewrite Ascii.eqb_refl in E. discriminate.
Qed.

Lemma strip_scheme_https (rest : string) : strip_scheme ("https://" +:+ rest) = rest.
Proof.
  unfold strip_scheme.
  rewrite (proj2 (strip_prefix_spec "https://" _ rest) eq_refl). reflexivity.
Qed.

Lemma strip_scheme_http (rest : string) : strip_scheme ("http://" +:+ rest) = rest.
Proof.
  unfold strip_scheme.
  rewrite (proj2 (strip_prefix_spec "http://" _ rest) eq_refl). reflexivity.
Qed.

Lemma strip_scheme_empty (u : string) :
  strip_scheme u = "" -> u = "" \/ u = "http://" \/ u = "https://".
Proof.
  unfold strip_scheme.
  destruct (Str.strip_prefix "https://" u) as [r|] eqn:E1.
  { intros ->. apply strip_prefix_spec in E1. auto. }
  destruct (Str.strip_prefix "http://" u) as [r|] eqn:E2.
  { intros ->. apply strip_prefix_spec in E2. auto. }
  auto.
Qed.

Lemma endsWith_app (s q : string) : Str.endsWith (s +:+ q) q = true.
Proof. apply endsWith_spec. exists s. reflexivity. Qed.

Lemma one_of_cases (set : string) (c : ascii) (q : ascii -> bool) :
  Str.forall_chars q set = true -> Str.one_of set c = true -> q c = true.
Proof.
  unfold Str.one_of. induction set as [|a set IH]; [discriminate|].
  simpl. intros [Ha Hset]%andb_true_iff [E|E]%orb_true_iff.
  - apply ascii_eqb_eq in E as <-. exact Ha.
  - auto.
Qed.

Lemma urlToFilename_includes (u : string) (c : ascii) :
  Str.one_of "/&?" c = true -> Str.includes (urlToFilename u) c = false.
Proof.
  intros Hc. unfold urlToFilename. rewrite includes_app.
  rewrite includes_replace_class by (exact Hc || reflexivity).
  apply negb_true_iff.
  apply (one_of_cases "/&?" c (fun c => negb (Str.includes ".html" c))); [reflexivity|exact Hc].
Qed.

Lemma urlToSiteBaseUrl_includes (u : string) (c : ascii) :
  Str.one_of "/&?.:=$" c = true -> Str.includes (urlToSiteBaseUrl u) c = false.
Proof. intros Hc. apply includes_replace_class; [exact Hc | reflexivity]. Qed.

End Names.

(** X1: whatever the URL, the name of the page file is the URL without a
    leading [http://] or [https://], of the same length plus the five
    characters of [.html], and it holds none of [/], [&] and [?]. *)
Theorem urlToFilename_names_one_entry (u : string) :
  Str.endsWith (urlToFilename u) ".html" = true
  /\ (forall c, Str.one_of "/&?" c = true -> Str.includes (urlToFilename u) c = false)
  /\ String.length (urlToFilename u) = (String.length (strip_scheme u) + 5)%nat.
Proof.
  split; [apply endsWith_app|]. split; [apply urlToFilename_includes|].
  unfold urlToFilename. rewrite str_length_app, length_replace_class. reflexivity.
Qed.

(** X2: the directory [createSiteDirectory] makes and returns is
    [path.join(appPath, urlToSiteBaseUrl(url))], the directory the
    rewritten references of the page point into; its name has the length
    of the URL without its scheme and holds none of [/ & ? . : = $]. *)
Theorem createSiteDirectory_makes_the_site_base (P : Platform) (appPath u : string)
    (w : World) :
  let dirname := Path.join appPath (urlToSiteBaseUrl u) in
  createSiteDirectory P appPath u w
  = (match fs_mkdir P w dirname with Ok _ => Ok dirname | Throw e => Throw e end,
     add_event (MkDir dirname (is_ok (fs_mkdir P w dirname))) w)
  /\ String.length (urlToSiteBaseUrl u) = String.length (strip_scheme u)
  /\ forall c, Str.one_of "/&?.:=$" c = true -> Str.includes (urlToSiteBaseUrl u) c = false.
Proof.
  split; [|split].
  - unfold createSiteDirectory, urlToSiteBaseUrl, bind, mkdir, ret.
    destruct (fs_mkdir P w _) as [[]|e]; reflexivity.
  - apply length_replace_class.
  - apply urlToSiteBaseUrl_includes.
Qed.

(** X3: the scheme is not part of the names: the [http] and the [https]
    address of a site have the same page file and the same site directory,
    while they are two keys of the ledger. *)
Theorem scheme_is_not_in_the_names (rest : string) :
  urlToFilename ("http://" +:+ rest) = urlToFilename ("https://" +:+ rest)
  /\ urlToSiteBaseUrl ("http://" +:+ rest) = urlToSiteBaseUrl ("https://" +:+ rest)
  /\ "http://" +:+ rest <> "https://" +:+ rest.
Proof.
  unfold urlToFilename, urlToSiteBaseUrl.
  rewrite strip_scheme_http, strip_scheme_https.
  split; [reflexivity|]. split; [reflexivity|]. discriminate.
Qed.

(** ** Normalisation before validation *)

Section NormalisedValidity.

Lemma forall_chars_app (p : ascii -> bool) (s1 s2 : string) :
  Str.forall_chars p (s1 +:+ s2) = Str.forall_chars p s1 && Str.forall_chars p s2.
Proof.
  induction s1 as [|a s1 IH]; [reflexivity|].
  rewrite str_app_cons. simpl. rewrite IH, andb_assoc. reflexivity.
Qed.

Lemma str_snoc_inv (s : string) :
  s = "" \/ exists front last, s = front +:+ String last "".
Proof.
  induction s as [|a s IH]; [auto|]. right.
  destruct IH as [->|(front & last & ->)].
  - exists "", a. reflexivity.
  - exists (String a front), last. reflexivity.
Qed.

Lemma lower_scheme_letters (s : string) :
  Str.lower s = "http" \/ Str.lower s = "https" ->
  (exists a1 a2 a3 a4, s = String a1 (String a2 (String a3 (String a4 ""))))
  \/ (exists a1 a2 a3 a4 a5,
        s = String a1 (String a2 (String a3 (String a4 (String a5 ""))))
        /\ Str.to_lower a5 = "s"%char).
Proof.
  intros [H|H];
    destruct s as [|a1 [|a2 [|a3 [|a4 [|a5 [|a6 s]]]]]]; try discriminate.
  - left. eauto.
  - right. injection H as _ _ _ _ H. eauto 10.
Qed.

(** A string has one reading as a scheme, [://] and a rest. *)
Lemma scheme_split (s s' x y : string) :
  Str.lower s = "http" \/ Str.lower s = "https" ->
  Str.lower s' = "http" \/ Str.lower s' = "https" ->
  s +:+ "://" +:+ x = s' +:+ "://" +:+ y -> x = y.
Proof.
  intros Hs Hs' H.
  apply lower_scheme_letters in Hs as [(a1 & a2 & a3 & a4 & ->)|(a1 & a2 & a3 & a4 & a5 & -> & Ha)];
    apply lower_scheme_letters in Hs' as [(b1 & b2 & b3 & b4 & ->)|(b1 & b2 & b3 & b4 & b5 & -> & Hb)];
    cbv [String.append] in H.
  - congruence.
  - injection H as _ _ _ _ H _. subst b5. discriminate.
  - injection H as _ _ _ _ H _. subst a5. discriminate.
  - congruence.
Qed.

End NormalisedValidity.

(** X4: [main] normalises a URL before [fetchData] validates it.  The
    valid URLs that the normalisation makes invalid are exactly the ones
    that consist of the scheme, [://], one character and a final slash:
    [http://a/] is valid, and is rejected as [http://a]. *)
Theorem normalisation_keeps_validity (u : string) :
  isValidUrl u = true ->
  (isValidUrl (removeTrailingSlash u) = false
   <-> exists scheme c1,
         (Str.lower scheme = "http" \/ Str.lower scheme = "https")
         /\ u = scheme +:+ "://" +:+ String c1 "/").
Proof.
  intros Hvalid. split.
  - intros Hinvalid. destruct (Str.endsWith u "/") eqn:Eslash.
    2:{ rewrite removeTrailingSlash_other in Hinvalid by exact Eslash. congruence. }
    apply endsWith_spec in Eslash as [v ->].
    rewrite removeTrailingSlash_slash in Hinvalid.
    apply isValidUrl_spec in Hvalid
      as (scheme & c1 & c2 & rest & Hu & Hs & Hsp & Hone & Hc2 & Hrest).
    destruct (str_snoc_inv rest) as [->|(front & last & ->)].
    + exists scheme, c1. split; [exact Hs|].
      change (String c1 (String c2 "")) with (String c1 "" +:+ String c2 "") in Hu.
      rewrite <- !str_app_assoc in Hu. apply str_app_inj_tail in Hu as [-> <-].
      rewrite !str_app_assoc. reflexivity.
    + exfalso.
      change (String c1 (String c2 (front +:+ String last "")))
        with (String c1 (String c2 front) +:+ String last "") in Hu.
      rewrite <- !str_app_assoc in Hu. apply str_app_inj_tail in Hu as [-> _].
      rewrite forall_chars_app in Hrest. apply andb_true_iff in Hrest as [Hfront _].
      apply not_true_iff_false in Hinvalid. apply Hinvalid, isValidUrl_spec.
      exists scheme, c1, c2, front. rewrite !str_app_assoc. auto 10.
  - intros (scheme & c1 & Hs & ->).
    change (String c1 "/") with (String c1 "" +:+ "/").
    rewrite <- !str_app_assoc, removeTrailingSlash_slash, str_app_assoc.
    apply not_true_iff_false. intros H.
    apply isValidUrl_spec in H as (scheme' & d1 & d2 & rest & Hu & Hs' & _).
    apply scheme_split in Hu; [discriminate | exact Hs | exact Hs'].
Qed.

Lemma normalisation_keeps_validity_witness :
  isValidUrl "http://a/" = true
  /\ (isValidUrl (removeTrailingSlash "http://a/") = false
      <-> exists scheme c1,
            (Str.lower scheme = "http" \/ Str.lower scheme = "https")
            /\ "http://a/"%string = scheme +:+ "://" +:+ String c1 "/").
Proof.
  assert (H : isValidUrl "http://a/" = true) by reflexivity.
  split; [exact H|]. exact (normalisation_keeps_validity "http://a/" H).
Defined.

(** ** Where the page file and the site directory are *)

Section PathFacts.

Lemma split_slash_not_nil (s : string) : Path.split_slash s <> [].
Proof.
  induction s as [|c s IH]; simpl; [discriminate|].
  destruct (Ascii.eqb c "/"); [discriminate|].
  destruct (Path.split_slash s); discriminate.
Qed.

Lemma split_slash_segment (seg : string) :
  Str.includes seg "/" = false -> Path.split_slash seg = [seg].
Proof.
  induction seg as [|c seg IH]; [reflexivity|].
  simpl. intros [Hc Hseg]%orb_false_iff. rewrite Hc, IH by exact Hseg. reflexivity.
Qed.

Lemma split_slash_app (s1 s2 : string) :
  Path.split_slash (s1 +:+ "/" +:+ s2) = Path.split_slash s1 ++ Path.split_slash s2.
Proof.
  induction s1 as [|c s1 IH]; [reflexivity|].
  rewrite str_app_cons. simpl. rewrite IH.
  destruct (Ascii.eqb c "/"); [reflexivity|].
  pose proof (split_slash_not_nil s1).
  destruct (Path.split_slash s1); [contradiction | reflexivity].
Qed.

Lemma join_slash_cons (seg : string) (segs : list string) :
  segs <> [] -> Path.join_slash (seg :: segs) = seg +:+ "/" +:+ Path.join_slash segs.
Proof. destruct segs; [contradiction | reflexivity]. Qed.

Lemma join_slash_snoc (segs : list string) (seg : string) :
  segs <> [] ->
  Path.join_slash (segs ++ [seg]) = Path.join_slash segs +:+ "/" +:+ seg.
Proof.
  induction segs as [|s segs IH]; [contradiction|]. intros _.
  destruct segs as [|s' segs]; [reflexivity|].
  change ((s :: s' :: segs) ++ [seg]) with (s :: ((s' :: segs) ++ [seg])).
  rewrite !join_slash_cons by discriminate.
  rewrite IH by discriminate. rewrite !str_app_assoc. reflexivity.
Qed.

Lemma split_join_slash (segs : list string) :
  segs <> [] -> Forall clean_segment segs ->
  Path.split_slash (Path.join_slash segs) = segs.
Proof.
  induction segs as [|s segs IH]; [contradiction|]. intros _ Hclean.
  apply Forall_cons in Hclean as [(_ & Hs & _) Hsegs].
  destruct segs as [|s' segs]; [apply split_slash_segment, Hs|].
  rewrite join_slash_cons, split_slash_app, split_slash_segment, IH
    by (discriminate || assumption).
  reflexivity.
Qed.

Lemma normalize_step_push (allowAboveRoot : bool) (stack : list string) (seg : string) :
  clean_segment seg -> Path.normalize_step allowAboveRoot stack seg = seg :: stack.
Proof.
  intros (Hne & _ & Hdot & Hdots). unfold Path.normalize_step.
  apply String.eqb_neq in Hne, Hdot, Hdots. rewrite Hne, Hdot, Hdots. reflexivity.
Qed.

Lemma normalize_step_clean (allowAboveRoot : bool) (segs stack : list string) :
  Forall clean_segment segs ->
  fold_left (Path.normalize_step allowAboveRoot) segs stack = rev segs ++ stack.
Proof.
  revert stack. induction segs as [|s segs IH]; intros stack Hclean; [reflexivity|].
  apply Forall_cons in Hclean as [Hs Hsegs].
  simpl. rewrite normalize_step_push, IH, <- app_assoc by assumption. reflexivity.
Qed.

Lemma endsWith_app_r (s1 s2 q : string) :
  s2 <> "" -> String.length q = 1%nat ->
  Str.endsWith (s1 +:+ s2) q = Str.endsWith s2 q.
Proof.
  intros Hs2 Hq. induction s1 as [|c s1 IH]; [reflexivity|].
  rewrite str_app_cons.
  change (Str.endsWith (String c (s1 +:+ s2)) q)
    with (if String.eqb (String c (s1 +:+ s2)) q then true
          else Str.endsWith (s1 +:+ s2) q).
  destruct (String.eqb (String c (s1 +:+ s2)) q) eqn:E; [|exact IH].
  apply string_eqb_eq in E. subst q. simpl in Hq.
  destruct (s1 +:+ s2) eqn:E'; [|discriminate].
  apply str_app_eq_nil in E' as [_ ?]. contradiction.
Qed.

Lemma segment_end (seg : string) :
  Str.includes seg "/" = false -> Str.endsWith seg "/" = false.
Proof.
  intros H. apply not_true_iff_false. intros [front ->]%endsWith_spec.
  rewrite includes_app in H. apply orb_false_iff in H as [_ H]. discriminate.
Qed.

Lemma join_slash_not_empty (segs : list string) :
  segs <> [] -> Forall clean_segment segs -> Path.join_slash segs <> "".
Proof.
  destruct segs as [|s segs]; [contradiction|]. intros _ Hclean.
  apply Forall_cons in Hclean as [(Hne & _) _].
  destruct segs; simpl; [exact Hne|].
  intros [? _]%str_app_eq_nil. contradiction.
Qed.

Lemma join_slash_end (segs : list string) :
  segs <> [] -> Forall clean_segment segs ->
  Str.endsWith (Path.join_slash segs) "/" = false.
Proof.
  induction segs as [|s segs IH]; [contradiction|]. intros _ Hclean.
  apply Forall_cons in Hclean as [(_ & Hs & _) Hsegs].
  destruct segs as [|s' segs]; [apply segment_end, Hs|].
  rewrite join_slash_cons by discriminate.
  rewrite <- str_app_assoc, endsWith_app_r; [apply IH; [discriminate | exact Hsegs] | | reflexivity].
  apply join_slash_not_empty; [discriminate | exact Hsegs].
Qed.

(** A path in normal form is its own normal form. *)
Lemma normalize_clean (segs : list string) :
  segs <> [] -> Forall clean_segment segs ->
  Path.normalize ("/" +:+ Path.join_slash segs) = "/" +:+ Path.join_slash segs.
Proof.
  intros Hne Hclean. unfold Path.normalize, Path.normalizeString.
  change (String.eqb ("/" +:+ Path.join_slash segs) "") with false.
  change (Str.startsWith ("/" +:+ Path.join_slash segs) "/") with true.
  cbv beta iota zeta.
  change (Path.split_slash ("/" +:+ Path.join_slash segs))
    with ("" :: Path.split_slash (Path.join_slash segs)).
  rewrite split_join_slash by assumption.
  change (fold_left (Path.normalize_step (negb true)) ("" :: segs) [])
    with (fold_left (Path.normalize_step false) segs []).
  rewrite normalize_step_clean, app_nil_r, rev_involutive by exact Hclean.
  pose proof (join_slash_not_empty segs Hne Hclean) as Hjoin.
  apply String.eqb_neq in Hjoin. rewrite Hjoin.
  rewrite (endsWith_app_r "/" (Path.join_slash segs) "/"), join_slash_end; auto.
  apply join_slash_not_empty; assumption.
Qed.

Lemma join_clean (directory seg : string) :
  clean_directory directory -> clean_segment seg ->
  Path.join directory seg = directory +:+ "/" +:+ seg
  /\ clean_directory (directory +:+ "/" +:+ seg).
Proof.
  intros (segs & Hne & Hclean & ->) Hseg.
  assert (E : ("/" +:+ Path.join_slash segs) +:+ "/" +:+ seg
              = "/" +:+ Path.join_slash (segs ++ [seg])).
  { rewrite join_slash_snoc, str_app_assoc by exact Hne. reflexivity. }
  assert (Hne' : segs ++ [seg] <> []) by (destruct segs; discriminate).
  assert (Hclean' : Forall clean_segment (segs ++ [seg])).
  { apply Forall_app. split; [exact Hclean|]. constructor; [exact Hseg | constructor]. }
  split.
  - unfold Path.join. change (String.eqb ("/" +:+ Path.join_slash segs) "") with false.
    destruct Hseg as (Hs & _). apply String.eqb_neq in Hs. rewrite Hs.
    rewrite E. apply normalize_clean; assumption.
  - exists (segs ++ [seg]). rewrite E. auto.
Qed.

End PathFacts.

Lemma urlToFilename_clean (u : string) : clean_segment (urlToFilename u).
Proof.
  assert (Hlen : String.length (urlToFilename u) = (String.length (strip_scheme u) + 5)%nat).
  { unfold urlToFilename. rewrite str_length_app, length_replace_class. reflexivity. }
  split; [|split; [apply urlToFilename_includes; reflexivity|split]];
    intros E; rewrite E in Hlen; simpl in Hlen; lia.
Qed.

Lemma urlToSiteBaseUrl_clean (u : string) :
  isValidUrl u = true -> clean_segment (urlToSiteBaseUrl u).
Proof.
  intros Hvalid.
  pose proof (urlToSiteBaseUrl_includes u) as Hinc.
  split; [|split; [apply Hinc; reflexivity|]].
  - intros E. apply (f_equal String.length) in E.
    unfold urlToSiteBaseUrl in E. rewrite length_replace_class in E.
    destruct (strip_scheme u) eqn:Es; [|discriminate].
    apply strip_scheme_empty in Es as [->|[->| ->]]; discriminate.
  - split; intros E; rewrite E in Hinc; specialize (Hinc "."%char eq_refl); discriminate.
Qed.

(** X5: a mirror stays in the application directory.  When the
    application directory is an absolute path in normal form, the page
    file of every URL is an entry of that directory, and the site directory
    of every valid URL is an entry of that directory: no URL makes
    [path.join] leave it. *)
Theorem page_and_site_are_entries_of_the_app_directory (appPath u : string) :
  clean_directory appPath ->
  Path.join appPath (urlToFilename u) = appPath +:+ "/" +:+ urlToFilename u
  /\ clean_segment (urlToFilename u)
  /\ (isValidUrl u = true ->
      Path.join appPath (urlToSiteBaseUrl u) = appPath +:+ "/" +:+ urlToSiteBaseUrl u
      /\ clean_segment (urlToSiteBaseUrl u)).
Proof.
  intros Happ.
  split; [apply join_clean; [exact Happ | apply urlToFilename_clean]|].
  split; [apply urlToFilename_clean|]. intros Hvalid.
  split; [apply join_clean; [exact Happ|] |]; apply urlToSiteBaseUrl_clean, Hvalid.
Qed.

(** ** What the rewriter keeps *)

Section RewriterKeeps.

Import Dom.

(** The elements with a tag name after an update are the elements with
    that tag name before it, each one updated if the selector of the update
    matches it. *)
Lemma select_tag_each_node (tagName : string) (sel : Selector)
    (f : gmap string string -> gmap string string) (n : Node) :
  select_node (Tag tagName) (each_node sel f n)
  = map (fun attribs => if matches sel tagName attribs then f attribs else attribs)
      (select_node (Tag tagName) n).
Proof.
  induction n as [data|name attribs children IH] using DomFacts.Node_forall_ind; simpl.
  - reflexivity.
  - rewrite map_app, DomFacts.flat_map_map, DomFacts.map_flat_map.
    rewrite (DomFacts.flat_map_ext_Forall _ _ _ IH). f_equal.
    destruct (String.eqb name tagName) eqn:E; [|reflexivity].
    apply string_eqb_eq in E as ->. reflexivity.
Qed.

Lemma select_tag_each (tagName : string) (sel : Selector)
    (f : gmap string string -> gmap string string) (doc : Document) :
  select (Tag tagName) (each sel f doc)
  = map (fun attribs => if matches sel tagName attribs then f attribs else attribs)
      (select (Tag tagName) doc).
Proof.
  unfold select, each. rewrite DomFacts.flat_map_map, DomFacts.map_flat_map.
  apply DomFacts.flat_map_ext_Forall, Forall_forall. intros n _.
  apply select_tag_each_node.
Qed.

Lemma modifyPath_or_not_lookup_ne (siteDir k k' : string) (b : bool)
    (attribs : gmap string string) :
  k <> k' ->
  (if b then modifyPath siteDir k attribs else attribs) !! k' = attribs !! k'.
Proof. intros Hne. destruct b; [apply modifyPath_lookup_ne, Hne | reflexivity]. Qed.

End RewriterKeeps.

(** X6: the rewriting of the page keeps its elements: for every tag name
    the rewritten document has as many elements as the document, so the
    numbers of links and images of the ledger are those of both, and every
    attribute other than [src] and [href] of every element is as it
    was. *)
Theorem modifyDocument_keeps_the_elements (siteDir : string) (doc : Dom.Document)
    (tagName : string) :
  countTagsInHtml (modifyDocument siteDir doc) tagName = countTagsInHtml doc tagName
  /\ forall attributeName, attributeName <> "src" -> attributeName <> "href" ->
       map (fun attribs : gmap string string => attribs !! attributeName)
         (Dom.select (Dom.Tag tagName) (modifyDocument siteDir doc))
       = map (fun attribs : gmap string string => attribs !! attributeName)
           (Dom.select (Dom.Tag tagName) doc).
Proof.
  unfold countTagsInHtml, modifyDocument. rewrite !select_tag_each. split.
  - rewrite !length_map. reflexivity.
  - intros k Hsrc Hhref. rewrite !map_map. apply map_ext. intros attribs.
    rewrite !modifyPath_or_not_lookup_ne by congruence. reflexivity.
Qed.

(** ** Loading the metadata file *)

Section Loading.

Lemma setAll_app (before : list MetaData) (rest : list (Result MetaData))
    (db : JsMap.t MetaData) :
  setAll ((Ok <$> before) ++ rest) db = setAll rest (setAll (Ok <$> before) db).1.
Proof.
  revert db. induction before as [|meta before IH]; intros db; [reflexivity|].
  apply (IH (<[url meta := meta]> db)).
Qed.

Lemma setAll_complete (metaData : list MetaData) (db : JsMap.t MetaData) :
  (setAll (Ok <$> metaData) db).2 = None.
Proof.
  revert db. induction metaData as [|meta metaData IH]; intros db; [reflexivity|].
  apply (IH (<[url meta := meta]> db)).
Qed.

Lemma setAll_other (metaData : list MetaData) (db : JsMap.t MetaData) (k : string) :
  (forall m, In m metaData -> url m <> k) ->
  (setAll (Ok <$> metaData) db).1 !! k = db !! k.
Proof.
  revert db. induction metaData as [|meta metaData IH]; intros db Hk; [reflexivity|].
  change ((setAll (Ok <$> meta :: metaData) db).1)
    with ((setAll (Ok <$> metaData) (<[url meta := meta]> db)).1).
  rewrite IH by (intros m Hm; apply Hk; right; exact Hm).
  apply JsMapFacts.lookup_insert_ne, Hk. left. reflexivity.
Qed.

Lemma setAll_keyed (metaData : list (Result MetaData)) (db : JsMap.t MetaData) :
  keyed db -> keyed (setAll metaData db).1.
Proof.
  revert db. induction metaData as [|[meta|e] metaData IH]; intros db Hdb;
    [exact Hdb | | exact Hdb].
  apply (IH (<[url meta := meta]> db)), keyed_insert, Hdb.
Qed.

End Loading.

(** X7: what a metadata file loads.  The elements of the parsed array are
    set under their URLs one after the other, inside the [try] block that
    also holds [JSON.parse]: after a complete load a URL that occurs in the
    array holds its last entry and any other URL holds what it held; an
    element whose [url] cannot be read stops the load with the entries
    before it set and the elements after it not looked at; a map without a
    key twice and with every entry under its own URL stays so.  When the
    file exists and can be read, [readMetaDataFile] returns normally with
    what the loop has set, and logs the error that stopped it, if any. *)
Theorem readMetaDataFile_last_entry_wins (P : Platform) (H : Host)
    (db : JsMap.t MetaData) :
  (forall before meta after,
     (forall m, In m after -> url m <> url meta) ->
     let loaded := readMetaDataFile (Ok (Ok <$> before ++ meta :: after)) db in
     loaded.2 = None /\ loaded.1 !! url meta = Some meta)
  /\ (forall metaData k,
        (forall m, In m metaData -> url m <> k) ->
        (readMetaDataFile (Ok (Ok <$> metaData)) db).1 !! k = db !! k)
  /\ (forall before e after,
        readMetaDataFile (Ok ((Ok <$> before) ++ Throw e :: after)) db
        = ((readMetaDataFile (Ok (Ok <$> before)) db).1, Some e))
  /\ (forall json, keyed db -> keyed (readMetaDataFile json db).1)
  /\ (forall w json,
        META_DB w = db ->
        fs_existsSync H w (Path.join APP_ROOT_PATH META_FILE) = true ->
        fs_readFile H w (Path.join APP_ROOT_PATH META_FILE) = Ok json ->
        let loaded := readMetaDataFile (JSON_parse H json) db in
        Cli.readMetaDataFile P H w
        = (Ok tt,
           {| META_DB := loaded.1;
              trace := trace w
                       ++ match loaded.2 with
                          | None => []
                          | Some e =>
                              [Logged info ("Reading metadata file error: "
                                            +:+ error_message e)]
                          end |})).
Proof.
  split; [|split; [|split; [|split]]].
  - intros before meta after Hafter loaded. subst loaded.
    unfold readMetaDataFile. split; [apply setAll_complete|].
    rewrite fmap_app, setAll_app.
    change (setAll (Ok <$> meta :: after) (setAll (Ok <$> before) db).1)
      with (setAll (Ok <$> after) (<[url meta := meta]> (setAll (Ok <$> before) db).1)).
    rewrite setAll_other by exact Hafter. apply JsMapFacts.lookup_insert_eq.
  - intros metaData k. apply setAll_other.
  - intros before e after. unfold readMetaDataFile. rewrite setAll_app. reflexivity.
  - intros [metaData|e] Hdb; [apply setAll_keyed, Hdb | exact Hdb].
  - intros w json <- Hexists Hread loaded. subst loaded.
    unfold Cli.readMetaDataFile. cbv zeta. rewrite Hexists, Hread.
    destruct (readMetaDataFile (JSON_parse H json) (META_DB w)) as [db' [e|]]; simpl.
    + reflexivity.
    + rewrite app_nil_r. reflexivity.
Qed.

(** ** What a run emits *)

Section Emits.

Context {A B : Type} (Q : Event -> Prop).

Lemma emits_weaken (Q' : Event -> Prop) (R R' : A -> Prop) (m : M A) :
  (forall e, Q e -> Q' e) -> (forall a, R a -> R' a) -> emits Q R m -> emits Q' R' m.
Proof.
  intros HQ HR Hm w r w' E. destruct (Hm _ _ _ E) as [(new & Ht & Hnew) Hr].
  split; [|auto]. exists new. split; [exact Ht|]. eapply Forall_impl; eassumption.
Qed.

Lemma quiet_emits (m : M A) : quiet Q m -> emits Q (fun _ => True) m.
Proof. intros Hm w r w' E. destruct (Hm _ _ _ E) as [_ Hnew]. auto. Qed.

Lemma emits_bind (R : A -> Prop) (R' : B -> Prop) (m : M A) (k : A -> M B) :
  emits Q R m -> (forall a, R a -> emits Q R' (k a)) -> emits Q R' (bind m k).
Proof.
  intros Hm Hk w r w'. unfold bind.
  destruct (m w) as [[a|e] w1] eqn:E; intros H;
    destruct (Hm _ _ _ E) as [(new1 & Ht1 & HQ1) Ha].
  - destruct (Hk a (Ha a eq_refl) _ _ _ H) as [(new2 & Ht2 & HQ2) Hr].
    split; [|exact Hr]. exists (new1 ++ new2).
    rewrite Ht2, Ht1, <- app_assoc. split; [reflexivity|]. apply Forall_app; auto.
  - injection H as <- <-. split; [eauto|]. discriminate.
Qed.

Lemma emits_try_catch (R : A -> Prop) (m : M A) (handler : Error -> M A) :
  emits Q R m -> (forall e, emits Q R (handler e)) -> emits Q R (try_catch m handler).
Proof.
  intros Hm Hh w r w'. unfold try_catch.
  destruct (m w) as [[a|e] w1] eqn:E; intros H.
  - injection H as <- <-. exact (Hm _ _ _ E).
  - destruct (Hm _ _ _ E) as [(new1 & Ht1 & HQ1) _].
    destruct (Hh _ _ _ _ H) as [(new2 & Ht2 & HQ2) Hr].
    split; [|exact Hr]. exists (new1 ++ new2).
    rewrite Ht2, Ht1, <- app_assoc. split; [reflexivity|]. apply Forall_app; auto.
Qed.

End Emits.

Section RunFacts.

Context (P : Platform).

(** A task of [downloadFiles], however it is interleaved with the others,
    requests its own URL and writes its own file, in its own directory. *)
Lemma downloadFiles_events (urls : list string) (directoryPath : string) :
  quiet (fun e => exists u, In u urls /\ task_event P directoryPath u e)
    (downloadFiles P urls directoryPath).
Proof.
  intros w r w' Hrun.
  destruct (downloadFiles_steps P urls directoryPath w)
    as (w1 & new & E & Hdb & Ht & Hnew & _).
  rewrite E in Hrun. injection Hrun as <- <-. eauto.
Qed.

Lemma Forall2_resolved (u : string) (refs files : list string) (file : string) :
  Forall2 (fun ref file => URL_href P ref u = Ok file) refs files ->
  In file files -> exists ref, In ref refs /\ URL_href P ref u = Ok file.
Proof.
  induction 1 as [|ref file' refs files Href _ IH]; intros Hin; [destruct Hin|].
  destruct Hin as [<-|Hin].
  - exists ref. split; [left; reflexivity | exact Href].
  - destruct (IH Hin) as (ref' & Hin' & Href'). exists ref'. split; [right|]; assumption.
Qed.

Lemma downloadFilesInHtml_events (baseUrl contentHtml siteDir : string) :
  quiet (fun e => exists u, page_resource P baseUrl contentHtml u
                            /\ task_event P siteDir u e)
    (downloadFilesInHtml P baseUrl contentHtml siteDir).
Proof.
  intros w r w'. unfold downloadFilesInHtml, bind.
  destruct (mapM _ _ w) as [[files|e] w1] eqn:Efiles;
    destruct (mapM_lift_inv _ _ _ _ _ Efiles) as [-> Hfiles].
  - intros Hrun. destruct (downloadFiles_events files siteDir _ _ _ Hrun)
      as (Hdb & new & Ht & Hnew).
    split; [exact Hdb|]. exists new. split; [exact Ht|].
    eapply Forall_impl; [exact Hnew|]. intros e (u & Hu & He).
    exists u. split; [|exact He].
    apply (Forall2_resolved baseUrl _ files u (Hfiles files eq_refl) Hu).
  - intros [= <- <-]. split; [reflexivity|]. exists []. rewrite app_nil_r. auto.
Qed.

Lemma quiet_writeFile (Q : Event -> Prop) (content filePath : string) :
  (forall ok, Q (MkDir (path_dirname P filePath) ok)) ->
  (forall ok, Q (FileWrite filePath (Data content) ok)) ->
  (forall message, Q (Logged info message)) ->
  quiet Q (writeFile P content filePath).
Proof.
  intros Hmk Hwr Hlog. unfold writeFile. apply quiet_bind.
  - intros w r w'. rewrite await_safeWriteFile. revert w r w'. apply quiet_bind.
    + apply quiet_mkdir, Hmk.
    + intros _. apply quiet_fs_write, Hwr.
  - intros _. apply quiet_consoleLog, Hlog.
Qed.

Lemma emits_createSiteDirectory (Q : Event -> Prop) (appPath u : string) :
  (forall ok, Q (MkDir (Path.join appPath (urlToSiteBaseUrl u)) ok)) ->
  emits Q (fun sitePath => sitePath = Path.join appPath (urlToSiteBaseUrl u))
    (createSiteDirectory P appPath u).
Proof.
  intros HQ w r w'. unfold createSiteDirectory, bind, mkdir, ret.
  fold (urlToSiteBaseUrl u).
  destruct (fs_mkdir P w _) as [[]|e] eqn:E; intros [= <- <-];
    (split; [exists [MkDir (Path.join appPath (urlToSiteBaseUrl u)) false] + 
             exists [MkDir (Path.join appPath (urlToSiteBaseUrl u)) true]; simpl; split; [reflexivity|]; repeat constructor; apply HQ|]).
  - intros a [= <-]. reflexivity.
  - discriminate.
Qed.

Lemma emits_updateMetaData (Q : Event -> Prop) (u contentHtml : string) :
  (forall entries ok, Q (FileWrite (Path.join APP_ROOT_PATH META_FILE) (Json entries) ok)) ->
  emits Q (fun _ => True) (updateMetaData P u contentHtml).
Proof.
  intros HQ w r w'. unfold updateMetaData, writeMetaFile, fs_write. intros [= <- <-].
  split; [|auto]. eexists. split; [reflexivity|]. repeat constructor. apply HQ.
Qed.

Lemma emits_pageSteps (appPath u contentHtml : string) :
  emits (mirror_event P appPath u contentHtml) (fun _ => True)
    (pageSteps P appPath u contentHtml).
Proof.
  unfold pageSteps.
  eapply emits_bind; [apply emits_createSiteDirectory; intros ok; left; reflexivity|].
  intros sitePath ->. cbv beta zeta.
  eapply emits_bind.
  { apply quiet_emits, quiet_writeFile.
    - intros ok. right. left. reflexivity.
    - intros ok. left. split; reflexivity.
    - intros message. exact I. }
  intros _ _. apply (emits_bind _ (fun _ => True)).
  { eapply emits_weaken; [| |apply quiet_emits, downloadFilesInHtml_events]; [|auto].
    intros [level message|u' ok|path ok|path content ok] (x & Hx & He); simpl in *.
    - exact I.
    - right. subst u'. exact Hx.
    - right; right. exists x. auto.
    - right; right. exists x. auto. }
  intros _ _. apply emits_updateMetaData. intros entries ok. right; left. eauto.
Qed.

Lemma quiet_downloadFilesInHtml (baseUrl contentHtml siteDir : string) (w w' : World)
    (r : Result unit) :
  downloadFilesInHtml P baseUrl contentHtml siteDir w = (r, w') -> META_DB w' = META_DB w.
Proof. intros Hrun. apply (downloadFilesInHtml_events _ _ _ _ _ _ Hrun). Qed.

(** The ledger after the steps that follow the fetch of the page: as it
    was, or with one more fetch of the URL recorded; in that case the last
    call was the write of the whole ledger to the metadata file. *)
Lemma pageSteps_ledger (appPath u contentHtml : string) (w w' : World) (r : Result unit) :
  pageSteps P appPath u contentHtml w = (r, w') ->
  (META_DB w' = META_DB w /\ exists e, r = Throw e)
  \/ exists now pre,
       META_DB w' = recordFetch P (META_DB w) now u contentHtml
       /\ trace w'
          = trace w ++ pre
              ++ [FileWrite (Path.join APP_ROOT_PATH META_FILE)
                    (Json (metaFileContents (META_DB w'))) (is_ok r)].
Proof.
  unfold pageSteps, bind.
  destruct (createSiteDirectory P appPath u w) as [[sitePath|e] w1] eqn:E1.
  2:{ intros [= <- <-]. left. split; [|eauto].
      apply (emits_createSiteDirectory (fun _ => True) appPath u) in E1 as E; [|auto].
      unfold createSiteDirectory, bind, mkdir in E1.
      destruct (fs_mkdir P w _); [discriminate|]. injection E1 as _ <-. reflexivity. }
  assert (Hdb1 : META_DB w1 = META_DB w /\ exists new1, trace w1 = trace w ++ new1).
  { unfold createSiteDirectory, bind, mkdir, ret in E1.
    destruct (fs_mkdir P w _); [|discriminate]. injection E1 as _ <-.
    split; [reflexivity|]. eexists. reflexivity. }
  destruct Hdb1 as (Hdb1 & new1 & Ht1).
  destruct (writeFile P _ _ w1) as [[[]|e] w2] eqn:E2;
    destruct (quiet_writeFile (fun _ => True) _ _ (fun _ => I) (fun _ => I) (fun _ => I)
                _ _ _ E2) as (Hdb2 & new2 & Ht2 & _).
  2:{ intros [= <- <-]. left. split; [congruence | eauto]. }
  destruct (downloadFilesInHtml P u contentHtml sitePath w2) as [[[]|e] w3] eqn:E3;
    destruct (downloadFilesInHtml_events _ _ _ _ _ _ E3) as (Hdb3 & new3 & Ht3 & _).
  2:{ intros [= <- <-]. left. split; [congruence | eauto]. }
  intros Hrun. right. exists (Date_now P w3), (new1 ++ new2 ++ new3).
  unfold updateMetaData, writeMetaFile, fs_write in Hrun. injection Hrun as <- <-.
  split.
  - simpl. unfold recordFetch. rewrite Hdb3, Hdb2, Hdb1. reflexivity.
  - simpl. rewrite Ht3, Ht2, Ht1, <- !app_assoc. reflexivity.
Qed.

Lemma fetchData_run (u : string) (w : World) :
  (isValidUrl u = false
   /\ fetchData P u w = (Throw (JsError (u +:+ " is invalid URL.")), w))
  \/ (isValidUrl u = true
      /\ exists content,
           axios_get P w u = Ok content
           /\ fetchData P u w
              = (Ok content,
                 add_event (Logged info ("Content fetched from " +:+ u +:+ " successfully."))
                   (add_event (HttpGet u true) w)))
  \/ (isValidUrl u = true
      /\ exists e,
           axios_get P w u = Throw e
           /\ fetchData P u w
              = (Throw (JsError (fetchData_message e)), add_event (HttpGet u false) w)).
Proof.
  unfold fetchData, try_catch. destruct (isValidUrl u); [right|left; auto].
  change (negb true) with false. unfold bind, axios_get_data. cbv beta iota zeta.
  destruct (axios_get P w u) as [content|e] eqn:E; [left|right]; (split; [reflexivity|]).
  - exists content. auto.
  - exists e. split; [reflexivity|]. destruct e; reflexivity.
Qed.

Lemma refetchDataFromUrl_after_fetch (appPath u : string) (w : World) :
  refetchDataFromUrl P appPath u w
  = try_catch (bind (fetchData P u) (pageSteps P appPath u))
      (fun err => consoleError (error_message err))
      (add_event (Logged info ("Fetching " +:+ u +:+ " ...")) w).
Proof. reflexivity. Qed.

(** The three courses of a mirror: the URL is invalid; the request for the
    page fails; the page is fetched and the steps that follow it run. *)
Lemma refetchDataFromUrl_run (appPath u : string) (w : World) :
  let w0 := add_event (Logged info ("Fetching " +:+ u +:+ " ...")) w in
  (isValidUrl u = false
   /\ refetchDataFromUrl P appPath u w
      = (Ok tt, add_event (Logged error (u +:+ " is invalid URL.")) w0))
  \/ (isValidUrl u = true
      /\ exists e,
           axios_get P w0 u = Throw e
           /\ refetchDataFromUrl P appPath u w
              = (Ok tt, add_event (Logged error (fetchData_message e))
                          (add_event (HttpGet u false) w0)))
  \/ (isValidUrl u = true
      /\ exists contentHtml r w2,
           axios_get P w0 u = Ok contentHtml
           /\ pageSteps P appPath u contentHtml
                (add_event (Logged info ("Content fetched from " +:+ u +:+ " successfully."))
                   (add_event (HttpGet u true) w0))
              = (r, w2)
           /\ refetchDataFromUrl P appPath u w
              = (Ok tt, match r with
                        | Ok _ => w2
                        | Throw e => add_event (Logged error (error_message e)) w2
                        end)).
Proof.
  intros w0. rewrite refetchDataFromUrl_after_fetch. fold w0. unfold try_catch, bind.
  destruct (fetchData_run u w0) as [[Hv ->]|[(Hv & c & Hget & ->)|(Hv & e & Hget & ->)]].
  - left. auto.
  - right; right. split; [exact Hv|].
    destruct (pageSteps P appPath u c _) as [[[]|e] w2] eqn:E.
    + exists c, (Ok tt), w2. auto.
    + exists c, (Throw e), w2. auto.
  - right; left. split; [exact Hv|]. exists e. auto.
Qed.

End RunFacts.

Section MirrorFacts.

Context (P : Platform).

Lemma fetches_recordFetch (db : JsMap.t MetaData) (now : Z)
    (u contentHtml k : string) :
  fetches (recordFetch P db now u contentHtml) k
  = if decide (k = u) then Number.add (fetches db u) 1 else fetches db k.
Proof.
  unfold fetches. destruct (decide (k = u)) as [->|Hne].
  - rewrite recordFetch_lookup. reflexivity.
  - rewrite recordFetch_lookup_ne by congruence. reflexivity.
Qed.

(** A mirror returns normally; it starts with the line of the log that
    announces it; the ledger is then as it was, or holds one more fetch of
    the URL. *)
Lemma refetchDataFromUrl_ledger (appPath u : string) (w : World) :
  exists w' rest,
    refetchDataFromUrl P appPath u w = (Ok tt, w')
    /\ trace w' = trace w ++ Logged info ("Fetching " +:+ u +:+ " ...") :: rest
    /\ (META_DB w' = META_DB w
        \/ exists now contentHtml,
             META_DB w' = recordFetch P (META_DB w) now u contentHtml).
Proof.
  destruct (refetchDataFromUrl_run P appPath u w)
    as [[_ ->]|[(_ & e & _ & ->)|(_ & c & r & w2 & _ & Hsteps & ->)]].
  - eexists _, _. split; [reflexivity|]. split; [|left; reflexivity].
    simpl. rewrite <- app_assoc. reflexivity.
  - eexists _, _. split; [reflexivity|]. split; [|left; reflexivity].
    simpl. rewrite <- !app_assoc. reflexivity.
  - destruct (emits_pageSteps P appPath u c _ _ _ Hsteps) as [(new & Ht & _) _].
    simpl in Ht. rewrite <- !app_assoc in Ht. simpl in Ht.
    assert (Hdb : META_DB w2 = META_DB w
                  \/ exists now contentHtml,
                       META_DB w2 = recordFetch P (META_DB w) now u contentHtml).
    { destruct (pageSteps_ledger P _ _ _ _ _ _ Hsteps) as [[Hdb _]|(now & pre & Hdb & _)];
        [left|right; exists now, c]; exact Hdb. }
    destruct r as [[]|e].
    + eexists _, _. split; [reflexivity|]. split; [exact Ht | exact Hdb].
    + eexists _, _. split; [reflexivity|]. split; [|exact Hdb].
      simpl. rewrite Ht, <- app_assoc. reflexivity.
Qed.

End MirrorFacts.

(** X8: a mirror never throws, whatever fails in it; it leaves the entries
    of the other URLs as they are, and the number of fetches of its URL is
    as it was or the sum, as JavaScript computes it, of that number and
    one, which is one more whenever the number is a safe integer; an entry
    is never removed. *)
Theorem refetchDataFromUrl_touches_one_entry (P : Platform) (appPath u : string)
    (w : World) :
  exists w',
    refetchDataFromUrl P appPath u w = (Ok tt, w')
    /\ (forall k, k <> u -> META_DB w' !! k = META_DB w !! k)
    /\ (fetches (META_DB w') u = fetches (META_DB w) u
        \/ fetches (META_DB w') u = Number.add (fetches (META_DB w) u) 1)
    /\ (Number.isSafeInteger (fetches (META_DB w) u) ->
        fetches (META_DB w') u = fetches (META_DB w) u
        \/ fetches (META_DB w') u = fetches (META_DB w) u + 1)
    /\ (is_Some (META_DB w !! u) -> is_Some (META_DB w' !! u)).
Proof.
  destruct (refetchDataFromUrl_ledger P appPath u w)
    as (w' & rest & Hrun & _ & [Hdb|(now & c & Hdb)]);
    exists w'; (split; [exact Hrun|]); rewrite Hdb.
  - auto.
  - split; [intros k Hk; apply recordFetch_lookup_ne; congruence|].
    rewrite fetches_recordFetch, decide_True by reflexivity.
    split; [right; reflexivity|].
    split; [intros Hsafe; right; apply NumberFacts.add_one_safe, Hsafe|].
    intros _. rewrite recordFetch_lookup. eauto.
Qed.

(** X9: the footprint of a mirror.  With [contentHtml] the page that the
    request answers, every call of a mirror of [url] is a line of the log,
    the request for [url], the making of the site directory or of the
    directory of the page file, the write of the rewritten page to the
    page file, the write of the metadata file, or a call of the download of
    what a kept reference of the page resolves to: the request for it, the
    directory of its file under the site directory, and that file. *)
Theorem mirror_footprint (P : Platform) (appPath url : string) (w : World) :
  let w0 := add_event (Logged info ("Fetching " +:+ url +:+ " ...")) w in
  let contentHtml :=
    match axios_get P w0 url with Ok content => content | Throw _ => "" end in
  exists new,
    trace (refetchDataFromUrl P appPath url w).2 = trace w ++ new
    /\ Forall (mirror_event P appPath url contentHtml) new.
Proof.
  intros w0 contentHtml.
  destruct (refetchDataFromUrl_run P appPath url w)
    as [[_ ->]|[(_ & e & _ & ->)|(_ & c & r & w2 & Hget & Hsteps & ->)]].
  - eexists. split; [simpl; rewrite <- app_assoc; reflexivity|].
    repeat constructor.
  - eexists. split; [simpl; rewrite <- !app_assoc; reflexivity|].
    repeat constructor.
  - assert (contentHtml = c) as -> by (unfold contentHtml, w0; rewrite Hget; reflexivity).
    destruct (emits_pageSteps P appPath url c _ _ _ Hsteps) as [(new & Ht & Hnew) _].
    simpl in Ht. rewrite <- !app_assoc in Ht. simpl in Ht.
    assert (Hhead : Forall (mirror_event P appPath url c)
                      [Logged info ("Fetching " +:+ url +:+ " ...");
                       HttpGet url true;
                       Logged info ("Content fetched from " +:+ url +:+ " successfully.")]).
    { repeat constructor. }
    destruct r as [[]|e]; simpl snd.
    + eexists. split; [exact Ht|].
      apply (Forall_app _ [_; _; _] new). auto.
    + exists ([Logged info ("Fetching " +:+ url +:+ " ...");
               HttpGet url true;
               Logged info ("Content fetched from " +:+ url +:+ " successfully.")]
              ++ new ++ [Logged error (error_message e)]).
      split; [simpl; rewrite Ht, <- app_assoc; reflexivity|].
      rewrite !Forall_app. split; [exact Hhead|]. split; [exact Hnew|].
      repeat constructor.
Qed.

(** X10: nothing is written before the page is fetched.  A mirror of an
    invalid URL only logs; a mirror whose request for the page fails makes
    that request and logs, the message being the one [fetchData] derives
    from the error; any other mirror has fetched the page before its
    first directory and its first file. *)
Theorem the_page_is_fetched_first (P : Platform) (appPath u : string) (w : World) :
  let fetching := Logged info ("Fetching " +:+ u +:+ " ...") in
  let w' := (refetchDataFromUrl P appPath u w).2 in
  (isValidUrl u = false
   /\ META_DB w' = META_DB w
   /\ trace w' = trace w ++ [fetching; Logged error (u +:+ " is invalid URL.")])
  \/ (isValidUrl u = true
      /\ META_DB w' = META_DB w
      /\ exists e,
           axios_get P (add_event fetching w) u = Throw e
           /\ trace w'
              = trace w ++ [fetching; HttpGet u false;
                            Logged error (fetchData_message e)])
  \/ (isValidUrl u = true
      /\ exists rest,
           trace w'
           = trace w
               ++ fetching :: HttpGet u true
                    :: Logged info ("Content fetched from " +:+ u +:+ " successfully.")
                    :: rest).
Proof.
  intros fetching w'. subst w'.
  destruct (refetchDataFromUrl_run P appPath u w)
    as [[Hv ->]|[(Hv & e & Hget & ->)|(Hv & c & r & w2 & Hget & Hsteps & ->)]].
  - left. split; [exact Hv|]. split; [reflexivity|].
    simpl. rewrite <- app_assoc. reflexivity.
  - right; left. split; [exact Hv|]. split; [reflexivity|]. exists e.
    split; [exact Hget|]. simpl. rewrite <- !app_assoc. reflexivity.
  - right; right. split; [exact Hv|].
    destruct (emits_pageSteps P appPath u c _ _ _ Hsteps) as [(new & Ht & _) _].
    simpl in Ht. rewrite <- !app_assoc in Ht. simpl in Ht.
    destruct r as [[]|e]; simpl snd.
    + exists new. exact Ht.
    + exists (new ++ [Logged error (error_message e)]).
      simpl. rewrite Ht, <- app_assoc. reflexivity.
Qed.

(** X11: the ledger in memory and the ledger on disk.  A mirror that
    changes the ledger ends with the write of the whole new ledger, its
    entries in the order of their insertion, to the metadata file,
    followed only by the line of the log for the error of that write if it
    fails, in which case the ledger in memory stays changed; and when no
    key was there twice and every entry was under its own URL, a run of
    the program that loads the array written gets the ledger that was in
    memory, in the same order and without an error. *)
Theorem the_ledger_is_written_last (P : Platform) (appPath u : string) (w : World) :
  let w' := (refetchDataFromUrl P appPath u w).2 in
  META_DB w' = META_DB w
  \/ exists pre ok post,
       trace w'
       = trace w ++ pre
           ++ FileWrite (Path.join APP_ROOT_PATH META_FILE)
                (Json (metaFileContents (META_DB w'))) ok :: post
       /\ ((ok = true /\ post = [])
           \/ (ok = false /\ exists message, post = [Logged error message]))
       /\ (keyed (META_DB w) ->
           readMetaDataFile (Ok (Ok <$> metaFileContents (META_DB w'))) ∅
           = (META_DB w', None)).
Proof.
  intros w'. subst w'.
  destruct (refetchDataFromUrl_run P appPath u w)
    as [[_ ->]|[(_ & e & _ & ->)|(_ & c & r & w2 & _ & Hsteps & ->)]];
    [left; reflexivity | left; reflexivity |].
  destruct (pageSteps_ledger P _ _ _ _ _ _ Hsteps) as [[Hdb _]|(now & pre & Hdb & Ht)].
  { left. destruct r; exact Hdb. }
  right.
  assert (Hkeyed : keyed (META_DB w) ->
            readMetaDataFile (Ok (Ok <$> metaFileContents (META_DB w2))) ∅
            = (META_DB w2, None)).
  { intros Hk. apply restart_restores. rewrite Hdb.
    apply (keyed_insert (createMetaData P _ now u c)), Hk. }
  simpl in Ht. rewrite <- !app_assoc in Ht. simpl in Ht.
  destruct r as [[]|e]; simpl snd.
  - exists ([Logged info ("Fetching " +:+ u +:+ " ...");
             HttpGet u true;
             Logged info ("Content fetched from " +:+ u +:+ " successfully.")] ++ pre),
      true, [].
    split; [rewrite Ht, <- app_assoc; reflexivity|]. auto.
  - exists ([Logged info ("Fetching " +:+ u +:+ " ...");
             HttpGet u true;
             Logged info ("Content fetched from " +:+ u +:+ " successfully.")] ++ pre),
      false, [Logged error (error_message e)].
    split; [simpl; rewrite Ht; rewrite <- ?app_assoc; simpl; rewrite <- ?app_assoc;
            reflexivity|].
    eauto 10.
Qed.

(** X12: one reference that does not resolve cancels the downloads.  When
    the page file is written and [new URL] throws for a kept reference of
    the page, the references before it resolving, no download is started,
    also not of the references that resolve: the run ends in the world in
    which the page file was written with one more line of the log, the
    error of that first reference, and the ledger is as it was. *)
Theorem an_unresolved_reference_cancels_the_downloads (P : Platform)
    (appPath u : string) (w w1 : World) (contentHtml sitePath : string)
    (before : list string) (ref : string) (after : list string) (e : Error) :
  pageStage P appPath u w = (Ok (contentHtml, sitePath), w1) ->
  validFiles (cheerio_load P contentHtml) = before ++ ref :: after ->
  Forall (fun r => is_ok (URL_href P r u) = true) before ->
  URL_href P ref u = Throw e ->
  refetchDataFromUrl P appPath u w
  = (Ok tt, {| META_DB := META_DB w;
               trace := trace w1 ++ [Logged error (error_message e)] |}).
Proof.
  intros Hpage Hrefs Hbefore Href.
  destruct (refetchDataFromUrl_unresolved P appPath u w w1 contentHtml sitePath
              before ref after e Hpage Hrefs Hbefore Href) as [-> <-].
  reflexivity.
Qed.

Lemma an_unresolved_reference_cancels_the_downloads_witness :
  pageStage MoreExamples.unresolved_reference Examples.appPath "https://example.com"
    Examples.start
  = (Ok ("content"%string, Examples.siteDir),
     Examples.page_written MoreExamples.unresolved_reference)
  /\ validFiles (cheerio_load MoreExamples.unresolved_reference "content")
     = ["/a.png"%string] ++ "//"%string :: ["/c.js"%string]
  /\ Forall (fun r => is_ok (URL_href MoreExamples.unresolved_reference r
                                "https://example.com") = true) ["/a.png"%string]
  /\ URL_href MoreExamples.unresolved_reference "//" "https://example.com"
     = Throw (JsError "Invalid URL")
  /\ refetchDataFromUrl MoreExamples.unresolved_reference Examples.appPath
       "https://example.com" Examples.start
     = (Ok tt,
        {| META_DB := META_DB Examples.start;
           trace := trace (Examples.page_written MoreExamples.unresolved_reference)
                      ++ [Logged error (error_message (JsError "Invalid URL"))] |}).
Proof.
  assert (Hpage :
    pageStage MoreExamples.unresolved_reference Examples.appPath "https://example.com"
      Examples.start
    = (Ok ("content"%string, Examples.siteDir),
       Examples.page_written MoreExamples.unresolved_reference))
    by (vm_compute; reflexivity).
  assert (Hrefs : validFiles (cheerio_load MoreExamples.unresolved_reference "content")
                  = ["/a.png"%string] ++ "//"%string :: ["/c.js"%string])
    by (vm_compute; reflexivity).
  assert (Hbefore : Forall (fun r => is_ok (URL_href MoreExamples.unresolved_reference r
                                              "https://example.com") = true)
                      ["/a.png"%string])
    by (repeat constructor).
  assert (Hfail : URL_href MoreExamples.unresolved_reference "//" "https://example.com"
                  = Throw (JsError "Invalid URL"))
    by reflexivity.
  split; [exact Hpage|]. split; [exact Hrefs|]. split; [exact Hbefore|].
  split; [exact Hfail|].
  exact (an_unresolved_reference_cancels_the_downloads
           MoreExamples.unresolved_reference _ _ _ _ _ _ _ _ _ _
           Hpage Hrefs Hbefore Hfail).
Defined.

(** ** The command line *)

Section CliFacts.

Context (P : Platform) (H : Host).

Lemma world_eta (w : World) : {| META_DB := META_DB w; trace := trace w ++ [] |} = w.
Proof. destruct w. simpl. rewrite app_nil_r. reflexivity. Qed.

(** What [displayMetaData] prints for a URL. *)
Lemma displayMetaData_run (u : string) (w : World) :
  exists lines,
    Cli.displayMetaData H u w
    = (Ok tt, {| META_DB := META_DB w; trace := trace w ++ lines |})
    /\ Forall log_event lines
    /\ List.filter is_error_line lines
       = match META_DB w !! u with
         | Some _ => []
         | None => [Logged error ("Metadata for " +:+ u +:+ " not found.")]
         end.
Proof.
  unfold Cli.displayMetaData. destruct (META_DB w !! u) as [metaData|].
  - eexists [_; _; _; _; _]. unfold bind, consoleLog, add_event. simpl.
    rewrite <- !app_assoc. simpl. split; [reflexivity|]. split; [|reflexivity].
    repeat constructor.
  - eexists [_]. unfold consoleError, add_event. simpl.
    split; [reflexivity|]. split; [|reflexivity]. repeat constructor.
Qed.

Lemma processUrls_cons (queryMetaData : bool) (appPath requestUrl : string)
    (requestUrls : list string) (w : World) :
  Cli.processUrls P H queryMetaData appPath (requestUrl :: requestUrls) w
  = bind (if queryMetaData then Cli.displayMetaData H (removeTrailingSlash requestUrl)
          else refetchDataFromUrl P appPath (removeTrailingSlash requestUrl))
      (fun _ => Cli.processUrls P H queryMetaData appPath requestUrls) w.
Proof. reflexivity. Qed.

Lemma query_logs (appPath : string) (urls : list string) (w : World) :
  exists new,
    Cli.processUrls P H true appPath urls w
    = (Ok tt, {| META_DB := META_DB w; trace := trace w ++ new |})
    /\ Forall log_event new.
Proof.
  revert w. induction urls as [|requestUrl urls IH]; intros w.
  - exists []. rewrite world_eta. split; [reflexivity | constructor].
  - rewrite processUrls_cons. unfold bind.
    destruct (displayMetaData_run (removeTrailingSlash requestUrl) w)
      as (lines & -> & Hlines & _).
    destruct (IH {| META_DB := META_DB w; trace := trace w ++ lines |})
      as (new & -> & Hnew).
    exists (lines ++ new). simpl. rewrite <- app_assoc. split; [reflexivity|].
    apply Forall_app; auto.
Qed.

Lemma processUrls_returns (queryMetaData : bool) (appPath : string) (urls : list string)
    (w : World) :
  exists w', Cli.processUrls P H queryMetaData appPath urls w = (Ok tt, w').
Proof.
  destruct queryMetaData.
  - destruct (query_logs appPath urls w) as (new & Hrun & _). eauto.
  - revert w. induction urls as [|requestUrl urls IH]; intros w; [eexists; reflexivity|].
    rewrite processUrls_cons. unfold bind.
    destruct (refetchDataFromUrl_ledger P appPath (removeTrailingSlash requestUrl) w)
      as (w1 & rest & -> & _). apply IH.
Qed.

Lemma createAppDirectory_run (appRoot : string) (w : World) :
  let appPath := Path.join (process_cwd H) appRoot in
  Cli.createAppDirectory P H appRoot w
  = (match fs_mkdir P w appPath with Ok _ => Ok appPath | Throw e => Throw e end,
     add_event (MkDir appPath (is_ok (fs_mkdir P w appPath))) w).
Proof.
  unfold Cli.createAppDirectory, bind, mkdir, ret. cbv beta iota zeta.
  destruct (fs_mkdir P w _) as [[]|e]; reflexivity.
Qed.

(** The load of the metadata file: it may write the empty array and log
    the error of the parser, and it throws the error of the read. *)
Lemma readMetaDataFile_run (w : World) (r : Result unit) (w' : World) :
  Cli.readMetaDataFile P H w = (r, w') ->
  (exists new,
     trace w' = trace w ++ new
     /\ Forall (fun e => bootstrap_event H e \/ log_event e) new
     /\ forall e, r = Throw e -> META_DB w' = META_DB w /\ Forall (bootstrap_event H) new)
  /\ forall e, r = Throw e ->
       exists w1, fs_readFile H w1 (Path.join APP_ROOT_PATH META_FILE) = Throw e.
Proof.
  unfold Cli.readMetaDataFile. cbv zeta.
  set (filePath := Path.join APP_ROOT_PATH META_FILE).
  set (w1 := if fs_existsSync H w filePath then w else (fs_write P filePath (Json []) w).2).
  assert (Hw1 : META_DB w1 = META_DB w
                /\ exists new1, trace w1 = trace w ++ new1 /\ Forall (bootstrap_event H) new1).
  { subst w1. destruct (fs_existsSync H w filePath).
    - split; [reflexivity|]. exists []. rewrite app_nil_r. auto.
    - split; [reflexivity|]. eexists [_]. split; [reflexivity|].
      repeat constructor. }
  destruct Hw1 as (Hdb1 & new1 & Ht1 & Hnew1).
  assert (Hnew1' : Forall (fun e => bootstrap_event H e \/ log_event e) new1).
  { eapply Forall_impl; [exact Hnew1|]. auto. }
  destruct (fs_readFile H w1 filePath) as [json|e] eqn:Eread.
  - destruct (readMetaDataFile (JSON_parse H json) (META_DB w1)) as [db [e|]].
    2:{ intros [= <- <-]. split; [|discriminate].
        exists new1. split; [exact Ht1|]. split; [exact Hnew1'|]. discriminate. }
    + intros [= <- <-]. split; [|discriminate].
      exists (new1 ++ [Logged info ("Reading metadata file error: " +:+ error_message e)]).
      split; [simpl; rewrite Ht1, <- app_assoc; reflexivity|].
      split; [|discriminate]. apply Forall_app. split; [exact Hnew1'|].
      constructor; [right; exact I | constructor].
  - intros [= <- <-]. split.
    + exists new1. split; [exact Ht1|]. split; [exact Hnew1'|]. auto.
    + intros e' [= <-]. eauto.
Qed.

Lemma main_cons (arg0 : string) (args : list string) (w : World) :
  Cli.main P H (arg0 :: args) w
  = bind (Cli.createAppDirectory P H APP_ROOT_PATH) (fun appPath =>
      bind (Cli.readMetaDataFile P H) (fun _ =>
        if existsb (String.eqb (Cli.toLowerCase arg0)) ["--metadata"; "-m"]
        then Cli.processUrls P H true appPath args
        else Cli.processUrls P H false appPath (arg0 :: args))) w.
Proof.
  unfold Cli.main, bind.
  destruct (Cli.createAppDirectory P H APP_ROOT_PATH w) as [[appPath|e] w1]; [|reflexivity].
  destruct (Cli.readMetaDataFile P H w1) as [[[]|e] w2]; [|reflexivity].
  destruct (existsb _ _); reflexivity.
Qed.

Lemma forEach_slashes (f : string -> M unit) (urls : list string) :
  Forall (fun u => f (u +:+ "/") = f u) urls ->
  Cli.forEach f (map (fun u => u +:+ "/") urls) = Cli.forEach f urls.
Proof.
  induction 1 as [|u urls Hu _ IH]; [reflexivity|].
  simpl. rewrite Hu, IH. reflexivity.
Qed.

End CliFacts.

(** X13: a final slash is not part of a request.  In a query and in a
    mirror, the program does for a URL followed by a slash what it does for
    the URL: it uses the same key of the ledger, the same page file and the
    same site directory. *)
Theorem a_final_slash_is_not_part_of_the_request (P : Platform) (H : Host)
    (queryMetaData : bool) (appPath : string) (urls : list string) :
  Forall (fun u => Str.endsWith u "/" = false) urls ->
  Cli.processUrls P H queryMetaData appPath (map (fun u => u +:+ "/") urls)
  = Cli.processUrls P H queryMetaData appPath urls.
Proof.
  intros Hurls. unfold Cli.processUrls. apply forEach_slashes.
  eapply Forall_impl; [exact Hurls|]. intros u Hu. cbv zeta.
  rewrite removeTrailingSlash_slash, removeTrailingSlash_other by exact Hu. reflexivity.
Qed.

Lemma a_final_slash_is_not_part_of_the_request_witness :
  Forall (fun u => Str.endsWith u "/" = false)
    ["https://example.com"; "https://example.org/a"]%string
  /\ Cli.processUrls Examples.all_up (MoreExamples.host []) false Examples.appPath
       (map (fun u => u +:+ "/") ["https://example.com"; "https://example.org/a"]%string)
     = Cli.processUrls Examples.all_up (MoreExamples.host []) false Examples.appPath
         ["https://example.com"; "https://example.org/a"]%string.
Proof.
  assert (Hurls : Forall (fun u => Str.endsWith u "/" = false)
                    ["https://example.com"; "https://example.org/a"]%string)
    by (repeat constructor).
  split; [exact Hurls|].
  exact (a_final_slash_is_not_part_of_the_request Examples.all_up (MoreExamples.host [])
           false Examples.appPath _ Hurls).
Defined.

(** X14: one URL does not stop the next.  For every list of requests the
    loop of [main] returns normally, having announced the mirror of every
    URL in the order of the list, whatever failed in the mirrors before
    it.  An entry that was there is still there; and for every URL whose
    number of fetches stays a safe integer when one is added for each
    request for it, that number has not gone down and has gone up by at
    most the number of requests for the URL. *)
Theorem every_url_is_mirrored (P : Platform) (H : Host) (appPath : string)
    (urls : list string) (w : World) :
  exists w' new,
    Cli.processUrls P H false appPath urls w = (Ok tt, w')
    /\ trace w' = trace w ++ new
    /\ sublist
         (map (fun requestUrl =>
                 Logged info ("Fetching " +:+ removeTrailingSlash requestUrl +:+ " ..."))
            urls) new
    /\ forall k,
         (is_Some (META_DB w !! k) -> is_Some (META_DB w' !! k))
         /\ let requests :=
              Z.of_nat (length (List.filter
                          (fun requestUrl => String.eqb (removeTrailingSlash requestUrl) k)
                          urls)) in
            (- 2 ^ 53 < fetches (META_DB w) k ->
             fetches (META_DB w) k + requests < 2 ^ 53 ->
             fetches (META_DB w) k <= fetches (META_DB w') k
               <= fetches (META_DB w) k + requests).
Proof.
  revert w. induction urls as [|requestUrl urls IH]; intros w.
  - exists w, []. rewrite app_nil_r. split; [reflexivity|]. split; [reflexivity|].
    split; [constructor|]. intros k. simpl. split; [auto | lia].
  - rewrite processUrls_cons. unfold bind.
    destruct (refetchDataFromUrl_ledger P appPath (removeTrailingSlash requestUrl) w)
      as (w1 & rest & -> & Ht1 & Hdb1).
    destruct (IH w1) as (w' & new & -> & Ht & Hsub & Hdb).
    exists w', (Logged info ("Fetching " +:+ removeTrailingSlash requestUrl +:+ " ...")
                :: rest ++ new).
    split; [reflexivity|].
    split; [rewrite Ht, Ht1, <- app_assoc; reflexivity|].
    split; [simpl; apply sublist_skip, sublist_inserts_l, Hsub|].
    intros k. destruct (Hdb k) as [Hsome Hk]. cbv zeta in Hk. simpl List.filter.
    assert (Hstep :
      (is_Some (META_DB w !! k) -> is_Some (META_DB w1 !! k))
      /\ (Number.isSafeInteger (fetches (META_DB w) k) ->
          fetches (META_DB w) k <= fetches (META_DB w1) k
            <= fetches (META_DB w) k
               + (if String.eqb (removeTrailingSlash requestUrl) k then 1 else 0))).
    { destruct Hdb1 as [->|(now & c & ->)].
      - split; [auto|]. intros _. destruct (String.eqb _ k); lia.
      - rewrite fetches_recordFetch.
        destruct (decide (k = removeTrailingSlash requestUrl)) as [->|Hne].
        + rewrite String.eqb_refl, recordFetch_lookup. split; [eauto|].
          intros Hsafe. rewrite NumberFacts.add_one_safe by exact Hsafe. lia.
        + rewrite recordFetch_lookup_ne by congruence.
          split; [auto|]. intros _. destruct (String.eqb _ k); lia. }
    destruct Hstep as [Hsome1 Hstep]. split; [auto|].
    cbv zeta. intros Hlow Hhigh.
    change (2 ^ 53) with 9007199254740992 in *.
    assert (Hsafe : Number.isSafeInteger (fetches (META_DB w) k)).
    { unfold Number.isSafeInteger. change (2 ^ 53) with 9007199254740992.
      destruct (String.eqb (removeTrailingSlash requestUrl) k); simpl length in Hhigh; lia. }
    specialize (Hstep Hsafe).
    destruct (String.eqb (removeTrailingSlash requestUrl) k);
      simpl length in *;
      (assert (Hrange : fetches (META_DB w1) k <= fetches (META_DB w') k
                 <= fetches (META_DB w1) k
                    + Z.of_nat (length (List.filter
                         (fun requestUrl0 => String.eqb (removeTrailingSlash requestUrl0) k)
                         urls))) by (apply Hk; lia));
      lia.
Qed.

(** X15: a query only reads the ledger.  For every list of URLs the loop
    of [main] in query mode returns normally, leaves the ledger as it is
    and adds nothing to the trace but lines of the log; the error lines are
    the lines [Metadata for <url> not found.] for the URLs, without their
    final slash, that have no entry, in the order of the list. *)
Theorem a_query_only_reads_the_ledger (P : Platform) (H : Host) (appPath : string)
    (urls : list string) (w : World) :
  exists new,
    Cli.processUrls P H true appPath urls w
    = (Ok tt, {| META_DB := META_DB w; trace := trace w ++ new |})
    /\ Forall log_event new
    /\ List.filter is_error_line new
       = map (fun u => Logged error ("Metadata for " +:+ u +:+ " not found."))
           (List.filter (fun u => match META_DB w !! u with Some _ => false | None => true end)
              (map removeTrailingSlash urls)).
Proof.
  revert w. induction urls as [|requestUrl urls IH]; intros w.
  - exists []. rewrite world_eta. repeat split; constructor.
  - rewrite processUrls_cons. unfold bind.
    destruct (displayMetaData_run H (removeTrailingSlash requestUrl) w)
      as (lines & -> & Hlines & Herrors).
    destruct (IH {| META_DB := META_DB w; trace := trace w ++ lines |})
      as (new & -> & Hnew & Herrors').
    exists (lines ++ new). simpl. rewrite <- app_assoc. split; [reflexivity|].
    split; [apply Forall_app; auto|].
    rewrite List.filter_app, Herrors, Herrors'. simpl.
    destruct (META_DB w !! removeTrailingSlash requestUrl); reflexivity.
Qed.

(** X16: a query is offline.  When the first argument is [--metadata] or
    [-m], in any letter case, [main] makes no request and writes no page
    and no resource: what it adds to the trace are lines of the log, the
    making of the application directory and, when there is no metadata
    file, the write of the empty array to it. *)
Theorem a_query_is_offline (P : Platform) (H : Host) (flag : string)
    (urls : list string) (w w' : World) (r : Result unit) :
  Cli.toLowerCase flag = "--metadata" \/ Cli.toLowerCase flag = "-m" ->
  Cli.main P H (flag :: urls) w = (r, w') ->
  exists new,
    trace w' = trace w ++ new
    /\ Forall (fun e => bootstrap_event H e \/ log_event e) new.
Proof.
  intros Hflag. rewrite main_cons.
  assert (existsb (String.eqb (Cli.toLowerCase flag)) ["--metadata"; "-m"] = true) as ->.
  { destruct Hflag as [-> | ->]; reflexivity. }
  unfold bind. rewrite createAppDirectory_run. cbv zeta.
  set (appPath := Path.join (process_cwd H) APP_ROOT_PATH).
  assert (Hmk : forall ok, bootstrap_event H (MkDir appPath ok) \/ log_event (MkDir appPath ok))
    by (intros ok; left; reflexivity).
  destruct (fs_mkdir P w appPath) as [[]|e].
  2:{ intros [= <- <-]. eexists [_]. split; [reflexivity|]. constructor; [apply Hmk | constructor]. }
  destruct (Cli.readMetaDataFile P H _) as [[[]|e] w2] eqn:Eread;
    destruct (readMetaDataFile_run P H _ _ _ Eread) as [(new2 & Ht2 & Hnew2 & _) _].
  2:{ intros [= <- <-]. exists (MkDir appPath true :: new2).
      split; [rewrite Ht2; simpl; rewrite <- app_assoc; reflexivity|].
      constructor; [apply Hmk | exact Hnew2]. }
  destruct (query_logs P H appPath urls w2) as (new3 & -> & Hnew3).
  intros [= <- <-]. exists (MkDir appPath true :: new2 ++ new3).
  split; [simpl; rewrite Ht2; simpl; rewrite <- !app_assoc; reflexivity|].
  constructor; [apply Hmk|]. apply Forall_app. split; [exact Hnew2|].
  eapply Forall_impl; [exact Hnew3|]. auto.
Qed.

Lemma a_query_is_offline_witness :
  (Cli.toLowerCase "--MetaData" = "--metadata"%string
   \/ Cli.toLowerCase "--MetaData" = "-m"%string)
  /\ Cli.main Examples.all_up (MoreExamples.host [MoreExamples.example_com])
       ["--MetaData"; "https://example.com/"; "https://example.org"] Examples.start
     = (MoreExamples.queried.1, MoreExamples.queried.2)
  /\ exists new,
       trace MoreExamples.queried.2 = trace Examples.start ++ new
       /\ Forall (fun e => bootstrap_event (MoreExamples.host [MoreExamples.example_com]) e
                           \/ log_event e) new.
Proof.
  assert (Hflag : Cli.toLowerCase "--MetaData" = "--metadata"%string
                  \/ Cli.toLowerCase "--MetaData" = "-m"%string)
    by (left; reflexivity).
  assert (Hrun :
    Cli.main Examples.all_up (MoreExamples.host [MoreExamples.example_com])
      ["--MetaData"; "https://example.com/"; "https://example.org"] Examples.start
    = (MoreExamples.queried.1, MoreExamples.queried.2))
    by (vm_compute; reflexivity).
  split; [exact Hflag|]. split; [exact Hrun|].
  exact (a_query_is_offline Examples.all_up (MoreExamples.host [MoreExamples.example_com])
           "--MetaData" _ _ _ _ Hflag Hrun).
Defined.

(** X17: [main] throws only at its bootstrap.  The errors [main] lets
    escape are the error of the making of the application directory and
    the error of the read of the metadata file; it has then done nothing
    for any URL: the ledger is as it was, and the trace holds the making of
    the application directory and, at most, the write of the empty
    array.  (That write is not awaited: its rejection is outside the
    promise of [main].) *)
Theorem main_throws_only_at_the_bootstrap (P : Platform) (H : Host)
    (args : list string) (w w' : World) (e : Error) :
  Cli.main P H args w = (Throw e, w') ->
  (fs_mkdir P w (Path.join (process_cwd H) APP_ROOT_PATH) = Throw e
   \/ exists w1, fs_readFile H w1 (Path.join APP_ROOT_PATH META_FILE) = Throw e)
  /\ META_DB w' = META_DB w
  /\ exists new, trace w' = trace w ++ new /\ Forall (bootstrap_event H) new.
Proof.
  destruct args as [|arg0 args]; [discriminate|].
  rewrite main_cons. unfold bind. rewrite createAppDirectory_run. cbv zeta.
  set (appPath := Path.join (process_cwd H) APP_ROOT_PATH).
  destruct (fs_mkdir P w appPath) as [[]|e0] eqn:Emk.
  2:{ intros [= <- <-]. split; [left; reflexivity|]. split; [reflexivity|].
      eexists [_]. split; [reflexivity|]. repeat constructor. }
  destruct (Cli.readMetaDataFile P H _) as [[[]|e1] w2] eqn:Eread;
    destruct (readMetaDataFile_run P H _ _ _ Eread) as [(new2 & Ht2 & _ & Hthrow) Hread].
  - destruct (processUrls_returns P H
                (existsb (String.eqb (Cli.toLowerCase arg0)) ["--metadata"; "-m"])
                appPath
                (if existsb (String.eqb (Cli.toLowerCase arg0)) ["--metadata"; "-m"]
                 then args else arg0 :: args) w2) as [w3 Hrun].
    destruct (existsb _ _); rewrite Hrun; discriminate.
  - intros [= <- <-]. destruct (Hthrow e1 eq_refl) as [Hdb2 Hnew2].
    split; [right; apply Hread; reflexivity|]. split; [exact Hdb2|].
    exists (MkDir appPath true :: new2).
    split; [rewrite Ht2; simpl; rewrite <- app_assoc; reflexivity|].
    constructor; [reflexivity | exact Hnew2].
Qed.

Lemma main_throws_only_at_the_bootstrap_witness :
  Cli.main Examples.all_up MoreExamples.first_run ["https://example.com"] Examples.start
  = (Throw (JsError "ENOENT: no such file or directory"), MoreExamples.first_run_result.2)
  /\ (fs_mkdir Examples.all_up Examples.start
        (Path.join (process_cwd MoreExamples.first_run) APP_ROOT_PATH)
      = Throw (JsError "ENOENT: no such file or directory")
      \/ exists w1,
           fs_readFile MoreExamples.first_run w1 (Path.join APP_ROOT_PATH META_FILE)
           = Throw (JsError "ENOENT: no such file or directory"))
  /\ META_DB MoreExamples.first_run_result.2 = META_DB Examples.start
  /\ exists new,
       trace MoreExamples.first_run_result.2 = trace Examples.start ++ new
       /\ Forall (bootstrap_event MoreExamples.first_run) new.
Proof.
  assert (Hrun :
    Cli.main Examples.all_up MoreExamples.first_run ["https://example.com"] Examples.start
    = (Throw (JsError "ENOENT: no such file or directory"),
       MoreExamples.first_run_result.2))
    by (vm_compute; reflexivity).
  split; [exact Hrun|].
  exact (main_throws_only_at_the_bootstrap Examples.all_up MoreExamples.first_run
           _ _ _ _ Hrun).
Defined.

(** X18: the application directory is an entry of the working directory.
    When the working directory is an absolute path in normal form,
    [createAppDirectory] makes and returns the directory [fetch-site-cli]
    in it, itself an absolute path in normal form. *)
Theorem the_app_directory_is_in_the_working_directory (P : Platform) (H : Host)
    (w : World) :
  clean_directory (process_cwd H) ->
  let appPath := process_cwd H +:+ "/" +:+ APP_ROOT_PATH in
  Cli.createAppDirectory P H APP_ROOT_PATH w
  = (match fs_mkdir P w appPath with Ok _ => Ok appPath | Throw e => Throw e end,
     add_event (MkDir appPath (is_ok (fs_mkdir P w appPath))) w)
  /\ clean_directory appPath.
Proof.
  intros Hcwd appPath.
  assert (Hroot : clean_segment APP_ROOT_PATH).
  { split; [discriminate|]. split; [reflexivity|]. split; discriminate. }
  destruct (join_clean (process_cwd H) APP_ROOT_PATH Hcwd Hroot) as [Hjoin Hclean].
  split; [|exact Hclean].
  rewrite createAppDirectory_run. cbv zeta. rewrite Hjoin. reflexivity.
Qed.

Lemma the_app_directory_is_in_the_working_directory_witness :
  clean_directory (process_cwd (MoreExamples.host []))
  /\ Cli.createAppDirectory Examples.all_up (MoreExamples.host []) APP_ROOT_PATH
       Examples.start
     = (Ok "/app/fetch-site-cli"%string,
        add_event (MkDir "/app/fetch-site-cli" true) Examples.start)
  /\ clean_directory "/app/fetch-site-cli".
Proof.
  assert (Hcwd : clean_directory (process_cwd (MoreExamples.host []))).
  { exists ["app"%string]. split; [discriminate|]. split; [|reflexivity].
    repeat constructor; discriminate. }
  split; [exact Hcwd|].
  exact (the_app_directory_is_in_the_working_directory Examples.all_up
           (MoreExamples.host []) Examples.start Hcwd).
Defined.

Lemma page_and_site_are_entries_of_the_app_directory_witness :
  clean_directory Examples.appPath
  /\ Path.join Examples.appPath (urlToFilename "https://example.com/a?b=1")
     = (Examples.appPath +:+ "/" +:+ urlToFilename "https://example.com/a?b=1")%string
  /\ clean_segment (urlToFilename "https://example.com/a?b=1")
  /\ (isValidUrl "https://example.com/a?b=1" = true ->
      Path.join Examples.appPath (urlToSiteBaseUrl "https://example.com/a?b=1")
      = (Examples.appPath +:+ "/" +:+ urlToSiteBaseUrl "https://example.com/a?b=1")%string
      /\ clean_segment (urlToSiteBaseUrl "https://example.com/a?b=1")).
Proof.
  assert (Happ : clean_directory Examples.appPath).
  { exists ["app"; "fetch-site-cli"]%string. split; [discriminate|]. split; [|reflexivity].
    repeat constructor; discriminate. }
  split; [exact Happ|].
  exact (page_and_site_are_entries_of_the_app_directory Examples.appPath
           "https://example.com/a?b=1" Happ).
Defined.

(** ** The link in the page file and the file of the download *)

Section Links.

Lemma normalize_step_harmless (allowAboveRoot : bool) (segs stack : list string) :
  Forall (fun s => s = "" \/ clean_segment s) segs ->
  fold_left (Path.normalize_step allowAboveRoot) segs stack
  = rev (List.filter not_empty segs) ++ stack.
Proof.
  revert stack. induction segs as [|s segs IH]; intros stack Hsegs; [reflexivity|].
  apply Forall_cons in Hsegs as [Hs Hsegs]. simpl.
  destruct Hs as [->|Hs].
  - change (Path.normalize_step allowAboveRoot stack "") with stack.
    rewrite IH by exact Hsegs. reflexivity.
  - rewrite normalize_step_push, IH by assumption.
    destruct Hs as (Hne & _). apply String.eqb_neq in Hne.
    unfold not_empty at 2. rewrite Hne. simpl. rewrite <- app_assoc. reflexivity.
Qed.

Lemma filter_clean (segs : list string) :
  Forall clean_segment segs -> List.filter not_empty segs = segs.
Proof.
  induction 1 as [|s segs (Hne & _) _ IH]; [reflexivity|].
  simpl. apply String.eqb_neq in Hne. unfold not_empty at 1. rewrite Hne, IH. reflexivity.
Qed.

Lemma join_slash_app (l1 l2 : list string) :
  l1 <> [] -> l2 <> [] ->
  Path.join_slash (l1 ++ l2) = Path.join_slash l1 +:+ "/" +:+ Path.join_slash l2.
Proof.
  intros H1 H2. induction l1 as [|s l1 IH]; [contradiction|].
  destruct l1 as [|s' l1].
  - simpl app. apply join_slash_cons, H2.
  - change ((s :: s' :: l1) ++ l2) with (s :: ((s' :: l1) ++ l2)).
    rewrite !join_slash_cons by discriminate. rewrite IH by discriminate.
    rewrite !str_app_assoc. reflexivity.
Qed.

Lemma startsWith_segment (seg rest : string) :
  clean_segment seg -> Str.startsWith (seg +:+ rest) "/" = false.
Proof.
  intros (Hne & Hinc & _). destruct seg as [|c seg]; [contradiction|].
  change (Str.includes (String c seg) "/")
    with (Ascii.eqb c "/" || Str.includes seg "/") in Hinc.
  apply orb_false_iff in Hinc as [Hc _]. rewrite str_app_cons.
  change (Str.startsWith (String c (seg +:+ rest)) "/") with (Ascii.eqb "/" c && true).
  rewrite Ascii.eqb_sym, Hc. reflexivity.
Qed.

(** The normal form of a path whose segments are clean or empty, the last
    one clean. *)
Lemma normalize_harmless (path : string) (segs : list string) :
  Path.split_slash path = segs ->
  Forall (fun s => s = "" \/ clean_segment s) segs ->
  Forall clean_segment (List.filter not_empty segs) ->
  List.filter not_empty segs <> [] ->
  Str.endsWith path "/" = false ->
  Path.normalize path
  = (if Str.startsWith path "/" then "/" else "") +:+ Path.join_slash (List.filter not_empty segs).
Proof.
  intros Hsplit Hsegs Hclean Hne Hend. unfold Path.normalize, Path.normalizeString.
  destruct (String.eqb path "") eqn:E.
  { apply string_eqb_eq in E as ->. subst segs. exfalso. apply Hne. reflexivity. }
  rewrite Hsplit, normalize_step_harmless, app_nil_r, rev_involutive, Hend by exact Hsegs.
  pose proof (join_slash_not_empty _ Hne Hclean) as Hjoin.
  apply String.eqb_neq in Hjoin. rewrite Hjoin.
  destruct (Str.startsWith path "/"); reflexivity.
Qed.

Lemma harmless_app (l1 l2 : list string) :
  Forall clean_segment l1 -> Forall clean_segment l2 ->
  Forall (fun s => s = "" \/ clean_segment s) (l1 ++ "" :: l2)
  /\ List.filter not_empty (l1 ++ "" :: l2) = l1 ++ l2.
Proof.
  intros H1 H2. split.
  - apply Forall_app. split; [|constructor; [auto|]]; eapply Forall_impl; eauto.
  - rewrite List.filter_app. simpl. rewrite !filter_clean by assumption. reflexivity.
Qed.

Lemma join_slash_starts (l : list string) (rest : string) :
  l <> [] -> Forall clean_segment l ->
  Str.startsWith (Path.join_slash l +:+ rest) "/" = false.
Proof.
  destruct l as [|s l]; [contradiction|]. intros _ Hl.
  apply Forall_cons in Hl as [Hs _]. destruct l as [|s' l].
  - apply startsWith_segment, Hs.
  - rewrite join_slash_cons, str_app_assoc by discriminate. apply startsWith_segment, Hs.
Qed.

(** [path.join] of a path in normal form and a reference that is an
    absolute path in normal form. *)
Lemma join_root_relative (absolute : bool) (l segs : list string) :
  l <> [] -> Forall clean_segment l -> segs <> [] -> Forall clean_segment segs ->
  let front := (if absolute then "/" else "") +:+ Path.join_slash l in
  Path.join front ("/" +:+ Path.join_slash segs) = front +:+ "/" +:+ Path.join_slash segs.
Proof.
  intros Hl Hclean Hne Hsegs front.
  pose proof (join_slash_not_empty l Hl Hclean) as Hjoin.
  assert (Hfront : front <> "").
  { subst front. destruct absolute; [discriminate|]. rewrite str_app_nil_l. exact Hjoin. }
  unfold Path.join. apply String.eqb_neq in Hfront. rewrite Hfront.
  change (String.eqb ("/" +:+ Path.join_slash segs) "") with false. cbv iota.
  set (path := front +:+ "/" +:+ "/" +:+ Path.join_slash segs).
  assert (Hsplit : Path.split_slash path
                   = ((if absolute then [""] else []) ++ l) ++ "" :: segs).
  { subst path. rewrite split_slash_app.
    change (Path.split_slash ("/" +:+ Path.join_slash segs))
      with ("" :: Path.split_slash (Path.join_slash segs)).
    rewrite (split_join_slash segs) by assumption. f_equal.
    subst front. destruct absolute.
    - change (Path.split_slash ("/" +:+ Path.join_slash l))
        with ("" :: Path.split_slash (Path.join_slash l)).
      rewrite split_join_slash by assumption. reflexivity.
    - rewrite str_app_nil_l. apply split_join_slash; assumption. }
  assert (Hend : Str.endsWith path "/" = false).
  { subst path. rewrite <- !str_app_assoc, endsWith_app_r;
      [apply join_slash_end; assumption | apply join_slash_not_empty; assumption
      | reflexivity]. }
  assert (Hstart : Str.startsWith path "/" = absolute).
  { subst path front. destruct absolute; [reflexivity|].
    rewrite str_app_nil_l. apply join_slash_starts; assumption. }
  assert (Hfilter : List.filter not_empty (((if absolute then [""] else []) ++ l) ++ "" :: segs)
                    = l ++ segs).
  { rewrite !List.filter_app. simpl.
    rewrite (filter_clean l), (filter_clean segs) by assumption.
    destruct absolute; reflexivity. }
  rewrite (normalize_harmless path _ Hsplit), Hstart, Hfilter.
  - rewrite join_slash_app by assumption. subst front.
    rewrite !str_app_assoc. reflexivity.
  - rewrite !Forall_app. split; [split|].
    + destruct absolute; repeat constructor.
    + eapply Forall_impl; [exact Hclean|]. auto.
    + constructor; [auto|]. eapply Forall_impl; [exact Hsegs|]. auto.
  - rewrite Hfilter. apply Forall_app. auto.
  - rewrite Hfilter. destruct l; [contradiction | discriminate].
  - exact Hend.
Qed.

End Links.

(** X19: the link in the page file is the file of the download.  For a
    reference that is an absolute path in normal form, such as
    [/css/site.css], the rewritten reference is the name of the site
    directory followed by the reference, and read from the application
    directory, where the page file is, it is the path that [path.join]
    gives for the site directory and the reference, where [downloadFiles]
    writes the resource when the path of its URL is the reference. *)
Theorem a_rewritten_reference_is_the_downloaded_file (appPath u reference : string)
    (segs : list string) :
  clean_directory appPath ->
  isValidUrl u = true ->
  segs <> [] -> Forall clean_segment segs ->
  reference = "/" +:+ Path.join_slash segs ->
  let siteBaseUrl := urlToSiteBaseUrl u in
  let sitePath := Path.join appPath siteBaseUrl in
  modifyReference siteBaseUrl reference = siteBaseUrl +:+ reference
  /\ Path.join appPath (modifyReference siteBaseUrl reference) = Path.join sitePath reference
  /\ Path.join sitePath reference = appPath +:+ "/" +:+ siteBaseUrl +:+ reference.
Proof.
  intros (asegs & Hasegs & Haclean & ->) Hvalid Hne Hsegs -> siteBaseUrl sitePath.
  pose proof (urlToSiteBaseUrl_clean u Hvalid) as Hsite. fold siteBaseUrl in Hsite.
  assert (Hrewrite : modifyReference siteBaseUrl ("/" +:+ Path.join_slash segs)
                     = siteBaseUrl +:+ "/" +:+ Path.join_slash segs).
  { unfold modifyReference.
    change (negb (String.eqb ("/" +:+ Path.join_slash segs) "")
            && negb (Str.startsWith ("/" +:+ Path.join_slash segs) "http")) with true.
    cbv iota.
    apply (join_root_relative false [siteBaseUrl] segs);
      [discriminate | constructor; [exact Hsite | constructor] | exact Hne | exact Hsegs]. }
  assert (Hsite' : sitePath = "/" +:+ Path.join_slash (asegs ++ [siteBaseUrl])).
  { subst sitePath.
    destruct (join_clean ("/" +:+ Path.join_slash asegs) siteBaseUrl) as [-> _];
      [exists asegs; auto | exact Hsite|].
    rewrite join_slash_snoc, str_app_assoc by exact Hasegs. reflexivity. }
  assert (Hfile : Path.join sitePath ("/" +:+ Path.join_slash segs)
                  = ("/" +:+ Path.join_slash asegs) +:+ "/" +:+ siteBaseUrl
                      +:+ "/" +:+ Path.join_slash segs).
  { rewrite Hsite'.
    rewrite (join_root_relative true (asegs ++ [siteBaseUrl]) segs);
      [|destruct asegs; discriminate
       |apply Forall_app; split; [exact Haclean | constructor; [exact Hsite | constructor]]
       |exact Hne | exact Hsegs].
    cbv zeta. rewrite join_slash_snoc by exact Hasegs.
    rewrite !str_app_assoc. reflexivity. }
  split; [exact Hrewrite|]. split; [|exact Hfile].
  rewrite Hrewrite, Hfile. unfold Path.join.
  change (String.eqb ("/" +:+ Path.join_slash asegs) "") with false.
  assert (Hrel : siteBaseUrl +:+ "/" +:+ Path.join_slash segs <> "").
  { intros [E _]%str_app_eq_nil. destruct Hsite as [Hsite _]. contradiction. }
  apply String.eqb_neq in Hrel. rewrite Hrel.
  assert (E : ("/" +:+ Path.join_slash asegs) +:+ "/" +:+ siteBaseUrl
                +:+ "/" +:+ Path.join_slash segs
              = "/" +:+ Path.join_slash (asegs ++ siteBaseUrl :: segs)).
  { rewrite (join_slash_app asegs), join_slash_cons, !str_app_assoc
      by (assumption || discriminate).
    reflexivity. }
  rewrite E. apply normalize_clean; [destruct asegs; discriminate|].
  apply Forall_app. split; [exact Haclean|]. constructor; assumption.
Qed.

Lemma a_rewritten_reference_is_the_downloaded_file_witness :
  clean_directory Examples.appPath
  /\ isValidUrl "https://example.com" = true
  /\ ["css"; "site.css"]%string <> []
  /\ Forall clean_segment ["css"; "site.css"]%string
  /\ "/css/site.css"%string = "/" +:+ Path.join_slash ["css"; "site.css"]
  /\ modifyReference (urlToSiteBaseUrl "https://example.com") "/css/site.css"
     = (urlToSiteBaseUrl "https://example.com" +:+ "/css/site.css")%string
  /\ Path.join Examples.appPath
       (modifyReference (urlToSiteBaseUrl "https://example.com") "/css/site.css")
     = Path.join (Path.join Examples.appPath (urlToSiteBaseUrl "https://example.com"))
         "/css/site.css"
  /\ Path.join (Path.join Examples.appPath (urlToSiteBaseUrl "https://example.com"))
       "/css/site.css"
     = (Examples.appPath +:+ "/" +:+ urlToSiteBaseUrl "https://example.com"
          +:+ "/css/site.css")%string.
Proof.
  assert (Happ : clean_directory Examples.appPath).
  { exists ["app"; "fetch-site-cli"]%string. split; [discriminate|]. split; [|reflexivity].
    repeat constructor; discriminate. }
  assert (Hvalid : isValidUrl "https://example.com" = true) by reflexivity.
  assert (Hne : ["css"; "site.css"]%string <> []) by discriminate.
  assert (Hsegs : Forall clean_segment ["css"; "site.css"]%string)
    by (repeat constructor; discriminate).
  assert (Href : "/css/site.css"%string = "/" +:+ Path.join_slash ["css"; "site.css"])
    by reflexivity.
  do 5 (split; [assumption|]).
  exact (a_rewritten_reference_is_the_downloaded_file Examples.appPath
           "https://example.com" "/css/site.css" ["css"; "site.css"]%string
           Happ Hvalid Hne Hsegs Href).
Defined.

(** X20: the calls of one download.  However the event loop interleaves
    the task with the others, the task of [downloadFiles] for a URL
    fulfils its promise, its events are events of the download of its URL,
    and from its call to its end its steps are one of five sequences.  So
    it requests the URL at most once; it makes a directory only after the
    request succeeded; a file it writes is the file of its URL, written
    after its directory was made, with the data that the request answered
    in the world in which the task was resumed; and it ends with the line
    of its success or, without a file written, with the two lines of its
    failure, with the message of the error of the call that failed. *)
Theorem the_calls_of_a_download (P : Platform) (directoryPath : string) (index : nat)
    (u : string) :
  async_steps (task_event P directoryPath u)
    (fun r steps =>
       r = Ok tt
       /\ task_steps P directoryPath index u steps
       /\ (length (List.filter is_request (step_events steps)) <= 1)%nat
       /\ (forall path ok,
             In (MkDir path ok) (step_events steps) ->
             exists w, In (w, [HttpGet u true]) steps)
       /\ (forall path content ok,
             In (FileWrite path content ok) (step_events steps) ->
             exists filename data w,
               URL_pathname P u = Ok filename
               /\ path = Path.join directoryPath filename
               /\ axios_get P w u = Ok data
               /\ content = Data data
               /\ In (w, [HttpGet u true]) steps
               /\ In (MkDir (path_dirname P path) true) (step_events steps))
       /\ (In (Logged info ("File #" +:+ pretty (S index) +:+ " downloaded successfully."))
             (step_events steps)
           \/ exists e,
                In (Logged error
                      ("Error downloading file " +:+ pretty (S index) +:+ ": " +:+ u))
                  (step_events steps)
                /\ In (Logged error ("  Details: " +:+ error_message e))
                     (step_events steps)
                /\ forall path content,
                     ~ In (FileWrite path content true) (step_events steps)))
    (downloadTask P directoryPath index u).
Proof.
  eapply thread_steps_weaken; [| |apply downloadTask_steps]; [auto|].
  intros r steps [Hr Hsteps]. split; [exact Hr|]. split; [exact Hsteps|].
  split; [|split; [|split; [|apply (task_steps_failed P directoryPath index u), Hsteps]]].
  - destruct Hsteps as [(w0 & e & _ & ->)|(w0 & w1 & filename & _ & Hsteps)];
      [simpl; lia|]. cbv zeta in Hsteps.
    destruct Hsteps
      as [(e & _ & ->)
         |(data & w2 & _ & [(e & _ & ->)|(w3 & _ & [(e & _ & ->)|(_ & ->)])])];
      simpl; lia.
  - intros path ok Hin.
    destruct Hsteps as [(w0 & e & _ & ->)|(w0 & w1 & filename & _ & Hsteps)].
    { simpl in Hin. intuition discriminate. }
    cbv zeta in Hsteps.
    destruct Hsteps
      as [(e & _ & ->)
         |(data & w2 & _ & [(e & _ & ->)|(w3 & _ & [(e & _ & ->)|(_ & ->)])])];
      unfold step_events in Hin; simpl in Hin;
      first [exfalso; intuition discriminate | exists w1; simpl; auto].
  - intros path content ok Hin.
    destruct Hsteps as [(w0 & e & _ & ->)|(w0 & w1 & filename & Epath & Hsteps)].
    { simpl in Hin. intuition discriminate. }
    cbv zeta in Hsteps.
    destruct Hsteps
      as [(e & _ & ->)
         |(data & w2 & Eget & [(e & _ & ->)|(w3 & _ & [(e & _ & ->)|(_ & ->)])])];
      unfold step_events in Hin; simpl in Hin;
      try (exfalso; intuition discriminate).
    + destruct Hin as [H|[H|[H|[H|[H|[H|[]]]]]]]; try discriminate.
      injection H as <- <- <-. exists filename, data, w1.
      unfold step_events. simpl. auto 10.
    + destruct Hin as [H|[H|[H|[H|[H|[]]]]]]; try discriminate.
      injection H as <- <- <-. exists filename, data, w1.
      unfold step_events. simpl. auto 10.
Qed.
